(** * New Job Pal: the generation, document-assembly and mock-interview core

    A shallow embedding of the parts of [server.js] that extract a result
    object from the model's text, store it as a per-job artifact, map it to
    the slots of a document template, repair the rendered document, and drive
    the mock-interview sessions; followed by the properties of those parts.

    Conventions of the embedding:
    - a JavaScript string is the list of its UTF-16 code units ([list N]);
    - a value read from JSON is a [value]; an object is a finite map from
      property names to values (stdpp's [gmap]), so only what property reads
      observe is modelled (not the enumeration order of the properties);
    - a [try { ... } catch] is the [res] monad below: a handler either goes on,
      answers the request early, or throws and is answered by its [catch];
    - everything a request takes from outside the process (the model's reply,
      the clock, fresh UUIDs, the template files) is a field of [env]. *)

From Stdlib Require Import ZArith NArith List String Ascii Lia Bool.
From stdpp Require Import base tactics option list gmap.
Import ListNotations.

#[local] Set Warnings "-register-all".

(* ------------------------------------------------------------------------ *)
(** ** JavaScript strings *)
(* ------------------------------------------------------------------------ *)

Abbreviation jsstring := (list N).

(** An ASCII literal as a JavaScript string. *)
Definition js (s : string) : jsstring :=
  map N_of_ascii (list_ascii_of_string s).

(** The same, with every ['] standing for a double quote: JSON text is
    written this way below. *)
Definition jq (s : string) : jsstring :=
  map (fun c => if (c =? 39)%N then 34%N else c) (js s).

Module Str.

(** [WhiteSpace] and [LineTerminator] of ECMAScript: the class [\s] of a
    regular expression and the characters [String.prototype.trim] strips. *)
Definition is_space (c : N) : bool :=
  ((9 <=? c) && (c <=? 13) || (c =? 32) || (c =? 160) || (c =? 5760)
   || (8192 <=? c) && (c <=? 8202) || (c =? 8232) || (c =? 8233)
   || (c =? 8239) || (c =? 8287) || (c =? 12288) || (c =? 65279))%N.

Fixpoint drop_while (f : N -> bool) (s : jsstring) : jsstring :=
  match s with
  | c :: s' => if f c then drop_while f s' else s
  | [] => []
  end.

Definition trim_start (s : jsstring) : jsstring := drop_while is_space s.
Definition trim_end (s : jsstring) : jsstring :=
  rev (drop_while is_space (rev s)).

(** [s.trim()] *)
Definition trim (s : jsstring) : jsstring := trim_end (trim_start s).

(** [s] starts with [p]. *)
Fixpoint starts_with (p s : jsstring) : bool :=
  match p, s with
  | [], _ => true
  | a :: p', b :: s' => (a =? b)%N && starts_with p' s'
  | _ :: _, [] => false
  end.

(** [p] occurs in [s] at some position. *)
Fixpoint occurs (p s : jsstring) : bool :=
  starts_with p s || match s with [] => false | _ :: s' => occurs p s' end.

(** The decimal digits of [n]; [fuel] bounds the number of digits. *)
Fixpoint digits (fuel : nat) (n : N) (acc : jsstring) : jsstring :=
  match fuel with
  | O => acc
  | S f =>
      let acc' := (48 + n mod 10)%N :: acc in
      if (n <? 10)%N then acc' else digits f (n / 10)%N acc'
  end.

(** [String(n)] for a natural number [n]. *)
Definition of_nat (n : nat) : jsstring :=
  let k := N.of_nat n in digits (S (N.to_nat (N.log2 k))) k [].

(** The array index a property name denotes, if it is the canonical decimal
    form of one. *)
Definition to_index (k : jsstring) : option nat :=
  match k with
  | [] => None
  | c :: k' =>
      if forallb (fun d => (48 <=? d) && (d <=? 57))%N k
         && implb (c =? 48)%N match k' with [] => true | _ => false end
      then Some (fold_left (fun a d => a * 10 + N.to_nat (d - 48)) k 0)%nat
      else None
  end.

(** The longest prefix of [s] whose characters satisfy [f], and the rest. *)
Fixpoint span (f : N -> bool) (s : jsstring) : jsstring * jsstring :=
  match s with
  | c :: s' => if f c then let '(a, b) := span f s' in (c :: a, b) else ([], s)
  | [] => ([], [])
  end.

(** [[\s\S]*?stop]: the shortest text that [stop] follows, and what comes
    after [stop]. *)
Fixpoint lazy_until (stop s : jsstring) : option (jsstring * jsstring) :=
  if starts_with stop s then Some ([], drop (length stop) s)
  else match s with
       | [] => None
       | c :: s' =>
           match lazy_until stop s' with
           | Some (a, b) => Some (c :: a, b)
           | None => None
           end
       end.

(** [s.replace(p, '')] for a string pattern [p]: the first occurrence of [p]
    is taken out. *)
Fixpoint remove_first (p s : jsstring) : jsstring :=
  if starts_with p s then drop (length p) s
  else match s with
       | [] => []
       | c :: s' => c :: remove_first p s'
       end.

(** The matches of a regular expression with the [g] flag, left to right and
    not overlapping: [m] matches at the start of a text and gives the matched
    text; [skip] characters of the last match are still to be passed. *)
Fixpoint match_all (m : jsstring -> option jsstring) (skip : nat)
  (s : jsstring) : list jsstring :=
  match s with
  | [] => []
  | _ :: s' =>
      match skip with
      | S k => match_all m k s'
      | O =>
          match m s with
          | Some hit => hit :: match_all m (length hit - 1) s'
          | None => match_all m 0 s'
          end
      end
  end.

(** [s.replace(/../g, '')]: every such match is taken out. *)
Fixpoint remove_all (m : jsstring -> option jsstring) (skip : nat)
  (s : jsstring) : jsstring :=
  match s with
  | [] => []
  | c :: s' =>
      match skip with
      | S k => remove_all m k s'
      | O =>
          match m s with
          | Some hit => remove_all m (length hit - 1) s'
          | None => c :: remove_all m 0 s'
          end
      end
  end.

End Str.

(* ------------------------------------------------------------------------ *)
(** ** JavaScript values *)
(* ------------------------------------------------------------------------ *)

(** The values the program handles: what [JSON.parse] returns, plus
    [undefined], the result of reading a property that is not there. A number
    is kept as the decimal [m * 10^e] its text denotes, and stands for the
    double nearest to that decimal, which is what the engine holds; so two
    decimals may stand for one number, and the sign of a zero is not kept
    (the program cannot tell the two zeros apart). The program observes a
    number in two ways: through [ToBoolean] ([Js.truthy], where a decimal
    too small for a double counts as zero), and through [JSON.stringify],
    whenever a value is answered with [res.json] or written with [saveData]
    ([Wire.written], where a decimal too large for a double is [Infinity]
    and is written as [null]). *)
Inductive value :=
| VUndef
| VNull
| VBool (b : bool)
| VNum (m e : Z)
| VStr (s : jsstring)
| VArr (l : list value)
| VObj (o : gmap jsstring value).

Abbreviation obj := (gmap jsstring value).

(** The outcome of a piece of a request handler. *)
Inductive res (R A : Type) :=
| Ok (a : A)          (* go on with [a] *)
| Return (r : R)      (* [return res.status(..).json(..)] *)
| Throw.              (* an exception, on its way to the handler's [catch] *)
Arguments Ok {R A} a.
Arguments Return {R A} r.
Arguments Throw {R A}.

#[global] Instance res_ret {R} : MRet (res R) := fun _ a => Ok a.

#[global] Instance res_bind {R} : MBind (res R) := fun _ _ k m =>
  match m with
  | Ok a => k a
  | Return r => Return r
  | Throw => Throw
  end.

(** [try { m } catch { return r }] *)
Definition try_catch {R A} (m : res R A) (r : R) : res R A :=
  match m with
  | Throw => Return r
  | _ => m
  end.

Module Js.

(** The double nearest to [m * 10^e] is zero: the decimal is at most half
    the least positive double, [2^-1075]. *)
Definition rounds_to_zero (m e : Z) : bool :=
  if (m =? 0)%Z then true
  else if (0 <=? e)%Z then false
  else (Z.abs m * 2 ^ 1075 <=? 10 ^ (- e))%Z.

(** [ToBoolean]: what [!v], [v || w] and [if (v)] test. *)
Definition truthy (v : value) : bool :=
  match v with
  | VUndef | VNull => false
  | VBool b => b
  | VNum m e => negb (rounds_to_zero m e)
  | VStr s => negb (bool_decide (s = []))
  | VArr _ | VObj _ => true
  end.

(** [a || b] *)
Definition or_else (a b : value) : value := if truthy a then a else b.

Definition nullish (v : value) : bool :=
  match v with VUndef | VNull => true | _ => false end.

(** [v === s] for a string [s]. *)
Definition is_str (v : value) (s : jsstring) : bool :=
  match v with VStr t => bool_decide (t = s) | _ => false end.

(** The property [k] of a value other than [null] and [undefined]. Inherited
    properties are left out: the program reads the names of the result
    schema and array indices only, and no prototype has one of those. *)
Definition member (v : value) (k : jsstring) : value :=
  match v with
  | VObj o => default VUndef (o !! k)
  | VArr l =>
      match Str.to_index k with
      | Some i => default VUndef (l !! i)
      | None =>
          if bool_decide (k = js "length") then VNum (Z.of_nat (length l)) 0
          else VUndef
      end
  | VStr s =>
      match Str.to_index k with
      | Some i => from_option (fun c => VStr [c]) VUndef (s !! i)
      | None =>
          if bool_decide (k = js "length") then VNum (Z.of_nat (length s)) 0
          else VUndef
      end
  | _ => VUndef
  end.

(** [v.k]: a [TypeError] on [null] and [undefined]. *)
Definition get {R} (v : value) (k : jsstring) : res R value :=
  if nullish v then Throw else Ok (member v k).

(** [v?.k] and [v?.[k]] *)
Definition get_opt (v : value) (k : jsstring) : value :=
  if nullish v then VUndef else member v k.

(** [v[i]] for an index [i]. *)
Definition at_index (v : value) (i : nat) : value := member v (Str.of_nat i).

(** The own enumerable properties [{...v}] copies. *)
Definition own_properties (v : value) : obj :=
  match v with
  | VObj o => o
  | VArr l => list_to_map (imap (fun i x => (Str.of_nat i, x)) l)
  | VStr s => list_to_map (imap (fun i c => (Str.of_nat i, VStr [c])) s)
  | _ => ∅
  end.

(** [{...o, ...v}]: the properties of [v] are written over those of [o]. *)
Definition spread (v : value) (o : obj) : obj := own_properties v ∪ o.

(** The property writes [o[k] = v], one after the other; an object literal
    writes its properties in this way too. *)
Definition assign (props : list (jsstring * value)) (o : obj) : obj :=
  foldl (fun d kv => <[kv.1 := kv.2]> d) o props.

End Js.

(** What leaves the process: [res.json(v)] and [saveData(file, v)] write
    [JSON.stringify(v)], and the reader of the answer, or the next
    [loadData], gets [JSON.parse] of that text. *)
Module Wire.

(** The double nearest to [m * 10^e] is infinite: the decimal is at least
    [2^1024 - 2^970], half-way between the greatest double and [2^1024]. *)
Definition overflows (m e : Z) : bool :=
  if (0 <=? e)%Z then (2 ^ 1024 - 2 ^ 970 <=? Z.abs m * 10 ^ e)%Z
  else ((2 ^ 1024 - 2 ^ 970) * 10 ^ (- e) <=? Z.abs m)%Z.

(** [JSON.parse(JSON.stringify(v))] for the value of a property: a number
    that is infinite comes back as [null], every other number as the same
    number; a property whose value is [undefined] is left out, so that
    reading it gives [undefined] again; an element of an array that is
    [undefined] comes back as [null]; strings come back as they are. *)
Fixpoint written (v : value) : value :=
  match v with
  | VNum m e => if overflows m e then VNull else v
  | VArr l =>
      VArr (map (fun x => match written x with VUndef => VNull | y => y end) l)
  | VObj o =>
      VObj (omap (fun x => match written x with VUndef => None | y => Some y end)
                 o)
  | _ => v
  end.

End Wire.

(* ------------------------------------------------------------------------ *)
(** ** [JSON.parse] *)
(* ------------------------------------------------------------------------ *)

(** The engine's [JSON.parse], after the JSON grammar of ECMA-404: a lexer
    that is a state machine over the code units, and a pushdown parser over
    its tokens. [None] stands for the [SyntaxError] it throws. *)
Module Json.

Inductive token :=
| TLBrace | TRBrace | TLBracket | TRBracket | TColon | TComma
| TString (s : jsstring)
| TNumber (m e : Z)
| TTrue | TFalse | TNull.

Definition is_ws (c : N) : bool :=
  ((c =? 32) || (c =? 9) || (c =? 10) || (c =? 13))%N.
Definition is_digit (c : N) : bool := ((48 <=? c) && (c <=? 57))%N.
Definition is_lower (c : N) : bool := ((97 <=? c) && (c <=? 122))%N.
Definition is_number_char (c : N) : bool :=
  is_digit c || ((c =? 45) || (c =? 43) || (c =? 46) || (c =? 101) || (c =? 69))%N.

Definition digits_value (ds : jsstring) : Z :=
  fold_left (fun a d => a * 10 + Z.of_N (d - 48))%Z ds 0%Z.

(** A number: an optional minus sign, an integer part without a leading
    zero (unless it is 0 alone), an optional fraction (a dot and at least one
    digit), an optional exponent (e or E, an optional sign, at least one
    digit); read as the decimal [m * 10^e]. *)
Definition number_of (s : jsstring) : option (Z * Z) :=
  let '(neg, s1) :=
    match s with 45%N :: r => (true, r) | _ => (false, s) end in
  let '(int, s2) := Str.span is_digit s1 in
  let int_ok :=
    match int with
    | [] => false
    | [_] => true
    | d :: _ => negb (d =? 48)%N
    end in
  let '(frac, frac_ok, s3) :=
    match s2 with
    | 46%N :: r =>
        let '(f, r') := Str.span is_digit r in
        (f, negb (bool_decide (f = [])), r')
    | _ => ([], true, s2)
    end in
  let '(ex, ex_ok, s4) :=
    match s3 with
    | c :: r =>
        if ((c =? 101) || (c =? 69))%N then
          let '(eneg, r1) :=
            match r with
            | 45%N :: r' => (true, r')
            | 43%N :: r' => (false, r')
            | _ => (false, r)
            end in
          let '(ds, r2) := Str.span is_digit r1 in
          ((if eneg then - digits_value ds else digits_value ds)%Z,
           negb (bool_decide (ds = [])), r2)
        else (0%Z, true, s3)
    | [] => (0%Z, true, s3)
    end in
  if int_ok && frac_ok && ex_ok && bool_decide (s4 = []) then
    let m := digits_value (int ++ frac) in
    Some ((if neg then - m else m)%Z, (ex - Z.of_nat (length frac))%Z)
  else None.

Definition number_token (lexeme : jsstring) : option token :=
  '(m, e) ← number_of lexeme; Some (TNumber m e).

Definition word_token (w : jsstring) : option token :=
  if bool_decide (w = js "true") then Some TTrue
  else if bool_decide (w = js "false") then Some TFalse
  else if bool_decide (w = js "null") then Some TNull
  else None.

(** The character a one-letter escape stands for. *)
Definition escape (c : N) : option N :=
  if (c =? 34)%N then Some 34%N          (* quote *)
  else if (c =? 92)%N then Some 92%N     (* backslash *)
  else if (c =? 47)%N then Some 47%N     (* slash *)
  else if (c =? 98)%N then Some 8%N      (* b *)
  else if (c =? 102)%N then Some 12%N    (* f *)
  else if (c =? 110)%N then Some 10%N    (* n *)
  else if (c =? 114)%N then Some 13%N    (* r *)
  else if (c =? 116)%N then Some 9%N     (* t *)
  else None.

Definition hex (c : N) : option N :=
  if is_digit c then Some (c - 48)%N
  else if ((97 <=? c) && (c <=? 102))%N then Some (c - 87)%N
  else if ((65 <=? c) && (c <=? 70))%N then Some (c - 55)%N
  else None.

Definition punctuator (c : N) : option token :=
  if (c =? 123)%N then Some TLBrace
  else if (c =? 125)%N then Some TRBrace
  else if (c =? 91)%N then Some TLBracket
  else if (c =? 93)%N then Some TRBracket
  else if (c =? 58)%N then Some TColon
  else if (c =? 44)%N then Some TComma
  else None.

(** The lexer's states; the text read so far of the current token is kept
    in reverse. *)
Inductive lex_state :=
| LStart                                   (* between tokens *)
| LString (acc : jsstring)                 (* inside a string *)
| LEscape (acc : jsstring)                 (* after a backslash *)
| LHex (acc : jsstring) (k : nat) (u : N)  (* [k] digits of a \u escape read *)
| LNumber (acc : jsstring)
| LWord (acc : jsstring).

Definition lex_start (c : N) : option (list token * lex_state) :=
  if is_ws c then Some ([], LStart)
  else if (c =? 34)%N then Some ([], LString [])
  else if is_digit c || (c =? 45)%N then Some ([], LNumber [c])
  else if is_lower c then Some ([], LWord [c])
  else t ← punctuator c; Some ([t], LStart).

(** One character: the tokens it completes and the next state. *)
Definition lex_step (st : lex_state) (c : N)
  : option (list token * lex_state) :=
  match st with
  | LStart => lex_start c
  | LString acc =>
      if (c =? 34)%N then Some ([TString (rev acc)], LStart)
      else if (c =? 92)%N then Some ([], LEscape acc)
      else if (c <? 32)%N then None
      else Some ([], LString (c :: acc))
  | LEscape acc =>
      if (c =? 117)%N then Some ([], LHex acc 0 0%N)
      else e ← escape c; Some ([], LString (e :: acc))
  | LHex acc k u =>
      h ← hex c;
      let u' := (u * 16 + h)%N in
      if bool_decide (k = 3) then Some ([], LString (u' :: acc))
      else Some ([], LHex acc (S k) u')
  | LNumber acc =>
      if is_number_char c then Some ([], LNumber (c :: acc))
      else t ← number_token (rev acc);
           '(ts, st') ← lex_start c; Some (t :: ts, st')
  | LWord acc =>
      if is_lower c then Some ([], LWord (c :: acc))
      else t ← word_token (rev acc);
           '(ts, st') ← lex_start c; Some (t :: ts, st')
  end.

(** The end of the text. *)
Definition lex_end (st : lex_state) : option (list token) :=
  match st with
  | LStart => Some []
  | LNumber acc => t ← number_token (rev acc); Some [t]
  | LWord acc => t ← word_token (rev acc); Some [t]
  | LString _ | LEscape _ | LHex _ _ _ => None
  end.

Fixpoint lex (st : lex_state) (s : jsstring) : option (list token) :=
  match s with
  | [] => lex_end st
  | c :: s' =>
      '(ts, st') ← lex_step st c;
      rest ← lex st' s';
      Some (ts ++ rest)
  end.

(** The parser's stack: the arrays and objects still open. *)
Inductive frame :=
| FArray (acc : list value)              (* the elements so far, in reverse *)
| FObject (m : obj) (k : jsstring).      (* the members so far, and the name
                                            whose value is being read *)

Inductive parse_state :=
| PValue (stk : list frame)                       (* a value must follow *)
| PArrayFirst (stk : list frame)                  (* after [[] *)
| PArrayNext (acc : list value) (stk : list frame)  (* after an element *)
| PObjectFirst (stk : list frame)                 (* after [{] *)
| PObjectNext (m : obj) (stk : list frame)        (* after a member *)
| PName (m : obj) (stk : list frame)              (* after [,] in an object *)
| PColon (m : obj) (k : jsstring) (stk : list frame)
| PDone (v : value).

(** A value [v] is complete: it goes into the innermost open container. A
    member name met again replaces the earlier value. *)
Definition reduce (v : value) (stk : list frame) : parse_state :=
  match stk with
  | [] => PDone v
  | FArray acc :: stk' => PArrayNext (v :: acc) stk'
  | FObject m k :: stk' => PObjectNext (<[k := v]> m) stk'
  end.

Definition parse_value (t : token) (stk : list frame) : option parse_state :=
  match t with
  | TNull => Some (reduce VNull stk)
  | TTrue => Some (reduce (VBool true) stk)
  | TFalse => Some (reduce (VBool false) stk)
  | TNumber m e => Some (reduce (VNum m e) stk)
  | TString s => Some (reduce (VStr s) stk)
  | TLBracket => Some (PArrayFirst stk)
  | TLBrace => Some (PObjectFirst stk)
  | _ => None
  end.

Definition parse_step (st : parse_state) (t : token) : option parse_state :=
  match st, t with
  | PValue stk, _ => parse_value t stk
  | PArrayFirst stk, TRBracket => Some (reduce (VArr []) stk)
  | PArrayFirst stk, _ => parse_value t (FArray [] :: stk)
  | PArrayNext acc stk, TComma => Some (PValue (FArray acc :: stk))
  | PArrayNext acc stk, TRBracket => Some (reduce (VArr (rev acc)) stk)
  | PObjectFirst stk, TRBrace => Some (reduce (VObj ∅) stk)
  | PObjectFirst stk, TString k => Some (PColon ∅ k stk)
  | PObjectNext m stk, TComma => Some (PName m stk)
  | PObjectNext m stk, TRBrace => Some (reduce (VObj m) stk)
  | PName m stk, TString k => Some (PColon m k stk)
  | PColon m k stk, TColon => Some (PValue (FObject m k :: stk))
  | _, _ => None
  end.

Fixpoint parse_tokens (st : parse_state) (ts : list token) : option value :=
  match ts with
  | [] => match st with PDone v => Some v | _ => None end
  | t :: ts' => st' ← parse_step st t; parse_tokens st' ts'
  end.

(** [JSON.parse(s)] *)
Definition parse (s : jsstring) : option value :=
  ts ← lex LStart s; parse_tokens (PValue []) ts.

End Json.


(* ------------------------------------------------------------------------ *)
(** ** Responses *)
(* ------------------------------------------------------------------------ *)

(** What a handler answers: [res.json(a)] with its status, or an error
    object [{ error, raw }] (the [details] field, the engine's message of a
    caught exception, is left out). [a] is what the handler hands to
    [res.json]; where it is a value, the client reads [Wire.written] of
    it. *)
Inductive response (A : Type) :=
| Success (status : nat) (a : A)
| Failure (status : nat) (error : jsstring) (raw : option jsstring).
Arguments Success {A} status a.
Arguments Failure {A} status error raw.

Definition is_success {A} (r : response A) : bool :=
  match r with Success _ _ => true | Failure _ _ _ => false end.

(* ------------------------------------------------------------------------ *)
(** ** Structured result extraction *)
(* ------------------------------------------------------------------------ *)

(** [const jsonMatch = result.match(/```(?:json)?\s*([\s\S]*?)```/)
                       || [null, result];
     parsed = JSON.parse(jsonMatch[1].trim());]
    The regular expression is written out as the backtracking search the
    engine performs. *)
Module Extractor.

Definition fence : jsstring := js "```".

(** [([\s\S]*?)```]: the capture is the shortest text a fence follows. *)
Definition capture (s : jsstring) : option jsstring :=
  fst <$> Str.lazy_until fence s.

(** [\s*([\s\S]*?)```]: the spaces are taken greedily and given back one at
    a time when the rest does not match. *)
Fixpoint spaces_capture (s : jsstring) : option jsstring :=
  match s with
  | c :: s' =>
      if Str.is_space c then
        match spaces_capture s' with
        | Some inner => Some inner
        | None => capture s
        end
      else capture s
  | [] => capture []
  end.

(** [(?:json)?\s*([\s\S]*?)```]: with the tag if it is there, without it if
    the rest does not match then. *)
Definition tag_spaces_capture (s : jsstring) : option jsstring :=
  match
    (if Str.starts_with (js "json") s then spaces_capture (drop 4 s) else None)
  with
  | Some inner => Some inner
  | None => spaces_capture s
  end.

(** [result.match(...)]: the match at the leftmost position that has one;
    the value is the capture group. *)
Fixpoint fence_match (s : jsstring) : option jsstring :=
  match
    (if Str.starts_with fence s then tag_spaces_capture (drop 3 s) else None)
  with
  | Some inner => Some inner
  | None => match s with [] => None | _ :: s' => fence_match s' end
  end.

(** A JSON text as a model wraps it: a fence tagged [json], the text on
    lines of its own, a fence. *)
Definition fenced (json : jsstring) : jsstring :=
  fence ++ js "json" ++ [10%N] ++ json ++ [10%N] ++ fence.

Inductive extraction :=
| Parsed (v : value)
| ExtractionFailed (raw : jsstring).

(** [jsonMatch[1]] *)
Definition payload (raw : jsstring) : jsstring :=
  default raw (fence_match raw).

(** The [try] block, with the texts handed to [JSON.parse] on the way. *)
Definition extract_logged (raw : jsstring) : extraction * list jsstring :=
  let text := Str.trim (payload raw) in
  (match Json.parse text with
   | Some v => Parsed v
   | None => ExtractionFailed raw
   end, [text]).

Definition extract (raw : jsstring) : extraction := fst (extract_logged raw).

(** The same inside a handler: [catch { return res.status(500).json({ error,
    raw: result }) }]. *)
Definition extract_or_fail {A} (error : jsstring) (raw : jsstring)
  : res (response A) value :=
  match extract raw with
  | Parsed v => Ok v
  | ExtractionFailed r => Return (Failure 500 error (Some r))
  end.

End Extractor.


(* ------------------------------------------------------------------------ *)
(** ** The stored data and the outside of a request *)
(* ------------------------------------------------------------------------ *)

(** An entry of [document-templates.json]. *)
Record template := {
  template_type : jsstring;       (* 'resume' or 'cover-letter' *)
  template_filename : jsstring;
}.

Inductive role := Assistant | User.

(** A message of an interview session; a field that the object does not have
    is [VUndef]. *)
Record message := {
  msg_role : role;
  msg_content : value;
  msg_feedback : value;
  msg_questionType : value;
  msg_tip : value;
}.

(** An entry of [mock-interviews.json]. [questionCount] is a small counter:
    it is kept as an integer, far from where doubles stop being exact. *)
Record session := {
  session_id : jsstring;
  session_jobId : jsstring;
  messages : list message;
  questionCount : Z;
  feedback : value;
  createdAt : jsstring;
  completedAt : value;
}.

(** The JSON files under [data/] and the generated documents. Jobs, the
    profile, resumes and cover letters are objects with whatever properties
    were spread into them. *)
Record world := {
  jobs : list obj;
  profile : obj;
  resumes : list obj;
  coverLetters : list obj;
  interviews : list session;
  templates : list template;
  generated : list (jsstring * jsstring);   (* file name, [word/document.xml] *)
}.

Definition set_resumes (rs : list obj) (w : world) : world :=
  {| jobs := jobs w; profile := profile w; resumes := rs;
     coverLetters := coverLetters w; interviews := interviews w;
     templates := templates w; generated := generated w |}.

Definition set_coverLetters (cs : list obj) (w : world) : world :=
  {| jobs := jobs w; profile := profile w; resumes := resumes w;
     coverLetters := cs; interviews := interviews w;
     templates := templates w; generated := generated w |}.

Definition set_interviews (ss : list session) (w : world) : world :=
  {| jobs := jobs w; profile := profile w; resumes := resumes w;
     coverLetters := coverLetters w; interviews := ss;
     templates := templates w; generated := generated w |}.

Definition add_generated (name xml : jsstring) (w : world) : world :=
  {| jobs := jobs w; profile := profile w; resumes := resumes w;
     coverLetters := coverLetters w; interviews := interviews w;
     templates := templates w; generated := generated w ++ [(name, xml)] |}.

(** What one request takes from outside the process. *)
Record env := {
  (* the text of the model's answer; [None] when the call throws *)
  model_reply : option jsstring;
  (* [uuidv4()] for a new record, and for the name of a generated document *)
  uuid_record : jsstring;
  uuid_document : jsstring;
  (* [new Date().toISOString()], read for [createdAt] and then again for
     [updatedAt] or [completedAt] *)
  now_created : jsstring;
  now : jsstring;
  (* [new Date().toLocaleDateString('en-US', ...)] *)
  today : jsstring;
  (* [fs.existsSync] on a file of [data/templates] *)
  template_exists : jsstring -> bool;
  (* reading the template, unzipping it, compiling it and [doc.render(data)]:
     the text of [word/document.xml], or [None] when a step throws *)
  render : jsstring -> obj -> option jsstring;
  (* zipping the result and writing it succeed *)
  write_ok : bool;
}.

(** The state a handler runs in: the stored data, and how many times the
    model was called. *)
Record state := {
  stored : world;
  model_calls : nat;
}.

(** A handler in progress. What was written stays written when it throws. *)
Definition M (R A : Type) : Type := state -> res R A * state.

#[global] Instance M_ret {R} : MRet (M R) := fun _ a st => (Ok a, st).

#[global] Instance M_bind {R} : MBind (M R) := fun _ _ k m st =>
  match m st with
  | (Ok a, st') => k a st'
  | (Return r, st') => (Return r, st')
  | (Throw, st') => (Throw, st')
  end.

Definition lift {R A} (m : res R A) : M R A := fun st => (m, st).

(** [return res.status(..).json(..)] *)
Definition respond_with {R A} (r : R) : M R A := lift (Return r).

(** [loadData(file)] *)
Definition load {R A} (file : world -> A) : M R A :=
  fun st => (Ok (file (stored st)), st).

(** [saveData(file, data)]: the state holds the data handed to [saveData];
    the file holds [Wire.written] of them. *)
Definition save {R} (write : world -> world) : M R () :=
  fun st => (Ok (), {| stored := write (stored st);
                       model_calls := model_calls st |}).

(** [await callClaude(..)] and [await client.messages.create(..)]: the prompt
    has no part in what follows, only the answer has. *)
Definition call_model {R} (e : env) : M R jsstring :=
  fun st =>
    (match model_reply e with Some text => Ok text | None => Throw end,
     {| stored := stored st; model_calls := S (model_calls st) |}).

(** A whole handler: [try { body } catch (err) { res.status(500).json({ error
    }) }]; the body ends with its [res.json(..)]. *)
Definition handle {A} (error : jsstring) (body : M (response A) (response A))
  (w : world) : response A * state :=
  match body {| stored := w; model_calls := 0 |} with
  | (Ok r, st) | (Return r, st) => (r, st)
  | (Throw, st) => (Failure 500 error None, st)
  end.

(* ------------------------------------------------------------------------ *)
(** ** Document rendering and the repair pass *)
(* ------------------------------------------------------------------------ *)

Module Docx.

(** [/<w:p[ >][\s\S]*?<\/w:p>/] at the start of [s]: the matched text. *)
Definition match_paragraph (s : jsstring) : option jsstring :=
  if Str.starts_with (js "<w:p") s then
    match drop 4 s with
    | c :: r =>
        if ((c =? 32) || (c =? 62))%N then
          '(body, _) ← Str.lazy_until (js "</w:p>") r;
          Some (js "<w:p" ++ c :: body ++ js "</w:p>")
        else None
    | [] => None
    end
  else None.

(** [docXml.match(/<w:p[ >][\s\S]*?<\/w:p>/g) || []] *)
Definition paragraphs (docXml : jsstring) : list jsstring :=
  Str.match_all match_paragraph 0 docXml.

(** The expression for a text run at the start of [s]: [<w:t], any
    characters but [>], then [>], the text (any characters but [<]) and
    [</w:t>]. *)
Definition match_text (s : jsstring) : option jsstring :=
  if Str.starts_with (js "<w:t") s then
    let '(attrs, r1) := Str.span (fun c => negb (c =? 62)%N) (drop 4 s) in
    match r1 with
    | 62%N :: r2 =>
        let '(text, r3) := Str.span (fun c => negb (c =? 60)%N) r2 in
        if Str.starts_with (js "</w:t>") r3
        then Some (js "<w:t" ++ attrs ++ 62%N :: text ++ js "</w:t>")
        else None
    | _ => None
    end
  else None.

(** [/<[^>]+>/] at the start of [s]. *)
Definition match_tag (s : jsstring) : option jsstring :=
  match s with
  | 60%N :: r =>
      match Str.span (fun c => negb (c =? 62)%N) r with
      | (c :: inner, 62%N :: _) => Some (60%N :: c :: inner ++ [62%N])
      | _ => None
      end
  | _ => None
  end.

(** [(p.match(textRun) || []).map(t => t.replace(/<[^>]+>/g, '')).join('')]
    with the [g] flag on [textRun], the expression for a text run: the
    visible text of a paragraph. *)
Definition visible_text (p : jsstring) : jsstring :=
  concat (map (Str.remove_all match_tag 0) (Str.match_all match_text 0 p)).

(** The class [[\s—••—\-|]]: white space, the em dash, the bullet,
    the hyphen and the bar. *)
Definition is_separator (c : N) : bool :=
  Str.is_space c || ((c =? 8212) || (c =? 8226) || (c =? 45) || (c =? 124))%N.

(** [texts.replace(/[\s—••—\-|]/g, '').trim()] *)
Definition stripped (texts : jsstring) : jsstring :=
  Str.trim (List.filter (fun c => negb (is_separator c)) texts).

(** [texts.trim() && !stripped] *)
Definition only_separators (texts : jsstring) : bool :=
  negb (bool_decide (Str.trim texts = []))
  && bool_decide (stripped texts = []).

(** One turn of the loop over the paragraphs. *)
Definition repair_step (docXml p : jsstring) : jsstring :=
  if only_separators (visible_text p) then Str.remove_first p docXml
  else docXml.

(** The post-processing of [word/document.xml]. *)
Definition repair (docXml : jsstring) : jsstring :=
  foldl repair_step docXml (paragraphs docXml).

(** The paragraphs for which the loop calls [docXml.replace(p, '')]. *)
Definition removed (docXml : jsstring) : list jsstring :=
  List.filter (fun p => only_separators (visible_text p)) (paragraphs docXml).

(** [generateDocx(templateType, data)]: the name of the file written under
    [data/generated], or [None] for [null]. *)
Definition generateDocx {R : Type} (e : env) (templateType : jsstring) (data : obj)
  : M R (option jsstring) :=
  ts ← load templates;
  match list_find (fun t => template_type t = templateType) ts with
  | None => mret None
  | Some (_, t) =>
      if negb (template_exists e (template_filename t)) then mret None
      else
        (* try { ... } catch (err) { console.error(..); return null; } *)
        match render e (template_filename t) data with
        | None => mret None
        | Some docXml =>
            if write_ok e then
              let outputFilename :=
                templateType ++ js "-" ++ uuid_document e ++ js ".docx" in
              save (add_generated outputFilename (repair docXml));;
              mret (Some outputFilename)
            else mret None
        end
  end.

End Docx.

(* ------------------------------------------------------------------------ *)
(** ** The template field mapper *)
(* ------------------------------------------------------------------------ *)

Module Mapper.

Definition empty : value := VStr [].

(** [o.k || ''] *)
Definition field (o : value) (k : string) : value :=
  Js.or_else (Js.member o (js k)) empty.

(** The object literal [templateData] of the resume handler starts as. *)
Definition header_slots (e : env) (profile job : obj) (parsed : value)
  : list (jsstring * value) :=
  let links := Js.member (VObj profile) (js "links") in
  [ (js "name", field (VObj profile) "name");
    (js "email", field (VObj profile) "email");
    (js "phone", field (VObj profile) "phone");
    (js "location", field (VObj profile) "location");
    (js "title", field (VObj profile) "title");
    (js "website",
      Js.or_else (Js.or_else (Js.get_opt links (js "portfolio"))
                             (Js.get_opt links (js "linkedin"))) empty);
    (js "company", field (VObj job) "company");
    (js "job_title", field (VObj job) "title");
    (js "date", VStr (today e));
    (js "resume_content", field parsed "resume");
    (js "summary", field parsed "summary") ].

Definition skillCategories : list (jsstring * jsstring) :=
  [ (js "management", js "mgmt"); (js "design", js "design");
    (js "tools", js "tools") ].

(** [for (const [category, prefix] of Object.entries(skillCategories))]:
    the slots [prefix_1] to [prefix_6] of each category. *)
Definition skill_slots (parsed : value) : list (jsstring * value) :=
  flat_map (fun cp : jsstring * jsstring =>
    let skills :=
      Js.or_else (Js.get_opt (Js.member parsed (js "skills")) cp.1)
                 (VArr []) in
    map (fun i => (cp.2 ++ js "_" ++ Str.of_nat i,
                   Js.or_else (Js.at_index skills (i - 1)) empty))
        (seq 1 6))
    skillCategories.

(** max bullets per experience slot *)
Definition bulletCounts : list nat := [4; 3; 3; 2].

(** [for (let e = 1; e <= 4; e++)]: the slots of the experience at position
    [n]. *)
Definition experience_slots (parsed : value) : list (jsstring * value) :=
  let experiences :=
    Js.or_else (Js.member parsed (js "experiences")) (VArr []) in
  flat_map (fun n =>
    let exp := Js.or_else (Js.at_index experiences (n - 1)) (VObj ∅) in
    let slot (k : string) :=
      (js "exp" ++ Str.of_nat n ++ js "_" ++ js k, field exp k) in
    let bullets := Js.or_else (Js.member exp (js "bullets")) (VArr []) in
    [ slot "title"; slot "company"; slot "location"; slot "dates" ]%string
    ++ map (fun b => (js "exp" ++ Str.of_nat n ++ js "_bullet" ++ Str.of_nat b,
                      Js.or_else (Js.at_index bullets (b - 1)) empty))
           (seq 1 (default 0 (bulletCounts !! (n - 1)))))
    (seq 1 4).

(** The property writes that build [templateData], in the order of the
    program. Reading [parsed.resume] throws on [null]. *)
Definition slots (e : env) (profile job : obj) (parsed : value)
  : list (jsstring * value) :=
  header_slots e profile job parsed ++ skill_slots parsed
  ++ experience_slots parsed.

Definition templateData {R : Type} (e : env) (profile job : obj) (parsed : value)
  : res R obj :=
  if Js.nullish parsed then Throw
  else Ok (Js.assign (slots e profile job parsed) ∅).

(** The object literal the cover-letter handler passes to [generateDocx]. *)
Definition cover_letter_slots (e : env) (profile job : obj) (parsed : value)
  : list (jsstring * value) :=
  [ (js "name", field (VObj profile) "name");
    (js "email", field (VObj profile) "email");
    (js "phone", field (VObj profile) "phone");
    (js "location", field (VObj profile) "location");
    (js "title", field (VObj profile) "title");
    (js "company", field (VObj job) "company");
    (js "job_title", field (VObj job) "title");
    (js "date", VStr (today e));
    (js "cover_letter_content", field parsed "coverLetter") ].

Definition coverLetterData {R : Type} (e : env) (profile job : obj)
  (parsed : value) : res R obj :=
  if Js.nullish parsed then Throw
  else Ok (Js.assign (cover_letter_slots e profile job parsed) ∅).

(** The names of the slots of the resume template. *)
Definition slot_names : list jsstring :=
  map js [ "name"; "email"; "phone"; "location"; "title"; "website";
           "company"; "job_title"; "date"; "resume_content"; "summary";
           "mgmt_1"; "mgmt_2"; "mgmt_3"; "mgmt_4"; "mgmt_5"; "mgmt_6";
           "design_1"; "design_2"; "design_3"; "design_4"; "design_5";
           "design_6";
           "tools_1"; "tools_2"; "tools_3"; "tools_4"; "tools_5"; "tools_6";
           "exp1_title"; "exp1_company"; "exp1_location"; "exp1_dates";
           "exp1_bullet1"; "exp1_bullet2"; "exp1_bullet3"; "exp1_bullet4";
           "exp2_title"; "exp2_company"; "exp2_location"; "exp2_dates";
           "exp2_bullet1"; "exp2_bullet2"; "exp2_bullet3";
           "exp3_title"; "exp3_company"; "exp3_location"; "exp3_dates";
           "exp3_bullet1"; "exp3_bullet2"; "exp3_bullet3";
           "exp4_title"; "exp4_company"; "exp4_location"; "exp4_dates";
           "exp4_bullet1"; "exp4_bullet2" ]%string.

End Mapper.

(* ------------------------------------------------------------------------ *)
(** ** The artifact store: tailored resumes and cover letters *)
(* ------------------------------------------------------------------------ *)

Module Artifacts.

(** [jobs.find((j) => j.id === jobId)] *)
Definition find_job (jobId : jsstring) (js_ : list obj) : option obj :=
  snd <$> list_find (fun j => Js.is_str (Js.member (VObj j) (js "id")) jobId) js_.

(** [resumes.findIndex((r) => r.jobId === jobId)], with the entry found. *)
Definition find_existing (jobId : jsstring) (entries : list obj)
  : option (nat * obj) :=
  list_find (fun r => Js.is_str (Js.member (VObj r) (js "jobId")) jobId) entries.

(** The object literal of [resumeEntry] and of [clEntry]:
    [{ id: existing >= 0 ? resumes[existing].id : uuidv4(),
       jobId, jobTitle: job.title || '', company: job.company || '',
       ...parsed,
       createdAt: existing >= 0 ? resumes[existing].createdAt
                                : new Date().toISOString(),
       updatedAt: new Date().toISOString() }] *)
Definition entry (e : env) (jobId : jsstring) (job : obj) (parsed : value)
  (existing : option (nat * obj)) : obj :=
  let prior k fresh :=
    match existing with
    | Some (_, r) => Js.member (VObj r) k
    | None => VStr fresh
    end in
  Js.assign
    [ (js "createdAt", prior (js "createdAt") (now_created e));
      (js "updatedAt", VStr (now e)) ]
    (Js.spread parsed
       (Js.assign
          [ (js "id", prior (js "id") (uuid_record e));
            (js "jobId", VStr jobId);
            (js "jobTitle", Mapper.field (VObj job) "title");
            (js "company", Mapper.field (VObj job) "company") ] ∅)).

(** [if (docxFilename) { entry.docxPath = docxFilename; }] *)
Definition attach (docxFilename : option jsstring) (en : obj) : obj :=
  match docxFilename with
  | Some f => if bool_decide (f = []) then en else <[js "docxPath" := VStr f]> en
  | None => en
  end.

(** [if (existing >= 0) { entries[existing] = en; } else { entries.push(en); }] *)
Definition put (existing : option (nat * obj)) (en : obj) (entries : list obj)
  : list obj :=
  match existing with
  | Some (i, _) => <[i := en]> entries
  | None => entries ++ [en]
  end.

(** [app.post('/api/resume/tailor', ...)] *)
Definition tailor (e : env) (jobId : jsstring) : world -> response obj * state :=
  handle (js "Failed to tailor resume")
    (if bool_decide (jobId = []) then
       respond_with (Failure 400 (js "jobId is required") None)
     else
       js_ ← load jobs;
       match find_job jobId js_ with
       | None => respond_with (Failure 404 (js "Job not found") None)
       | Some job =>
           profile ← load profile;
           result ← call_model e;
           parsed ← lift (Extractor.extract_or_fail
                            (js "Failed to parse tailored resume") result);
           resumes ← load resumes;
           let existing := find_existing jobId resumes in
           let resumeEntry := entry e jobId job parsed existing in
           templateData ← lift (Mapper.templateData e profile job parsed);
           docxFilename ← Docx.generateDocx e (js "resume") templateData;
           let resumeEntry := attach docxFilename resumeEntry in
           save (set_resumes (put existing resumeEntry resumes));;
           mret (Success 200 resumeEntry)
       end).

(** [app.post('/api/cover-letter/generate', ...)] *)
Definition generate_cover_letter (e : env) (jobId : jsstring)
  : world -> response obj * state :=
  handle (js "Failed to generate cover letter")
    (if bool_decide (jobId = []) then
       respond_with (Failure 400 (js "jobId is required") None)
     else
       js_ ← load jobs;
       match find_job jobId js_ with
       | None => respond_with (Failure 404 (js "Job not found") None)
       | Some job =>
           profile ← load profile;
           result ← call_model e;
           parsed ← lift (Extractor.extract_or_fail
                            (js "Failed to parse cover letter") result);
           coverLetters ← load coverLetters;
           let existing := find_existing jobId coverLetters in
           let clEntry := entry e jobId job parsed existing in
           data ← lift (Mapper.coverLetterData e profile job parsed);
           docxFilename ← Docx.generateDocx e (js "cover-letter") data;
           let clEntry := attach docxFilename clEntry in
           save (set_coverLetters (put existing clEntry coverLetters));;
           mret (Success 200 clEntry)
       end).

End Artifacts.

(* ------------------------------------------------------------------------ *)
(** ** Mock interviews *)
(* ------------------------------------------------------------------------ *)

Module Interview.

(** [interviews.find((i) => i.id === id && i.jobId === jobId)], with the
    position of the session found: the handlers change that very object. *)
Definition find_session (jobId id : jsstring) (ss : list session)
  : option (nat * session) :=
  list_find (fun i => session_id i = id ∧ session_jobId i = jobId) ss.

(** The session [start] creates from the model's first question. *)
Definition opening (e : env) (jobId : jsstring) (question questionType tip : value)
  : session :=
  {| session_id := uuid_record e;
     session_jobId := jobId;
     messages :=
       [ {| msg_role := Assistant; msg_content := question;
            msg_feedback := VUndef; msg_questionType := questionType;
            msg_tip := tip |} ];
     questionCount := 1;
     feedback := VNull;
     createdAt := now e;
     completedAt := VNull |}.

(** [session.messages.push({ role: 'user', content: answer });
     session.messages.push({ role: 'assistant', content: parsed.question,
       feedback: parsed.feedback, questionType: parsed.questionType,
       tip: parsed.tip });
     session.questionCount += 1;] *)
Definition answered (s : session) (answer : jsstring)
  (question feedback_ questionType tip : value) : session :=
  {| session_id := session_id s;
     session_jobId := session_jobId s;
     messages :=
       messages s
       ++ [ {| msg_role := User; msg_content := VStr answer;
               msg_feedback := VUndef; msg_questionType := VUndef;
               msg_tip := VUndef |};
            {| msg_role := Assistant; msg_content := question;
               msg_feedback := feedback_; msg_questionType := questionType;
               msg_tip := tip |} ];
     questionCount := questionCount s + 1;
     feedback := feedback s;
     createdAt := createdAt s;
     completedAt := completedAt s |}.

(** [session.feedback = parsed;
     session.completedAt = new Date().toISOString();] *)
Definition completed (e : env) (s : session) (parsed : value) : session :=
  {| session_id := session_id s;
     session_jobId := session_jobId s;
     messages := messages s;
     questionCount := questionCount s;
     feedback := parsed;
     createdAt := createdAt s;
     completedAt := VStr (now e) |}.

(** [app.post('/api/jobs/:jobId/mock-interview/start', ...)] *)
Definition start (e : env) (jobId : jsstring)
  : world -> response session * state :=
  handle (js "Failed to start mock interview")
    (js_ ← load jobs;
     match Artifacts.find_job jobId js_ with
     | None => respond_with (Failure 404 (js "Job not found") None)
     | Some job =>
         result ← call_model e;
         parsed ← lift (Extractor.extract_or_fail
                          (js "Failed to parse interviewer response") result);
         question ← lift (Js.get parsed (js "question"));
         questionType ← lift (Js.get parsed (js "questionType"));
         tip ← lift (Js.get parsed (js "tip"));
         let session := opening e jobId question questionType tip in
         interviews ← load interviews;
         save (set_interviews (interviews ++ [session]));;
         mret (Success 201 session)
     end).

(** [if (!answer || !answer.trim()) { return res.status(400)... }]: [answer]
    is whatever the request body has under that name; calling [trim] on
    a value that has no such method throws. *)
Definition check_answer {A} (answer : value) : M (response A) jsstring :=
  if negb (Js.truthy answer) then
    respond_with (Failure 400 (js "Answer is required") None)
  else
    match answer with
    | VStr s =>
        if bool_decide (Str.trim s = []) then
          respond_with (Failure 400 (js "Answer is required") None)
        else mret s
    | _ => lift Throw
    end.

(** [app.post('/api/jobs/:jobId/mock-interview/:id/respond', ...)] *)
Definition respond (e : env) (jobId id : jsstring) (answer : value)
  : world -> response session * state :=
  handle (js "Failed to process interview response")
    (answer ← check_answer answer;
     interviews ← load interviews;
     match find_session jobId id interviews with
     | None =>
         respond_with (Failure 404 (js "Interview session not found") None)
     | Some (i, session) =>
         if Js.truthy (completedAt session) then
           respond_with
             (Failure 400 (js "This interview session is already complete") None)
         else
           resultText ← call_model e;
           parsed ← lift (Extractor.extract_or_fail
                            (js "Failed to parse interviewer response")
                            resultText);
           question ← lift (Js.get parsed (js "question"));
           feedback_ ← lift (Js.get parsed (js "feedback"));
           questionType ← lift (Js.get parsed (js "questionType"));
           tip ← lift (Js.get parsed (js "tip"));
           let session :=
             answered session answer question feedback_ questionType tip in
           save (set_interviews (<[i := session]> interviews));;
           mret (Success 200 session)
     end).

(** [app.post('/api/jobs/:jobId/mock-interview/:id/end', ...)] *)
Definition end_ (e : env) (jobId id : jsstring)
  : world -> response session * state :=
  handle (js "Failed to end mock interview")
    (interviews ← load interviews;
     match find_session jobId id interviews with
     | None =>
         respond_with (Failure 404 (js "Interview session not found") None)
     | Some (i, session) =>
         resultText ← call_model e;
         parsed ← lift (Extractor.extract_or_fail
                          (js "Failed to parse assessment") resultText);
         let session := completed e session parsed in
         save (set_interviews (<[i := session]> interviews));;
         mret (Success 200 session)
     end).

End Interview.

(* ------------------------------------------------------------------------ *)
(** ** The notions the properties are stated with *)
(* ------------------------------------------------------------------------ *)

(** A fenced block in a text: [before], a fence, [body], a fence, [after]. *)
Module Block.

(** No fence begins in [s], not even one that runs into a fence put after
    [s]. *)
Definition fence_free (s : jsstring) : bool :=
  negb (Str.occurs Extractor.fence (s ++ [96; 96]%N)).

(** The content of a block with the body [body]: what comes after the tag
    [json], if it is there, and the white space. *)
Definition content (body : jsstring) : jsstring :=
  Str.drop_while Str.is_space
    (if Str.starts_with (js "json") body then drop 4 body else body).

(** The text with the block. *)
Definition text (before body after : jsstring) : jsstring :=
  before ++ Extractor.fence ++ body ++ Extractor.fence ++ after.

End Block.

(** A document as a sequence of paragraphs with text around them: [lead],
    then each paragraph and the text that follows it. *)
Module Layout.

(** [s] begins as a paragraph does: [<w:p] and a space or [>]. *)
Definition opens (s : jsstring) : bool :=
  Str.starts_with (js "<w:p ") s || Str.starts_with (js "<w:p>") s.

(** [t] may become the beginning of a paragraph when a text follows it. *)
Definition may_open (t : jsstring) : bool :=
  existsb (fun r => opens (t ++ r))
    [ []; js " "; js ">"; js "p "; js "p>"; js ":p "; js ":p>";
      js "w:p "; js "w:p>" ].

(** No paragraph begins in [x], whatever follows [x]. *)
Fixpoint quiet (x : jsstring) : bool :=
  match x with
  | [] => true
  | _ :: x' => negb (may_open x) && quiet x'
  end.

(** [p] is one paragraph: the expression of the repair pass matches it as a
    whole, and no paragraph begins inside it. *)
Definition paragraph (p : jsstring) : bool :=
  match Docx.match_paragraph p with
  | Some q => bool_decide (q = p)
  | None => false
  end
  && quiet (drop 1 p).

Fixpoint flat (segments : list (jsstring * jsstring)) : jsstring :=
  match segments with
  | [] => []
  | (p, gap) :: rest => p ++ gap ++ flat rest
  end.

(** The text of the document. *)
Definition text (lead : jsstring) (segments : list (jsstring * jsstring))
  : jsstring :=
  lead ++ flat segments.

Definition well_formed (lead : jsstring)
  (segments : list (jsstring * jsstring)) : bool :=
  quiet lead
  && forallb (fun pg : jsstring * jsstring => paragraph pg.1 && quiet pg.2)
       segments.

(** The paragraphs that stay: those whose visible text is not made of
    separators around something other than white space. *)
Definition kept (segments : list (jsstring * jsstring))
  : list (jsstring * jsstring) :=
  map (fun pg : jsstring * jsstring =>
         (if Docx.only_separators (Docx.visible_text pg.1) then [] else pg.1,
          pg.2))
      segments.

(** [p] begins nowhere in [x] when [rest] follows. *)
Fixpoint absent (p x rest : jsstring) : Prop :=
  match x with
  | [] => True
  | _ :: x' => Str.starts_with p (x ++ rest) = false /\ absent p x' rest
  end.

End Layout.

(** The shape the prompt of the resume handler asks the model for:
    [{ "resume": "string", "summary": "string",
       "skills": { "management": [..], "design": [..], "tools": [..] },
       "experiences": [ { "title", "company", "location", "dates",
                          "bullets": [..] } ], ... }]
    with texts where the prompt says so. A property may be missing or
    [null]; other properties may be there as well. *)
Module Schema.

Definition absent (v : value) : bool :=
  match v with VUndef | VNull => true | _ => false end.

Definition text (v : value) : bool :=
  match v with VStr _ => true | _ => false end.

Definition optional_text (v : value) : bool := absent v || text v.

Definition optional_texts (v : value) : bool :=
  match v with
  | VArr l => forallb text l
  | _ => absent v
  end.

Definition experience (v : value) : bool :=
  match v with
  | VObj _ =>
      forallb (fun k => optional_text (Js.member v k))
        [js "title"; js "company"; js "location"; js "dates"]
      && optional_texts (Js.member v (js "bullets"))
  | _ => false
  end.

Definition skills (v : value) : bool :=
  match v with
  | VObj _ =>
      forallb (fun cp : jsstring * jsstring => optional_texts (Js.member v cp.1))
        Mapper.skillCategories
  | _ => absent v
  end.

Definition experiences (v : value) : bool :=
  match v with
  | VArr l => forallb experience l
  | _ => absent v
  end.

(** A generation result for a resume. *)
Definition resume_result (parsed : value) : bool :=
  match parsed with
  | VObj _ =>
      optional_text (Js.member parsed (js "resume"))
      && optional_text (Js.member parsed (js "summary"))
      && skills (Js.member parsed (js "skills"))
      && experiences (Js.member parsed (js "experiences"))
  | _ => false
  end.

(** The profile and the job have texts where the header slots read them. *)
Definition header (profile job : obj) : bool :=
  forallb (fun k => optional_text (Js.member (VObj profile) k))
    [js "name"; js "email"; js "phone"; js "location"; js "title"]
  && optional_text (Js.get_opt (Js.member (VObj profile) (js "links"))
                      (js "portfolio"))
  && optional_text (Js.get_opt (Js.member (VObj profile) (js "links"))
                      (js "linkedin"))
  && forallb (fun k => optional_text (Js.member (VObj job) k))
       [js "company"; js "title"].

(** The elements of a list of texts, or none when the list is missing. *)
Definition items (v : value) : list value :=
  match v with VArr l => l | _ => [] end.

(** The text at position [i] of a list, the empty text when there is none. *)
Definition item (l : list value) (i : nat) : value :=
  match l !! i with
  | Some (VStr s) => VStr s
  | _ => VStr []
  end.

(** The text under the name [k], the empty text when there is none. *)
Definition text_of (v : value) (k : string) : value :=
  match Js.get_opt v (js k) with
  | VStr s => VStr s
  | _ => VStr []
  end.

(** The slots as the specification words them: the header from the profile
    and the job; for each category, slot [i] has the skill at position
    [i - 1], or the empty text; for each of four positions, the fields of
    the experience there and its first bullets, as many as the position
    allows, or empty texts. *)
Definition expected_slots (e : env) (profile job : obj) (parsed : value)
  : list (jsstring * value) :=
  let links := Js.member (VObj profile) (js "links") in
  [ (js "name", text_of (VObj profile) "name");
    (js "email", text_of (VObj profile) "email");
    (js "phone", text_of (VObj profile) "phone");
    (js "location", text_of (VObj profile) "location");
    (js "title", text_of (VObj profile) "title");
    (js "website",
      match text_of links "portfolio" with
      | VStr [] => text_of links "linkedin"
      | website => website
      end);
    (js "company", text_of (VObj job) "company");
    (js "job_title", text_of (VObj job) "title");
    (js "date", VStr (today e));
    (js "resume_content", text_of parsed "resume");
    (js "summary", text_of parsed "summary") ]
  ++ flat_map (fun cp : jsstring * jsstring =>
       let skills :=
         items (Js.get_opt (Js.member parsed (js "skills")) cp.1) in
       map (fun i => (cp.2 ++ js "_" ++ Str.of_nat i, item skills (i - 1)))
           (seq 1 6))
       Mapper.skillCategories
  ++ flat_map (fun n =>
       let exp :=
         default (VObj ∅)
           (items (Js.member parsed (js "experiences")) !! (n - 1)) in
       let slot (k : string) :=
         (js "exp" ++ Str.of_nat n ++ js "_" ++ js k, text_of exp k) in
       [ slot "title"; slot "company"; slot "location"; slot "dates" ]%string
       ++ map (fun b =>
                 (js "exp" ++ Str.of_nat n ++ js "_bullet" ++ Str.of_nat b,
                  item (items (Js.member exp (js "bullets"))) (b - 1)))
              (seq 1 (default 0 (Mapper.bulletCounts !! (n - 1)))))
       (seq 1 4).

End Schema.

(** The interview sessions as the specification sees them. *)
Module Session.

Definition other (r : role) : role :=
  match r with Assistant => User | User => Assistant end.

Definition same_role (a b : role) : bool :=
  match a, b with
  | Assistant, Assistant | User, User => true
  | _, _ => false
  end.

(** The roles alternate, [turn] speaking first. *)
Fixpoint alternates (turn : role) (ms : list message) : bool :=
  match ms with
  | [] => true
  | m :: ms' => same_role (msg_role m) turn && alternates (other turn) ms'
  end.

(** The number of messages of the interviewer. *)
Definition interviewer_turns (ms : list message) : nat :=
  length (List.filter (fun m => same_role (msg_role m) Assistant) ms).

(** The invariant of a session: the messages alternate from the
    interviewer's first one on, the last one is the interviewer's, and
    [questionCount] is the number of the interviewer's messages. *)
Definition well_formed (s : session) : Prop :=
  alternates Assistant (messages s) = true
  /\ Nat.odd (length (messages s)) = true
  /\ questionCount s = Z.of_nat (interviewer_turns (messages s)).

(** The session is in the Completed state. *)
Definition complete (s : session) : bool := Js.truthy (completedAt s).

(** The requests of the interview routes, each with what it takes from
    outside. *)
Inductive request :=
| Start (e : env) (jobId : jsstring)
| Respond (e : env) (jobId id : jsstring) (answer : value)
| End (e : env) (jobId id : jsstring).

(** The stored data after a request. *)
Definition perform (w : world) (r : request) : world :=
  match r with
  | Start e jobId => stored (Interview.start e jobId w).2
  | Respond e jobId id answer => stored (Interview.respond e jobId id answer w).2
  | End e jobId id => stored (Interview.end_ e jobId id w).2
  end.

(** The answers [turns] given one after the other to the session [id], each
    of them accepted; [None] when one is refused. *)
Fixpoint exchange (jobId id : jsstring) (turns : list (env * value))
  (w : world) : option world :=
  match turns with
  | [] => Some w
  | (e, answer) :: turns' =>
      match Interview.respond e jobId id answer w with
      | (Success _ _, st) => exchange jobId id turns' (stored st)
      | (Failure _ _ _, _) => None
      end
  end.

End Session.

(** No document comes out of [generateDocx]: no template of the kind is
    registered, or the file of the registered one is missing, or a step of
    the rendering throws, or the result cannot be written. *)
Module Rendering.

Definition unavailable (e : env) (kind : jsstring) (data : obj)
  (registered : list template) : Prop :=
  match list_find (fun t => template_type t = kind) registered with
  | None => True
  | Some (_, t) =>
      template_exists e (template_filename t) = false
      \/ render e (template_filename t) data = None
      \/ write_ok e = false
  end.

End Rendering.

(** Data for the examples. *)
Module Sample.

Definition text (s : string) : value := VStr (js s).

Definition job : obj :=
  Js.assign [ (js "id", text "job-1"); (js "title", text "Designer");
              (js "company", text "Acme") ] ∅.

(** A resume stored for the job by an earlier request. *)
Definition prior : obj :=
  Js.assign [ (js "id", text "resume-1"); (js "jobId", text "job-1");
              (js "resume", text "old");
              (js "createdAt", text "2026-01-01T00:00:00.000Z");
              (js "updatedAt", text "2026-01-01T00:00:00.000Z") ] ∅.

Definition stored_data : world :=
  {| jobs := [job]; profile := ∅; resumes := [prior]; coverLetters := [];
     interviews := []; templates := []; generated := [] |}.

(** A request to which the model replies [reply]; no document can be
    rendered. *)
Definition outside (reply : jsstring) : env :=
  {| model_reply := Some reply;
     uuid_record := js "uuid-1"; uuid_document := js "uuid-2";
     now_created := js "2026-02-01T10:00:00.000Z";
     now := js "2026-02-01T10:00:00.001Z";
     today := js "February 1, 2026";
     template_exists := fun _ => true;
     render := fun _ _ => None;
     write_ok := true |}.

(** A reply of the model to the resume prompt: five management skills,
    eight design skills, no tools, five experiences. *)
Definition resume_reply : jsstring :=
  jq "{ 'resume': 'Jane Doe, designer', 'summary': 'Ten years of design.',
        'skills': { 'management': ['m1', 'm2', 'm3', 'm4', 'm5'],
                    'design': ['d1', 'd2', 'd3', 'd4', 'd5', 'd6', 'd7', 'd8'] },
        'experiences': [
          { 'title': 'Lead', 'company': 'Acme', 'location': 'Oslo',
            'dates': '2020 - 2024', 'bullets': ['a1', 'a2', 'a3', 'a4', 'a5'] },
          { 'title': 'Senior', 'company': 'Bolt',
            'bullets': ['b1', 'b2', 'b3', 'b4'] },
          { 'title': 'Designer', 'bullets': ['c1'] },
          { 'title': 'Junior', 'bullets': ['d1', 'd2', 'd3'] },
          { 'title': 'Intern', 'bullets': ['e1'] } ],
        'changes': [], 'highlights': [], 'atsKeywords': ['figma'] }".

Definition resume_result : value := default VNull (Json.parse resume_reply).

Definition person : obj :=
  Js.assign [ (js "name", text "Jane Doe"); (js "email", text "jane@doe.org");
              (js "links", VArr []) ] ∅.

(** The data the mapper makes of the reply. *)
Definition resume_data : obj :=
  match
    Mapper.templateData (R := ()) (outside resume_reply) person job
      resume_result
  with
  | Ok data => data
  | _ => ∅
  end.

(** A session of the job that was ended, with its assessment. *)
Definition finished : session :=
  {| session_id := js "session-1";
     session_jobId := js "job-1";
     messages :=
       [ {| msg_role := Assistant; msg_content := text "Tell me about you.";
            msg_feedback := VUndef; msg_questionType := text "behavioral";
            msg_tip := text "Be brief." |} ];
     questionCount := 1;
     feedback := VObj {[ js "overallScore" := VNum 9 0 ]};
     createdAt := js "2026-01-05T09:00:00.000Z";
     completedAt := text "2026-01-05T09:30:00.000Z" |}.

Definition interview_data : world :=
  {| jobs := [job]; profile := ∅; resumes := []; coverLetters := [];
     interviews := [finished]; templates := []; generated := [] |}.

End Sample.

(* ------------------------------------------------------------------------ *)
(** ** The job list *)
(* ------------------------------------------------------------------------ *)

Definition set_jobs (js_ : list obj) (w : world) : world :=
  {| jobs := js_; profile := profile w; resumes := resumes w;
     coverLetters := coverLetters w; interviews := interviews w;
     templates := templates w; generated := generated w |}.

Module Jobs.

(** [(j) => j.id === id] *)
Definition has_id (id : jsstring) (j : obj) : bool :=
  Js.is_str (Js.member (VObj j) (js "id")) id.

(** [jobs.findIndex((j) => j.id === req.params.id)], with the job found. *)
Definition find_index (id : jsstring) (js_ : list obj) : option (nat * obj) :=
  list_find (fun j => has_id id j) js_.

(** [app.post('/api/jobs', ...)]:
    [{ id: uuidv4(), ...req.body, createdAt: .., updatedAt: .. }] *)
Definition create (e : env) (body : value) : world -> response obj * state :=
  handle (js "Failed to add job")
    (js_ ← load jobs;
     let newJob :=
       Js.assign
         [ (js "createdAt", VStr (now_created e));
           (js "updatedAt", VStr (now e)) ]
         (Js.spread body (Js.assign [ (js "id", VStr (uuid_record e)) ] ∅)) in
     save (set_jobs (js_ ++ [newJob]));;
     mret (Success 201 newJob)).

(** [app.put('/api/jobs/:id', ...)]:
    [{ ...jobs[index], ...req.body, id: jobs[index].id, updatedAt: .. }] *)
Definition update (e : env) (id : jsstring) (body : value)
  : world -> response obj * state :=
  handle (js "Failed to update job")
    (js_ ← load jobs;
     match find_index id js_ with
     | None => respond_with (Failure 404 (js "Job not found") None)
     | Some (index, job) =>
         let updated :=
           Js.assign
             [ (js "id", Js.member (VObj job) (js "id"));
               (js "updatedAt", VStr (now e)) ]
             (Js.spread body job) in
         save (set_jobs (<[index := updated]> js_));;
         mret (Success 200 updated)
     end).

(** [app.delete('/api/jobs/:id', ...)]; the answer is [{ success: true }]. *)
Definition remove (id : jsstring) : world -> response () * state :=
  handle (js "Failed to delete job")
    (js_ ← load jobs;
     let initialLength := length js_ in
     let js_ := List.filter (fun j => negb (has_id id j)) js_ in
     if bool_decide (length js_ = initialLength) then
       respond_with (Failure 404 (js "Job not found") None)
     else
       save (set_jobs js_);;
       mret (Success 200 ())).

(** [app.put('/api/jobs/:id/star', ...)]:
    [jobs[index].starred = !jobs[index].starred;
     jobs[index].updatedAt = new Date().toISOString();] *)
Definition star (e : env) (id : jsstring) : world -> response obj * state :=
  handle (js "Failed to toggle star")
    (js_ ← load jobs;
     match find_index id js_ with
     | None => respond_with (Failure 404 (js "Job not found") None)
     | Some (index, job) =>
         let job :=
           Js.assign
             [ (js "starred",
                VBool (negb (Js.truthy (Js.member (VObj job) (js "starred")))));
               (js "updatedAt", VStr (now e)) ]
             job in
         save (set_jobs (<[index := job]> js_));;
         mret (Success 200 job)
     end).

(** [a ?? b] *)
Definition coalesce (a b : value) : value := if Js.nullish a then b else a.

(** [app.post('/api/jobs/:id/match', ...)]: the analysis is answered as the
    model gave it; its score is written to the job, the object found in
    [jobs]:
    [const score = parsed.matchScore ?? parsed.score ?? null;
     if (score != null) { job.matchScore = score; job.updatedAt = ..;
                          saveData('jobs.json', jobs); }] *)
Definition match_analysis (e : env) (id : jsstring)
  : world -> response value * state :=
  handle (js "Failed to generate match analysis")
    (js_ ← load jobs;
     match find_index id js_ with
     | None => respond_with (Failure 404 (js "Job not found") None)
     | Some (index, job) =>
         result ← call_model e;
         parsed ← lift (Extractor.extract_or_fail
                          (js "Failed to parse match analysis") result);
         matchScore ← lift (Js.get parsed (js "matchScore"));
         score ← (if Js.nullish matchScore
                  then lift (Js.get parsed (js "score"))
                  else mret matchScore);
         let score := coalesce score VNull in
         (if negb (Js.nullish score) then
            let job :=
              Js.assign [ (js "matchScore", score);
                          (js "updatedAt", VStr (now e)) ] job in
            save (set_jobs (<[index := job]> js_))
          else mret ());;
         mret (Success 200 parsed)
     end).

End Jobs.

(* ------------------------------------------------------------------------ *)
(** ** Reading the artifacts back *)
(* ------------------------------------------------------------------------ *)

Module Shelf.



(** [app.get('/api/jobs/:jobId/mock-interviews', ...)]:
    [interviews.filter((i) => i.jobId === req.params.jobId)] *)
Definition list_interviews (jobId : jsstring)
  : world -> response (list session) * state :=
  handle (js "Failed to load mock interviews")
    (interviews ← load interviews;
     mret (Success 200
             (List.filter (fun i => bool_decide (session_jobId i = jobId))
                          interviews))).

(** The job a request of the interview routes is about. *)
Definition job_of (r : Session.request) : jsstring :=
  match r with
  | Session.Start _ jobId | Session.Respond _ jobId _ _
  | Session.End _ jobId _ => jobId
  end.

(** The sessions the list route answers for a job. *)
Definition listed (jobId : jsstring) (w : world) : list session :=
  List.filter (fun i => bool_decide (session_jobId i = jobId)) (interviews w).

(** At most one entry of a collection is of a given job. *)
Definition one_per_job (entries : list obj) : Prop :=
  forall (jobId : jsstring) (i i' : nat) (r r' : obj),
    entries !! i = Some r -> entries !! i' = Some r' ->
    Js.member (VObj r) (js "jobId") = VStr jobId ->
    Js.member (VObj r') (js "jobId") = VStr jobId ->
    i = i'.

End Shelf.

(* ------------------------------------------------------------------------ *)
(** ** [JSON.stringify] and the data files *)
(* ------------------------------------------------------------------------ *)

(** The data [saveData] is given: an object with its properties in the order
    in which they are enumerated. A number is an integer that a double holds
    exactly (the counters and scores of the program); the text of other
    numbers is not modelled. *)
Inductive tree :=
| JUndefined
| JNull
| JBool (b : bool)
| JInt (z : Z)
| JText (s : jsstring)
| JArray (l : list tree)
| JObject (members : list (jsstring * tree)).

(** [JSON.stringify(data, null, 2)], after [SerializeJSONProperty] of
    ECMAScript. *)
Module Stringify.

Definition hex_digit (n : N) : N := if (n <? 10)%N then (48 + n)%N else (87 + n)%N.

(** [UnicodeEscape]: a backslash, [u] and four hexadecimal digits. *)
Definition unicode_escape (c : N) : jsstring :=
  [ 92; 117; hex_digit (c / 4096); hex_digit (c / 256 mod 16);
    hex_digit (c / 16 mod 16); hex_digit (c mod 16) ]%N.

Definition is_high (c : N) : bool := ((55296 <=? c) && (c <=? 56319))%N.
Definition is_low (c : N) : bool := ((56320 <=? c) && (c <=? 57343))%N.

(** A code unit that is not a surrogate, in a quoted string. *)
Definition quote_unit (c : N) : jsstring :=
  if (c =? 8)%N then [92; 98]%N            (* backspace *)
  else if (c =? 9)%N then [92; 116]%N      (* tab *)
  else if (c =? 10)%N then [92; 110]%N     (* line feed *)
  else if (c =? 12)%N then [92; 102]%N     (* form feed *)
  else if (c =? 13)%N then [92; 114]%N     (* carriage return *)
  else if (c =? 34)%N then [92; 34]%N      (* quote *)
  else if (c =? 92)%N then [92; 92]%N      (* backslash *)
  else if (c <? 32)%N then unicode_escape c
  else [c].

(** [QuoteJSONString] without the quotes around: a surrogate pair is written
    as it is, a surrogate alone as an escape. *)
Fixpoint quote_units (s : jsstring) : jsstring :=
  match s with
  | [] => []
  | c :: s' =>
      if is_high c then
        match s' with
        | d :: s'' =>
            if is_low d then c :: d :: quote_units s''
            else unicode_escape c ++ quote_units s'
        | [] => unicode_escape c
        end
      else if is_low c then unicode_escape c ++ quote_units s'
      else quote_unit c ++ quote_units s'
  end.

Definition quote (s : jsstring) : jsstring := [34%N] ++ quote_units s ++ [34%N].

(** [Number::toString] of a natural number below [10^21]. *)
Definition decimal (n : N) : jsstring :=
  Str.digits (S (N.to_nat (N.log2 n))) n [].

Definition number_text (z : Z) : jsstring :=
  (if (z <? 0)%Z then [45%N] else []) ++ decimal (Z.to_N (Z.abs z)).

(** [parts.join(separator)] *)
Definition join {A : Type} (separator : list A) (parts : list (list A))
  : list A :=
  match parts with
  | [] => []
  | p :: ps => p ++ concat (map (fun q => separator ++ q) ps)
  end.

Definition gap : jsstring := js "  ".

(** [SerializeJSONProperty] for a value that has a text; [undefined] is
    written [null], as it is for an element of an array. A property whose
    value is [undefined] is left out of its object. *)
Fixpoint text (indent : jsstring) (t : tree) : jsstring :=
  match t with
  | JUndefined | JNull => js "null"
  | JBool b => if b then js "true" else js "false"
  | JInt z => number_text z
  | JText s => quote s
  | JArray l =>
      let stepback := indent in
      let indent := indent ++ gap in
      match map (text indent) l with
      | [] => js "[]"
      | parts =>
          js "[" ++ [10%N] ++ indent
          ++ join (js "," ++ [10%N] ++ indent) parts
          ++ [10%N] ++ stepback ++ js "]"
      end
  | JObject members =>
      let stepback := indent in
      let indent := indent ++ gap in
      match
        omap id
          (map (fun kv : jsstring * tree =>
                  match kv with
                  | (_, JUndefined) => None
                  | (k, v) => Some (quote k ++ js ": " ++ text indent v)
                  end)
               members)
      with
      | [] => js "{}"
      | parts =>
          js "{" ++ [10%N] ++ indent
          ++ join (js "," ++ [10%N] ++ indent) parts
          ++ [10%N] ++ stepback ++ js "}"
      end
  end.

(** A property of an object in the text, if it is written. *)
Definition member_text (indent : jsstring) (kv : jsstring * tree)
  : option jsstring :=
  match kv with
  | (_, JUndefined) => None
  | (k, v) => Some (quote k ++ js ": " ++ text indent v)
  end.

(** What follows the text of a value in the text around it: a comma, a line
    feed, or nothing. *)
Definition boundary (rest : jsstring) : bool :=
  match rest with
  | [] => true
  | c :: _ => ((c =? 44) || (c =? 10))%N
  end.

(** The tokens of the text of [t]. *)
Fixpoint tokens (t : tree) : list Json.token :=
  match t with
  | JUndefined | JNull => [Json.TNull]
  | JBool b => if b then [Json.TTrue] else [Json.TFalse]
  | JInt z => [Json.TNumber z 0]
  | JText s => [Json.TString s]
  | JArray l =>
      [Json.TLBracket] ++ join [Json.TComma] (map tokens l)
      ++ [Json.TRBracket]
  | JObject members =>
      [Json.TLBrace]
      ++ join [Json.TComma]
           (omap id
              (map (fun kv : jsstring * tree =>
                      match kv with
                      | (_, JUndefined) => None
                      | (k, v) =>
                          Some (Json.TString k :: Json.TColon :: tokens v)
                      end)
                   members))
      ++ [Json.TRBrace]
  end.

Definition member_tokens (kv : jsstring * tree) : option (list Json.token) :=
  match kv with
  | (_, JUndefined) => None
  | (k, v) => Some (Json.TString k :: Json.TColon :: tokens v)
  end.

(** [JSON.stringify(data, null, 2)]: [None] stands for [undefined]. *)
Definition stringify (t : tree) : option jsstring :=
  match t with
  | JUndefined => None
  | _ => Some (text [] t)
  end.

(** The value [JSON.parse] makes of the text of [t]. *)
Fixpoint to_value (t : tree) : value :=
  match t with
  | JUndefined | JNull => VNull
  | JBool b => VBool b
  | JInt z => VNum z 0
  | JText s => VStr s
  | JArray l => VArr (map to_value l)
  | JObject members =>
      VObj (foldl (fun (m : obj) (kv : jsstring * tree) =>
                     match kv with
                     | (_, JUndefined) => m
                     | (k, v) => <[k := to_value v]> m
                     end) ∅ members)
  end.

(** A state of the parser in which a value is read into the stack [stk]. *)
Definition awaits (st : Json.parse_state) (stk : list Json.frame) : Prop :=
  forall tok, is_Some (Json.parse_value tok stk) ->
    Json.parse_step st tok = Json.parse_value tok stk.

(** The property the parser adds to the object read so far. *)
Definition with_member (m : obj) (kv : jsstring * tree) : obj :=
  match kv with
  | (_, JUndefined) => m
  | (k, v) => <[k := to_value v]> m
  end.

(** The integers of [t] are ones a double holds exactly, between [-2^53] and
    [2^53]. *)
Fixpoint safe (t : tree) : bool :=
  match t with
  | JInt z => (Z.abs z <=? 2 ^ 53)%Z
  | JArray l => forallb safe l
  | JObject members => forallb (fun kv : jsstring * tree => safe kv.2) members
  | _ => true
  end.

(** No surrogate stands alone in [s]: such a text is written to a file, as
    UTF-8, and read back without loss. *)
Fixpoint well_formed (s : jsstring) : bool :=
  match s with
  | [] => true
  | c :: s' =>
      if is_high c then
        match s' with
        | d :: s'' => is_low d && well_formed s''
        | [] => false
        end
      else negb (is_low c) && well_formed s'
  end.

(** [p] has no surrogate alone, whatever follows it. *)
Definition closed (p : jsstring) : Prop :=
  forall rest, well_formed (p ++ rest) = well_formed rest.

Definition plain (c : N) : bool := negb (is_high c) && negb (is_low c).

End Stringify.

(** The data files: [loadData], [saveData] and [ensureDataFiles]. *)
Module Storage.

(** The files of [data/] the program names. *)
Inductive file :=
| Profile | JobsFile | Resumes | CoverLetters | WritingSamples
| DocumentTemplates | Contacts | MockInterviews | CustomBoards.

Definition file_name (f : file) : jsstring :=
  match f with
  | Profile => js "profile.json"
  | JobsFile => js "jobs.json"
  | Resumes => js "resumes.json"
  | CoverLetters => js "cover-letters.json"
  | WritingSamples => js "writing-samples.json"
  | DocumentTemplates => js "document-templates.json"
  | Contacts => js "contacts.json"
  | MockInterviews => js "mock-interviews.json"
  | CustomBoards => js "custom-boards.json"
  end.

Definition files : list file :=
  [ Profile; JobsFile; Resumes; CoverLetters; WritingSamples;
    DocumentTemplates; Contacts; MockInterviews; CustomBoards ].

(** [DATA_DEFAULTS[filename]] *)
Definition DATA_DEFAULTS (f : file) : tree :=
  match f with
  | Profile =>
      JObject
        [ (js "name", JText []); (js "email", JText []);
          (js "phone", JText []); (js "location", JText []);
          (js "summary", JText []); (js "skills", JArray []);
          (js "experience", JArray []); (js "education", JArray []);
          (js "certifications", JArray []); (js "links", JArray []) ]
  | _ => JArray []
  end.

(** The directory [data/]: the text of each file, by name. The texts the
    program writes are texts of [JSON.stringify]. *)
Abbreviation disk := (gmap jsstring jsstring).

(** [loadData(filename)]: [None] when the fallback throws.
    [try { return JSON.parse(fs.readFileSync(filePath, 'utf-8')); }
     catch { return JSON.parse(JSON.stringify(defaultData)); }] *)
Definition loadData (d : disk) (f : file) : option value :=
  match d !! file_name f ≫= Json.parse with
  | Some v => Some v
  | None => Stringify.stringify (DATA_DEFAULTS f) ≫= Json.parse
  end.

(** [saveData(filename, data)]: [None] when it throws. *)
Definition saveData (d : disk) (f : file) (data : tree) : option disk :=
  text ← Stringify.stringify data; Some (<[file_name f := text]> d).

(** [ensureDataFiles()]: every file that is not there is written with its
    default. *)
Definition ensureDataFiles (d : disk) : option disk :=
  foldl (fun (acc : option disk) (f : file) =>
           d ← acc;
           match d !! file_name f with
           | Some _ => Some d
           | None => saveData d f (DATA_DEFAULTS f)
           end)
        (Some d) files.

End Storage.

(* ------------------------------------------------------------------------ *)
(** ** Handlers over one data file: contacts, writing samples, job boards *)
(* ------------------------------------------------------------------------ *)

(** A handler that reads one file and writes it at most once, as its last
    step before the answer: the content of the file after an early answer or
    an exception is the content before. *)
Definition serve {S A : Type} (error : jsstring) (content : S)
  (body : res (response A) (response A * S)) : response A * S :=
  match body with
  | Ok (r, content') => (r, content')
  | Return r => (r, content)
  | Throw => (Failure 500 error None, content)
  end.

Module Contacts.

(** [(c) => c.id === id] *)
Definition has_id (id : jsstring) (c : obj) : bool :=
  Js.is_str (Js.member (VObj c) (js "id")) id.

Definition find (id : jsstring) (contacts : list obj) : option (nat * obj) :=
  list_find (fun c => has_id id c) contacts.

(** [req.body.k || fallback] *)
Definition field {R : Type} (body : value) (k : string) (fallback : value)
  : res R value :=
  v ← Js.get body (js k); mret (Js.or_else v fallback).

(** [app.post('/api/contacts', ...)] *)
Definition create (e : env) (body : value) (contacts : list obj)
  : response obj * list obj :=
  serve (js "Failed to create contact") contacts
    (name ← field body "name" (VStr []);
     company ← field body "company" (VStr []);
     role_ ← field body "role" (VStr []);
     email ← field body "email" (VStr []);
     phone ← field body "phone" (VStr []);
     linkedIn ← field body "linkedIn" (VStr []);
     jobIds ← field body "jobIds" (VArr []);
     let newContact :=
       Js.assign
         [ (js "id", VStr (uuid_record e)); (js "name", name);
           (js "company", company); (js "role", role_); (js "email", email);
           (js "phone", phone); (js "linkedIn", linkedIn);
           (js "jobIds", jobIds); (js "notes", VArr []);
           (js "createdAt", VStr (now_created e));
           (js "updatedAt", VStr (now e)) ] ∅ in
     mret (Success 201 newContact, contacts ++ [newContact])).

(** [app.put('/api/contacts/:id', ...)]:
    [const { notes, ...updateFields } = req.body;
     contacts[index] = { ...contacts[index], ...updateFields,
       id: contacts[index].id, notes: contacts[index].notes, updatedAt: .. }] *)
Definition update (e : env) (id : jsstring) (body : value)
  (contacts : list obj) : response obj * list obj :=
  serve (js "Failed to update contact") contacts
    (match find id contacts with
     | None => Return (Failure 404 (js "Contact not found") None)
     | Some (index, contact) =>
         if Js.nullish body then Throw
         else
           let updateFields := delete (js "notes") (Js.own_properties body) in
           let updated :=
             Js.assign
               [ (js "id", Js.member (VObj contact) (js "id"));
                 (js "notes", Js.member (VObj contact) (js "notes"));
                 (js "updatedAt", VStr (now e)) ]
               (updateFields ∪ contact) in
           mret (Success 200 updated, <[index := updated]> contacts)
     end).

(** [app.delete('/api/contacts/:id', ...)] *)
Definition remove (id : jsstring) (contacts : list obj)
  : response () * list obj :=
  serve (js "Failed to delete contact") contacts
    (let kept := List.filter (fun c => negb (has_id id c)) contacts in
     if bool_decide (length kept = length contacts) then
       Return (Failure 404 (js "Contact not found") None)
     else mret (Success 200 (), kept)).

(** [app.post('/api/contacts/:id/notes', ...)]:
    [contact.notes.push(note); contact.updatedAt = ..;] on the contact found
    in [contacts]. Only an array has [push]. *)
Definition add_note (e : env) (id : jsstring) (body : value)
  (contacts : list obj) : response obj * list obj :=
  serve (js "Failed to add note") contacts
    (match find id contacts with
     | None => Return (Failure 404 (js "Contact not found") None)
     | Some (index, contact) =>
         text ← field body "text" (VStr []);
         let note :=
           Js.assign [ (js "id", VStr (uuid_record e)); (js "text", text);
                       (js "createdAt", VStr (now_created e)) ] ∅ in
         match Js.member (VObj contact) (js "notes") with
         | VArr notes =>
             let contact :=
               Js.assign [ (js "notes", VArr (notes ++ [VObj note]));
                           (js "updatedAt", VStr (now e)) ] contact in
             mret (Success 201 note, <[index := contact]> contacts)
         | _ => Throw
         end
     end).

(** [contact.notes.filter((n) => n.id !== noteId)]: reading [n.id] throws on
    [null]. *)
Fixpoint without_note {R : Type} (noteId : jsstring) (notes : list value)
  : res R (list value) :=
  match notes with
  | [] => mret []
  | n :: notes' =>
      id ← Js.get n (js "id");
      rest ← without_note noteId notes';
      mret (if Js.is_str id noteId then rest else n :: rest)
  end.

(** [app.delete('/api/contacts/:id/notes/:noteId', ...)]. Only an array has
    [filter]. *)
Definition remove_note (e : env) (id noteId : jsstring) (contacts : list obj)
  : response () * list obj :=
  serve (js "Failed to delete note") contacts
    (match find id contacts with
     | None => Return (Failure 404 (js "Contact not found") None)
     | Some (index, contact) =>
         match Js.member (VObj contact) (js "notes") with
         | VArr notes =>
             kept ← without_note noteId notes;
             if bool_decide (length kept = length notes) then
               Return (Failure 404 (js "Note not found") None)
             else
               let contact :=
                 Js.assign [ (js "notes", VArr kept);
                             (js "updatedAt", VStr (now e)) ] contact in
               mret (Success 200 (), <[index := contact]> contacts)
         | _ => Throw
         end
     end).

(** The requests that change the contacts. *)
Inductive request :=
| Create (e : env) (body : value)
| Update (e : env) (id : jsstring) (body : value)
| Remove (id : jsstring)
| AddNote (e : env) (id : jsstring) (body : value)
| RemoveNote (e : env) (id noteId : jsstring).

Definition perform (r : request) (contacts : list obj) : list obj :=
  match r with
  | Create e body => (create e body contacts).2
  | Update e id body => (update e id body contacts).2
  | Remove id => (remove id contacts).2
  | AddNote e id body => (add_note e id body contacts).2
  | RemoveNote e id noteId => (remove_note e id noteId contacts).2
  end.

(** The contact has a list of notes, each of them an object. *)
Definition has_notes (c : obj) : bool :=
  match Js.member (VObj c) (js "notes") with
  | VArr notes => forallb (fun n => negb (Js.nullish n)) notes
  | _ => false
  end.

End Contacts.

Module Boards.

(** [v.trim()]: only a string has the method. *)
Definition trim {R : Type} (v : value) : res R value :=
  match v with
  | VStr s => mret (VStr (Str.trim s))
  | _ => Throw
  end.

(** [app.post('/api/custom-boards', ...)]. The handler has no [try]: an
    exception leaves it, and the framework answers in its place. *)
Definition create (e : env) (body : value) (boards : list obj)
  : res (response obj) (response obj * list obj) :=
  name ← Js.get body (js "name");
  url ← Js.get body (js "url");
  description ← Js.get body (js "description");
  if negb (Js.truthy name) || negb (Js.truthy url) then
    Return (Failure 400 (js "Name and URL are required") None)
  else
    name ← trim name;
    url ← trim url;
    description ← trim (Js.or_else description (VStr []));
    let board :=
      Js.assign
        [ (js "id", VStr (uuid_record e)); (js "name", name); (js "url", url);
          (js "description", description);
          (js "createdAt", VStr (now e)) ] ∅ in
    mret (Success 201 board, boards ++ [board]).

(** No white space at either end of [s]. *)
Definition trimmed (s : jsstring) : bool :=
  match s with
  | [] => true
  | c :: _ => negb (Str.is_space c) && negb (Str.is_space (List.last s c))
  end.

End Boards.

(* ------------------------------------------------------------------------ *)
(** ** The [.env] file: the settings route and the loader *)
(* ------------------------------------------------------------------------ *)

Module DotEnv.

(** [s.split('\n')] *)
Fixpoint split (s : jsstring) : list jsstring :=
  match s with
  | [] => [[]]
  | c :: s' =>
      if (c =? 10)%N then [] :: split s'
      else match split s' with
           | line :: lines => (c :: line) :: lines
           | [] => [[c]]
           end
  end.

(** [lines.join('\n')] *)
Definition join (lines : list jsstring) : jsstring :=
  Stringify.join [10%N] lines.

(** [s.indexOf('=')], as what [s.slice(0, eqIndex)] and
    [s.slice(eqIndex + 1)] are; [None] for [-1]. *)
Fixpoint cut (s : jsstring) : option (jsstring * jsstring) :=
  match s with
  | [] => None
  | c :: s' =>
      if (c =? 61)%N then Some ([], s')
      else '(before, after) ← cut s'; Some (c :: before, after)
  end.

Definition is_quote (c : N) : bool := ((c =? 34) || (c =? 39))%N.

(** The [replace] of the loader, whose expression has the [g] flag and
    matches a double or single quote at the start or at the end: a quote at
    the start is taken out, and a quote at the end of what is left. *)
Definition unquote (v : jsstring) : jsstring :=
  let v :=
    match v with
    | c :: r => if is_quote c then r else v
    | [] => []
    end in
  match rev v with
  | c :: r => if is_quote c then rev r else v
  | [] => v
  end.

(** What a line of the file defines: a name and a value. *)
Definition reads (line : jsstring) : option (jsstring * jsstring) :=
  let trimmed := Str.trim line in
  if bool_decide (trimmed = []) || Str.starts_with (js "#") trimmed then None
  else
    '(before, after) ← cut trimmed;
    Some (Str.trim before, unquote (Str.trim after)).

(** The callback of [forEach]: [if (!process.env[key]) process.env[key] =
    value]. The environment of the process is a map from names to
    strings. *)
Definition load_line (environment : gmap jsstring jsstring) (line : jsstring)
  : gmap jsstring jsstring :=
  match reads line with
  | None => environment
  | Some (key, value) =>
      match environment !! key with
      | Some (_ :: _) => environment
      | _ => <[key := value]> environment
      end
  end.

(** The loader at the start of the program, over the contents of the file. *)
Definition load (envContents : jsstring)
  (environment : gmap jsstring jsstring) : gmap jsstring jsstring :=
  foldl load_line environment (split envContents).

Definition name : jsstring := js "ANTHROPIC_API_KEY".

(** [`ANTHROPIC_API_KEY=${key.trim()}`] *)
Definition definition (key : jsstring) : jsstring := name ++ js "=" ++ key.

(** [line.trim().startsWith('ANTHROPIC_API_KEY=')] *)
Definition defines_key (line : jsstring) : bool :=
  Str.starts_with (name ++ js "=") (Str.trim line).

(** No line feed in [s]. *)
Definition one_line (s : jsstring) : bool :=
  forallb (fun c => negb (c =? 10)%N) s.

(** The loader reads [line] as a definition of the key. *)
Definition names_key (line : jsstring) : bool :=
  match reads line with
  | Some (k, _) => bool_decide (k = name)
  | None => false
  end.

(** The callback of [lines.map]. *)
Definition replaced (key line : jsstring) : jsstring :=
  if defines_key line then definition key else line.

(** The contents the settings route writes: the lines that define the key
    are replaced, and a line is added when there was none. *)
Definition updated (envContent key : jsstring) : jsstring :=
  let lines := split envContent in
  let updatedLines := map (replaced key) lines in
  join (if existsb defines_key lines then updatedLines
        else updatedLines ++ [definition key]).

(** What [fs.readFileSync(path, 'utf-8')] reads of a file that
    [fs.writeFileSync(path, s, 'utf-8')] wrote: a surrogate that stands
    alone is encoded as the replacement character U+FFFD. *)
Fixpoint utf8 (s : jsstring) : jsstring :=
  match s with
  | [] => []
  | c :: s' =>
      if Stringify.is_high c then
        match s' with
        | d :: s'' =>
            if Stringify.is_low d then c :: d :: utf8 s''
            else 65533%N :: utf8 s'
        | [] => [65533%N]
        end
      else if Stringify.is_low c then 65533%N :: utf8 s'
      else c :: utf8 s'
  end.

(** [app.post('/api/settings/api-key', ...)]: the answer, the contents of
    [.env] afterwards, as they are read from the file, and the key the
    running program uses from then on. [file] is the contents of [.env] as
    read, if the file is there. *)
Definition set_api_key (body : value) (file : option jsstring)
  (current : option jsstring)
  : response () * option jsstring * option jsstring :=
  let refuse r := (r, file, current) in
  match
    (key ← Js.get body (js "key");
     if negb (Js.truthy key) then
       Return (Failure 400 (js "No API key provided") None)
     else
       match key with
       | VStr key =>
           if bool_decide (Str.trim key = []) then
             Return (Failure 400 (js "No API key provided") None)
           else mret (Str.trim key)
       | _ => Throw
       end) : res (response ()) jsstring
  with
  | Ok key =>
      (Success 200 (),
       Some (utf8 (updated (default [] file) key)), Some key)
  | Return r => refuse r
  | Throw => refuse (Failure 500 (js "Failed to update API key") None)
  end.

End DotEnv.

(* ------------------------------------------------------------------------ *)
(** ** Document templates and downloads *)
(* ------------------------------------------------------------------------ *)

Module Templates.

(** An entry of [document-templates.json], with all its properties. *)
Record entry := {
  entry_id : jsstring;
  entry_type : jsstring;
  originalName : jsstring;
  filename : jsstring;
  placeholders : list jsstring;
  uploadedAt : jsstring;
}.

(** What [generateDocx] reads of the entries. *)
Definition registered (templates : list entry) : list template :=
  map (fun t => {| template_type := entry_type t;
                   template_filename := filename t |}) templates.

(** The uploaded file: its name, the extension [path.extname] finds in the
    name, and the text [doc.getFullText()] of the document, [None] when
    unzipping or compiling it throws. *)
Record upload := {
  originalname : jsstring;
  extname : jsstring;
  fullText : option jsstring;
}.

(** The expression for a placeholder at the start of [s]: an opening brace,
    one or more characters other than a closing brace, a closing brace. *)
Definition match_placeholder (s : jsstring) : option jsstring :=
  match s with
  | 123%N :: r =>
      match Str.span (fun c => negb (c =? 125)%N) r with
      | (c :: inner, 125%N :: _) => Some (123%N :: c :: inner ++ [125%N])
      | _ => None
      end
  | _ => None
  end.

Definition is_brace (c : N) : bool := ((c =? 123) || (c =? 125))%N.

(** [t.replace(/[{}]/g, '')] *)
Definition strip_braces (t : jsstring) : jsstring :=
  List.filter (fun c => negb (is_brace c)) t.

(** [[...new Set(xs)]]: each value once, where it comes first. *)
Fixpoint unique (seen xs : list jsstring) : list jsstring :=
  match xs with
  | [] => []
  | x :: xs' =>
      if bool_decide (x ∈ seen) then unique seen xs'
      else x :: unique (x :: seen) xs'
  end.

(** The scan for placeholders; a document that cannot be read has none. *)
Definition scan (u : upload) : list jsstring :=
  match fullText u with
  | Some tags =>
      unique [] (map strip_braces (Str.match_all match_placeholder 0 tags))
  | None => []
  end.

Definition is_kind (templateType : value) : option jsstring :=
  match templateType with
  | VStr t =>
      if bool_decide (t = js "resume") || bool_decide (t = js "cover-letter")
      then Some t else None
  | _ => None
  end.

(** [app.post('/api/templates/upload', ...)]; [templateType] is
    [req.body.type], and [written] tells that [fs.writeFileSync] puts the
    file into [data/templates] without throwing. *)
Definition upload_template (e : env) (written : bool) (file : option upload)
  (templateType : value) (templates : list entry)
  : response entry * list entry :=
  serve (js "Failed to upload template") templates
    (match file with
     | None => Return (Failure 400 (js "No file uploaded") None)
     | Some u =>
         match is_kind templateType with
         | None =>
             Return (Failure 400
               (jq "Template type must be 'resume' or 'cover-letter'") None)
         | Some templateType =>
             let id := uuid_record e in
             let ext :=
               if bool_decide (extname u = []) then js ".docx" else extname u in
             if negb written then Throw else
             let filtered :=
               List.filter
                 (fun t => negb (bool_decide (entry_type t = templateType)))
                 templates in
             let entry :=
               {| entry_id := id; entry_type := templateType;
                  originalName := originalname u;
                  filename := templateType ++ js "-" ++ id ++ ext;
                  placeholders := scan u;
                  uploadedAt := now e |} in
             mret (Success 201 entry, filtered ++ [entry])
         end
     end).

(** [app.delete('/api/templates/:id', ...)] *)
Definition delete_template (id : jsstring) (templates : list entry)
  : response () * list entry :=
  serve (js "Failed to delete template") templates
    (match list_find (fun t => entry_id t = id) templates with
     | None => Return (Failure 404 (js "Template not found") None)
     | Some _ =>
         mret (Success 200 (),
               List.filter (fun t => negb (bool_decide (entry_id t = id)))
                           templates)
     end).

End Templates.

Module Download.

Definition is_alphanumeric (c : N) : bool :=
  ((97 <=? c) && (c <=? 122) || (65 <=? c) && (c <=? 90)
   || (48 <=? c) && (c <=? 57))%N.

(** [s.replace(/[^a-zA-Z0-9]/g, '-')] *)
Definition dashed (s : jsstring) : jsstring :=
  map (fun c => if is_alphanumeric c then c else 45%N) s.

(** Letters, digits, hyphens and full stops only. *)
Definition plain (s : jsstring) : Prop :=
  Forall (fun c => is_alphanumeric c = true \/ c = 45%N \/ c = 46%N) s.

(** [`${docType}-${(entry.company || 'document')
       .replace(/[^a-zA-Z0-9]/g, '-')}.docx`]: only a string has
    [replace]. *)
Definition downloadName {R : Type} (docType : jsstring) (entry : obj)
  : res R jsstring :=
  match Js.or_else (Js.member (VObj entry) (js "company"))
                   (VStr (js "document")) with
  | VStr company => mret (docType ++ js "-" ++ dashed company ++ js ".docx")
  | _ => Throw
  end.

(** [(r) => r.id === id] *)
Definition find (id : jsstring) (entries : list obj) : option obj :=
  snd <$> list_find
            (fun r => Js.is_str (Js.member (VObj r) (js "id")) id) entries.

(** What the route sends: the file of the folder [generated] under the
    name [docxPath], as an attachment called [name]. *)
Record attachment := {
  docxPath : jsstring;
  name : jsstring;
}.

(** [app.get('/api/generated/:id/download', ...)]. [on_disk] is
    [fs.existsSync] on a path under [data/generated]. A [docxPath] that is
    not a string makes [path.join] throw. *)
Definition download (on_disk : jsstring -> bool) (id : jsstring) (w : world)
  : response attachment :=
  let '(entry, docType) :=
    match find id (resumes w) with
    | Some entry => (Some entry, js "resume")
    | None => (find id (coverLetters w), js "cover-letter")
    end in
  let body : res (response attachment) (response attachment) :=
    match entry with
    | None => Return (Failure 404 (js "No generated document found") None)
    | Some entry =>
        let path := Js.member (VObj entry) (js "docxPath") in
        if negb (Js.truthy path) then
          Return (Failure 404 (js "No generated document found") None)
        else
          match path with
          | VStr path =>
              if negb (on_disk path) then
                Return (Failure 404 (js "Document file not found on disk")
                                None)
              else
                name ← downloadName docType entry;
                mret (Success 200 {| docxPath := path; name := name |})
          | _ => Throw
          end
    end in
  match body with
  | Ok r | Return r => r
  | Throw => Failure 500 (js "Failed to download document") None
  end.

End Download.

(* ------------------------------------------------------------------------ *)
(** ** More sample data *)
(* ------------------------------------------------------------------------ *)

Module Cases.

(** A document of three paragraphs, the second a line of separators. *)
Definition lead : jsstring := js "<w:body>".

Definition segments : list (jsstring * jsstring) :=
  [ (js "<w:p><w:r><w:t>Skills</w:t></w:r></w:p>", []);
    (js "<w:p><w:r><w:t> | </w:t></w:r></w:p>", []);
    (jq "<w:p w:rsidR='1'><w:r><w:t>Design</w:t></w:r></w:p>",
     js "<w:sectPr/></w:body>") ].

(** Data to be written to a file. *)
Definition data : tree :=
  JArray
    [ JObject
        [ (js "id", JText (js "job-1"));
          (js "title", JText (jq "Designer 'senior'"));
          (js "salary", JInt 90000); (js "remote", JBool true);
          (js "notes", JUndefined);
          (js "tags", JArray [JText (js "ux"); JUndefined; JNull]) ] ].

(** A contact with one note. *)
Definition contact : obj :=
  Js.assign
    [ (js "id", Sample.text "contact-1"); (js "name", Sample.text "Ada");
      (js "notes",
       VArr [ VObj (Js.assign [ (js "id", Sample.text "note-1");
                                (js "text", Sample.text "Met at the fair") ]
                              ∅) ]) ] ∅.

(** A body that tries to replace the notes and the id, with a number
    beyond the range of doubles. *)
Definition contact_update : value :=
  VObj (Js.assign [ (js "id", Sample.text "other"); (js "notes", VArr []);
                    (js "name", Sample.text "Ada L.");
                    (js "rank", VNum 1 999) ] ∅).

Definition board : value :=
  VObj (Js.assign [ (js "name", Sample.text "  Design Jobs ");
                    (js "url", Sample.text "https://example.org/jobs ") ] ∅).

(** A [.env] file of two lines, the second of them a definition of the
    key. *)
Definition dotenv : jsstring :=
  js "PORT=3000" ++ [10%N] ++ js "ANTHROPIC_API_KEY=old".

Definition key_body : value :=
  VObj (Js.assign [ (js "key", Sample.text " sk-ant-123 ") ] ∅).

(** An uploaded template. *)
Definition uploaded : Templates.upload :=
  {| Templates.originalname := js "cv.docx";
     Templates.extname := js ".docx";
     Templates.fullText := Some (js "Name: {name} Skills: {skills} {name}") |}.

(** A template of each type, registered before. *)
Definition registered : list Templates.entry :=
  [ {| Templates.entry_id := js "t-1"; Templates.entry_type := js "resume";
       Templates.originalName := js "old.docx";
       Templates.filename := js "resume-t-1.docx";
       Templates.placeholders := [];
       Templates.uploadedAt := js "2026-01-01T00:00:00.000Z" |};
    {| Templates.entry_id := js "t-2";
       Templates.entry_type := js "cover-letter";
       Templates.originalName := js "letter.docx";
       Templates.filename := js "cover-letter-t-2.docx";
       Templates.placeholders := [];
       Templates.uploadedAt := js "2026-01-01T00:00:00.000Z" |} ].

(** An outside in which the template renders. *)
Definition rendering : env :=
  {| model_reply := None;
     uuid_record := js "uuid-3"; uuid_document := js "uuid-4";
     now_created := js "2026-02-02T10:00:00.000Z";
     now := js "2026-02-02T10:00:00.001Z";
     today := js "February 2, 2026";
     template_exists := fun _ => true;
     render := fun _ _ => Some (Layout.text lead segments);
     write_ok := true |}.

(** What the upload of [uploaded] as a resume template stores. *)
Definition stored_entry : Templates.entry :=
  {| Templates.entry_id := js "uuid-3"; Templates.entry_type := js "resume";
     Templates.originalName := js "cv.docx";
     Templates.filename := js "resume-uuid-3.docx";
     Templates.placeholders := [js "name"; js "skills"];
     Templates.uploadedAt := js "2026-02-02T10:00:00.001Z" |}.

Definition replaced : list Templates.entry :=
  drop 1 registered ++ [stored_entry].

Definition after_upload : world :=
  {| jobs := [Sample.job]; profile := ∅; resumes := []; coverLetters := [];
     interviews := []; templates := Templates.registered replaced;
     generated := [] |}.

(** A resume with a document, for a company with an ampersand in its
    name. *)
Definition with_document : world :=
  {| jobs := [Sample.job]; profile := ∅;
     resumes :=
       [ Js.assign [ (js "id", Sample.text "resume-1");
                     (js "jobId", Sample.text "job-1");
                     (js "company", Sample.text "Acme & Sons");
                     (js "docxPath", Sample.text "resume-uuid-2.docx") ] ∅ ];
     coverLetters := []; interviews := []; templates := []; generated := [] |}.

End Cases.

(* ======================================================================== *)
(** * Properties *)

#[local] Arguments Extractor.extract : simpl never.
#[local] Arguments Docx.repair : simpl never.
#[local] Arguments Artifacts.entry : simpl never.
#[local] Arguments Artifacts.find_job : simpl never.
#[local] Arguments Artifacts.find_existing : simpl never.
#[local] Arguments Artifacts.put : simpl never.
#[local] Arguments Artifacts.attach : simpl never.
#[local] Arguments Interview.find_session : simpl never.
#[local] Arguments Mapper.slots : simpl never.
#[local] Arguments Mapper.cover_letter_slots : simpl never.
#[local] Arguments Js.assign : simpl never.
#[local] Arguments Js.member : simpl never.
#[local] Arguments Js.truthy : simpl never.
#[local] Arguments Str.trim : simpl never.
#[local] Arguments list_find : simpl never.
#[local] Arguments js : simpl never.

(* ======================================================================== *)

(** ** Strings *)

Section StringFacts.

Implicit Types (s p w : jsstring) (c : N).

Lemma drop_while_app_all (f : N -> bool) w s :
  forallb f w = true -> Str.drop_while f (w ++ s) = Str.drop_while f s.
Proof.
  induction w as [|c w IH]; simpl; [done|].
  intros [Hc Hw]%andb_true_iff. rewrite Hc. auto.
Qed.

Lemma drop_while_all (f : N -> bool) w :
  forallb f w = true -> Str.drop_while f w = [].
Proof.
  intros H. generalize (drop_while_app_all f w [] H).
  by rewrite app_nil_r.
Qed.

Lemma drop_while_stop (f : N -> bool) c s :
  f c = false -> Str.drop_while f (c :: s) = c :: s.
Proof. intros H. simpl. by rewrite H. Qed.

Lemma trim_end_snoc_space s c :
  Str.is_space c = true -> Str.trim_end (s ++ [c]) = Str.trim_end s.
Proof.
  intros H. unfold Str.trim_end. rewrite rev_app_distr. simpl. by rewrite H.
Qed.

Lemma trim_end_snoc_stop s c :
  Str.is_space c = false -> Str.trim_end (s ++ [c]) = s ++ [c].
Proof.
  intros H. unfold Str.trim_end. rewrite rev_app_distr. simpl. rewrite H.
  simpl. by rewrite rev_involutive.
Qed.

Lemma trim_end_app_spaces s w :
  forallb Str.is_space w = true -> Str.trim_end (s ++ w) = Str.trim_end s.
Proof.
  revert s. induction w as [|c w IH] using rev_ind; intros s H.
  - by rewrite app_nil_r.
  - rewrite forallb_app in H. apply andb_true_iff in H as [Hw Hc].
    simpl in Hc. rewrite andb_true_r in Hc.
    rewrite app_assoc, trim_end_snoc_space by done. auto.
Qed.

Lemma trim_end_nil : Str.trim_end [] = [].
Proof. done. Qed.

(** Trimming disregards the white space around a text. *)
Lemma trim_pad w1 s w2 :
  forallb Str.is_space w1 = true -> forallb Str.is_space w2 = true ->
  Str.trim (w1 ++ s ++ w2) = Str.trim s.
Proof.
  intros H1 H2. unfold Str.trim, Str.trim_start.
  rewrite drop_while_app_all by done.
  destruct (forallb Str.is_space s) eqn:Hs.
  - rewrite (drop_while_all _ s) by done.
    rewrite drop_while_all; [done|].
    rewrite forallb_app. by rewrite Hs, H2.
  - assert (Hd : forall t, forallb Str.is_space t = false ->
        Str.drop_while Str.is_space (t ++ w2)
        = Str.drop_while Str.is_space t ++ w2).
    { induction t as [|c t IH]; simpl; [done|].
      destruct (Str.is_space c); simpl; auto. }
    rewrite Hd by done. by apply trim_end_app_spaces.
Qed.

End StringFacts.

(** ** [JSON.parse] and white space *)

Section JsonFacts.

Implicit Types (s : jsstring) (c : N) (st : Json.lex_state).

(** The space characters, one by one. *)
Lemma is_space_cases c :
  Str.is_space c = true ->
  In c [9; 10; 11; 12; 13; 32; 160; 5760; 8192; 8193; 8194; 8195; 8196; 8197;
        8198; 8199; 8200; 8201; 8202; 8232; 8233; 8239; 8287; 12288; 65279]%N.
Proof.
  unfold Str.is_space.
  rewrite !orb_true_iff, !andb_true_iff, !N.leb_le, !N.eqb_eq.
  simpl. lia.
Qed.

(** By cases on a space character [c], known by [H]. *)
Ltac space_cases H :=
  apply is_space_cases in H; simpl in H;
  repeat (destruct H as [<- | H]; [vm_compute; auto|]); destruct H.

(** Between tokens, a space character is JSON white space or an error. *)
Lemma lex_start_space c :
  Str.is_space c = true ->
  Json.lex_start c = Some ([], Json.LStart) \/ Json.lex_start c = None.
Proof. intros H. space_cases H. Qed.

Lemma lex_cons_space c s toks :
  Str.is_space c = true ->
  Json.lex Json.LStart (c :: s) = Some toks ->
  Json.lex Json.LStart s = Some toks.
Proof.
  intros Hc. simpl.
  destruct (lex_start_space c Hc) as [-> | ->]; simpl; [|done].
  destruct (Json.lex Json.LStart s); simpl; congruence.
Qed.

Lemma lex_step_string_space c acc :
  Str.is_space c = true ->
  Json.lex_step (Json.LString acc) c = None
  \/ Json.lex_step (Json.LString acc) c = Some ([], Json.LString (c :: acc)).
Proof. intros H. space_cases H. Qed.

Lemma escape_space c : Str.is_space c = true ->
  (c =? 117)%N = false /\ Json.escape c = None /\ Json.hex c = None
  /\ Json.is_number_char c = false /\ Json.is_lower c = false.
Proof. intros H. space_cases H. Qed.

(** A space character as the last one of a text that lexes: the text
    without it lexes to the same tokens. *)
Lemma lex_end_space st c toks :
  Str.is_space c = true ->
  Json.lex st [c] = Some toks -> Json.lex_end st = Some toks.
Proof.
  intros Hc. destruct (escape_space c Hc) as (Hu & He & Hh & Hn & Hl).
  destruct st as [|acc|acc|acc k u|acc|acc]; cbn [Json.lex Json.lex_end].
  - cbn [Json.lex_step].
    destruct (lex_start_space c Hc) as [-> | ->]; simpl; congruence.
  - destruct (lex_step_string_space c acc Hc) as [-> | ->]; simpl; done.
  - cbn [Json.lex_step]. rewrite Hu, He. done.
  - cbn [Json.lex_step]. rewrite Hh. done.
  - cbn [Json.lex_step]. rewrite Hn.
    destruct (Json.number_token (rev acc)); simpl; [|done].
    destruct (lex_start_space c Hc) as [-> | ->]; simpl; congruence.
  - cbn [Json.lex_step]. rewrite Hl.
    destruct (Json.word_token (rev acc)); simpl; [|done].
    destruct (lex_start_space c Hc) as [-> | ->]; simpl; congruence.
Qed.

Lemma lex_snoc_space s : forall st c toks,
  Str.is_space c = true ->
  Json.lex st (s ++ [c]) = Some toks -> Json.lex st s = Some toks.
Proof.
  induction s as [|a s IH]; intros st c toks Hc.
  - apply lex_end_space, Hc.
  - simpl. destruct (Json.lex_step st a) as [[ts st']|]; simpl; [|done].
    destruct (Json.lex st' (s ++ [c])) as [rest|] eqn:Hrest; simpl; [|done].
    by rewrite (IH _ _ _ Hc Hrest).
Qed.

Lemma lex_trim_start s toks :
  Json.lex Json.LStart s = Some toks ->
  Json.lex Json.LStart (Str.trim_start s) = Some toks.
Proof.
  induction s as [|c s IH]; [done|]. intros H.
  unfold Str.trim_start. simpl. destruct (Str.is_space c) eqn:Hc; [|done].
  apply IH. by eapply lex_cons_space.
Qed.

Lemma lex_trim_end st s toks :
  Json.lex st s = Some toks -> Json.lex st (Str.trim_end s) = Some toks.
Proof.
  induction s as [|c s IH] using rev_ind; [done|]. intros H.
  destruct (Str.is_space c) eqn:Hc.
  - rewrite trim_end_snoc_space by done. apply IH. by eapply lex_snoc_space.
  - by rewrite trim_end_snoc_stop.
Qed.

(** [JSON.parse(s.trim())] is [JSON.parse(s)] whenever the latter succeeds:
    the grammar allows white space around the value, and [trim] strips nothing
    else from a text that parses. *)
Lemma parse_trim s v :
  Json.parse s = Some v -> Json.parse (Str.trim s) = Some v.
Proof.
  unfold Json.parse. destruct (Json.lex Json.LStart s) as [toks|] eqn:H;
    simpl; [|done].
  intros Hv. unfold Str.trim.
  by rewrite (lex_trim_end _ _ _ (lex_trim_start _ _ H)).
Qed.

End JsonFacts.

(** ** The structured result extractor *)

Section ExtractorFacts.

Implicit Types (s p raw inner : jsstring) (c : N).

Lemma starts_with_app p s : Str.starts_with p (p ++ s) = true.
Proof. induction p as [|a p IH]; simpl; [done|]. by rewrite N.eqb_refl. Qed.

Lemma drop_length_app p s : drop (length p) (p ++ s) = s.
Proof. by rewrite drop_app_length. Qed.

Lemma lazy_until_eq stop s :
  Str.lazy_until stop s
  = if Str.starts_with stop s then Some ([], drop (length stop) s)
    else match s with
         | [] => None
         | c :: s' =>
             match Str.lazy_until stop s' with
             | Some (a, b) => Some (c :: a, b)
             | None => None
             end
         end.
Proof. by destruct s. Qed.

Lemma remove_first_eq p s :
  Str.remove_first p s
  = if Str.starts_with p s then drop (length p) s
    else match s with
         | [] => []
         | c :: s' => c :: Str.remove_first p s'
         end.
Proof. by destruct s. Qed.

Lemma lazy_until_here stop s :
  Str.lazy_until stop (stop ++ s) = Some ([], s).
Proof. by rewrite lazy_until_eq, starts_with_app, drop_length_app. Qed.

(** Past a text in which no [stop] begins, the lazy search ends at the
    [stop] that follows. *)
Lemma lazy_until_skip stop body s :
  (forall t1 t2, body = t1 ++ t2 -> t2 <> [] ->
     Str.starts_with stop (t2 ++ stop ++ s) = false) ->
  Str.lazy_until stop (body ++ stop ++ s) = Some (body, s).
Proof.
  induction body as [|c body IH]; intros H.
  - exact (lazy_until_here stop s).
  - rewrite lazy_until_eq. rewrite (H [] (c :: body) eq_refl) by done.
    cbn [app]. rewrite IH; [done|]. intros t1 t2 -> Ht. by apply (H (c :: t1)).
Qed.

Lemma spaces_capture_greedy s inner :
  Extractor.capture (Str.drop_while Str.is_space s) = Some inner ->
  Extractor.spaces_capture s = Some inner.
Proof.
  induction s as [|c s IH]; simpl; [done|].
  destruct (Str.is_space c); [|done]. intros H. by rewrite (IH H).
Qed.

Lemma fence_match_eq s :
  Extractor.fence_match s
  = match
      (if Str.starts_with Extractor.fence s
       then Extractor.tag_spaces_capture (drop 3 s) else None)
    with
    | Some inner => Some inner
    | None => match s with [] => None | _ :: s' => Extractor.fence_match s' end
    end.
Proof. by destruct s. Qed.

Lemma fence_match_tagged s inner :
  Extractor.capture (Str.drop_while Str.is_space s) = Some inner ->
  Extractor.fence_match (Extractor.fence ++ js "json" ++ s) = Some inner.
Proof.
  intros H. apply spaces_capture_greedy in H.
  rewrite fence_match_eq, starts_with_app.
  change (drop 3 (Extractor.fence ++ js "json" ++ s)) with (js "json" ++ s).
  unfold Extractor.tag_spaces_capture. rewrite starts_with_app.
  change (drop 4 (js "json" ++ s)) with s. by rewrite H.
Qed.

Lemma fence_match_none s :
  Str.occurs Extractor.fence s = false -> Extractor.fence_match s = None.
Proof.
  induction s as [|c s IH]; [done|].
  cbn [Str.occurs Extractor.fence_match].
  intros [-> Hs]%orb_false_iff. auto.
Qed.

(** A fence does not begin in a text that has none and a line feed after it. *)
Lemma fence_not_before_newline s t2 rest :
  Str.occurs Extractor.fence s = false ->
  (exists t1, s = t1 ++ t2) ->
  Str.starts_with Extractor.fence (t2 ++ 10%N :: rest) = false.
Proof.
  revert t2. induction s as [|c s IH]; intros t2 Hs [t1 Ht].
  - symmetry in Ht. apply app_eq_nil in Ht as [_ ->]. done.
  - cbn [Str.occurs] in Hs. apply orb_false_iff in Hs as [Hc Hs].
    destruct t1 as [|a t1]; simpl in Ht.
    + subst t2. destruct s as [|a [|b s]]; simpl in *.
      * by destruct (96 =? c)%N.
      * by destruct (96 =? c)%N, (96 =? a)%N.
      * done.
    + injection Ht as _ ->. apply IH; eauto.
Qed.

Lemma drop_while_app_stop (f : N -> bool) s c rest :
  f c = false ->
  Str.drop_while f (s ++ c :: rest) = Str.drop_while f s ++ c :: rest.
Proof.
  intros Hc. induction s as [|a s IH]; simpl; [by rewrite Hc|].
  by destruct (f a).
Qed.

Lemma drop_while_suffix (f : N -> bool) s :
  exists t, s = t ++ Str.drop_while f s.
Proof.
  induction s as [|a s [t IH]]; simpl; [by exists []|].
  destruct (f a); [|by exists []]. exists (a :: t). simpl. congruence.
Qed.

Lemma drop_while_idem (f : N -> bool) s :
  Str.drop_while f (Str.drop_while f s) = Str.drop_while f s.
Proof.
  induction s as [|a s IH]; simpl; [done|].
  destruct (f a) eqn:Ha; [done|]. simpl. by rewrite Ha.
Qed.

Lemma trim_trim_start s : Str.trim (Str.trim_start s) = Str.trim s.
Proof. unfold Str.trim, Str.trim_start. by rewrite drop_while_idem. Qed.

Lemma starts_with_prefix_only p s rest :
  length p <= length s ->
  Str.starts_with p (s ++ rest) = Str.starts_with p s.
Proof.
  revert s. induction p as [|a p IH]; intros s Hlen; [done|].
  destruct s as [|b s]; simpl in *; [lia|]. rewrite IH by lia. done.
Qed.

Lemma occurs_eq p s :
  Str.occurs p s
  = Str.starts_with p s
    || match s with [] => false | _ :: s' => Str.occurs p s' end.
Proof. by destruct s. Qed.

Lemma occurs_suffix p t1 t2 :
  Str.occurs p (t1 ++ t2) = false -> Str.occurs p t2 = false.
Proof.
  induction t1 as [|c t1 IH]; [done|]. cbn [app]. rewrite occurs_eq.
  intros [_ H]%orb_false_iff. auto.
Qed.

Lemma occurs_head p s : Str.occurs p s = false -> Str.starts_with p s = false.
Proof. rewrite occurs_eq. by intros [H _]%orb_false_iff. Qed.

(** In a text that is free of fences, no fence begins, whatever follows the
    fence put after it. *)
Lemma fence_free_spec s :
  Block.fence_free s = true ->
  forall t1 t2 rest, s = t1 ++ t2 -> t2 <> [] ->
    Str.starts_with Extractor.fence (t2 ++ Extractor.fence ++ rest) = false.
Proof.
  unfold Block.fence_free. intros H%negb_true_iff t1 t2 rest -> Ht2.
  rewrite <- app_assoc in H. apply occurs_suffix, occurs_head in H.
  change (t2 ++ Extractor.fence ++ rest)
    with (t2 ++ [96; 96]%N ++ 96%N :: rest).
  rewrite app_assoc, starts_with_prefix_only; [done|].
  rewrite length_app. destruct t2; [done|]. simpl. lia.
Qed.

Lemma fence_free_suffix t1 t2 :
  Block.fence_free (t1 ++ t2) = true -> Block.fence_free t2 = true.
Proof.
  unfold Block.fence_free. rewrite !negb_true_iff, <- app_assoc.
  apply occurs_suffix.
Qed.

(** The search passes over a text in which no fence begins. *)
Lemma fence_match_skip pre rest :
  (forall t1 t2, pre = t1 ++ t2 -> t2 <> [] ->
     Str.starts_with Extractor.fence (t2 ++ rest) = false) ->
  Extractor.fence_match (pre ++ rest) = Extractor.fence_match rest.
Proof.
  induction pre as [|c pre IH]; intros H; [done|].
  rewrite fence_match_eq. rewrite (H [] (c :: pre) eq_refl) by done.
  cbn [app]. apply IH. intros t1 t2 -> Ht. by apply (H (c :: t1)).
Qed.

(** The tag is looked for in the body of the block. *)
Lemma tag_in_body body rest :
  Str.starts_with (js "json") (body ++ Extractor.fence ++ rest)
  = Str.starts_with (js "json") body
  /\ (Str.starts_with (js "json") body = true ->
      drop 4 (body ++ Extractor.fence ++ rest)
      = drop 4 body ++ Extractor.fence ++ rest).
Proof.
  change (js "json") with [106; 115; 111; 110]%N.
  change Extractor.fence with [96; 96; 96]%N.
  destruct body as [|a [|b [|c [|d body]]]];
    cbn [Str.starts_with app drop];
    change (115 =? 96)%N with false; change (111 =? 96)%N with false;
    change (110 =? 96)%N with false; change (106 =? 96)%N with false;
    rewrite ?andb_false_r; done.
Qed.

(** The block found is the first pair of fences. *)
Lemma fence_match_first_block before body after :
  Block.fence_free before = true -> Block.fence_free body = true ->
  Extractor.fence_match (Block.text before body after)
  = Some (Block.content body).
Proof.
  intros Hbefore Hbody. unfold Block.text.
  rewrite fence_match_skip
    by (intros t1 t2 Ht Hne; exact (fence_free_spec _ Hbefore t1 t2 _ Ht Hne)).
  rewrite fence_match_eq, starts_with_app.
  change (drop 3 (Extractor.fence ++ body ++ Extractor.fence ++ after))
    with (body ++ Extractor.fence ++ after).
  unfold Extractor.tag_spaces_capture, Block.content.
  destruct (tag_in_body body after) as [-> Hdrop].
  assert (forall b, Block.fence_free b = true ->
    Extractor.spaces_capture (b ++ Extractor.fence ++ after)
    = Some (Str.drop_while Str.is_space b)) as Hcapture.
  { intros b Hb. apply spaces_capture_greedy.
    change (b ++ Extractor.fence ++ after)
      with (b ++ 96%N :: [96; 96]%N ++ after).
    rewrite drop_while_app_stop by done. unfold Extractor.capture.
    change (96%N :: [96; 96]%N ++ after) with (Extractor.fence ++ after).
    rewrite lazy_until_skip; [done|].
    destruct (drop_while_suffix Str.is_space b) as [t0 Ht0].
    intros t1 t2 Ht Hne. apply (fence_free_spec b Hb (t0 ++ t1) t2); [|done].
    by rewrite <- app_assoc, <- Ht. }
  destruct (Str.starts_with (js "json") body) eqn:Htag.
  - rewrite Hdrop by done. rewrite Hcapture; [done|].
    apply (fence_free_suffix (take 4 body)). by rewrite take_drop.
  - by rewrite Hcapture.
Qed.

(** What the expression captures in a fenced JSON text. *)
Lemma fence_match_fenced j :
  Str.occurs Extractor.fence j = false ->
  Extractor.fence_match (Extractor.fenced j)
  = Some (Str.trim_start (j ++ [10%N])).
Proof.
  intros Hj. unfold Extractor.fenced. apply fence_match_tagged.
  unfold Extractor.capture.
  replace (Str.drop_while Str.is_space
             ([10%N] ++ j ++ [10%N] ++ Extractor.fence))
    with (Str.trim_start (j ++ [10%N]) ++ Extractor.fence ++ []).
  - rewrite lazy_until_skip; [done|].
    intros t1 t2 Ht Hne.
    destruct (drop_while_suffix Str.is_space (j ++ [10%N])) as [t0 H0].
    fold (Str.trim_start (j ++ [10%N])) in H0. rewrite Ht in H0.
    destruct t2 as [|c t2 _] using rev_ind; [done|].
    rewrite !app_assoc in H0. apply app_inj_tail in H0 as [Hj' <-].
    rewrite <- !app_assoc. cbn [app].
    eapply fence_not_before_newline; [exact Hj|]. by exists (t0 ++ t1).
  - unfold Str.trim_start. cbn [app Str.drop_while].
    rewrite app_nil_r.
    transitivity (Str.drop_while Str.is_space
                    ((j ++ [10%N]) ++ 96%N :: [96%N; 96%N])).
    + by rewrite (drop_while_app_stop _ (j ++ [10%N]) 96%N [96%N; 96%N]).
    + by rewrite <- app_assoc.
Qed.

End ExtractorFacts.

(** C1, as amended. Extraction is two-tiered. The fenced block is the one the
    search finds: from the first fence of the text, past a [json] tag and
    white space, to the next fence (shown for the match of the expression,
    and for a text cut at its first two fences). When the content of the
    block is valid JSON, the result is the value of that content; when the
    search finds no block and
    the whole text is valid JSON, the result is the value of the text; a
    JSON text in which no fence occurs gives the same value fenced and bare;
    when the parse of the chosen text fails, the result is
    [ExtractionFailed] with the raw text as it was; and one text is handed to
    [JSON.parse] either way. *)
Theorem extraction_two_tier :
  (forall raw inner v,
     Extractor.fence_match raw = Some inner -> Json.parse inner = Some v ->
     Extractor.extract raw = Extractor.Parsed v)
  /\ (forall before body after v,
       Block.fence_free before = true -> Block.fence_free body = true ->
       Json.parse (Block.content body) = Some v ->
       Extractor.extract (Block.text before body after) = Extractor.Parsed v)
  /\ (forall raw v,
       Extractor.fence_match raw = None -> Json.parse raw = Some v ->
       Extractor.extract raw = Extractor.Parsed v)
  /\ (forall json v,
       Json.parse json = Some v -> Str.occurs Extractor.fence json = false ->
       Extractor.extract (Extractor.fenced json) = Extractor.Parsed v
       /\ Extractor.extract json = Extractor.Parsed v)
  /\ (forall raw,
       match Extractor.fence_match raw with
       | Some inner => Json.parse (Str.trim inner)
       | None => Json.parse (Str.trim raw)
       end = None ->
       Extractor.extract raw = Extractor.ExtractionFailed raw)
  /\ (forall raw, length (snd (Extractor.extract_logged raw)) = 1).
Proof.
  assert (Hfound : forall raw inner v,
    Extractor.fence_match raw = Some inner -> Json.parse inner = Some v ->
    Extractor.extract raw = Extractor.Parsed v).
  { intros raw inner v Hm Hv.
    unfold Extractor.extract, Extractor.extract_logged, Extractor.payload.
    rewrite Hm. simpl. by rewrite (parse_trim _ _ Hv). }
  assert (Hbare : forall raw v,
    Extractor.fence_match raw = None -> Json.parse raw = Some v ->
    Extractor.extract raw = Extractor.Parsed v).
  { intros raw v Hm Hv.
    unfold Extractor.extract, Extractor.extract_logged, Extractor.payload.
    rewrite Hm. simpl. by rewrite (parse_trim _ _ Hv). }
  split; [exact Hfound|]. split; [|split; [exact Hbare|split; [|split]]].
  - intros before body after v Hbefore Hbody Hv.
    apply (Hfound _ (Block.content body)); [|done].
    by apply fence_match_first_block.
  - intros json v Hv Hj. split.
    + unfold Extractor.extract, Extractor.extract_logged, Extractor.payload.
      rewrite (fence_match_fenced _ Hj). simpl.
      rewrite trim_trim_start.
      rewrite <- (app_nil_l (json ++ [10%N])), trim_pad by done.
      by rewrite (parse_trim _ _ Hv).
    + apply Hbare; [|done]. by apply fence_match_none.
  - intros raw.
    unfold Extractor.extract, Extractor.extract_logged, Extractor.payload.
    destruct (Extractor.fence_match raw); simpl; by intros ->.
  - done.
Qed.

(** C1, as stated, fails on a fenced block whose JSON has a fence inside a
    string: the content of the block is valid JSON, the search ends the
    block at the fence inside the string, and the extraction fails. *)
Lemma fence_inside_json :
  let json := jq "{'note': 'use ``` for code'}" in
  Json.parse json
  = Some (VObj {[ js "note" := VStr (js "use ``` for code") ]})
  /\ Extractor.fence_match (Extractor.fenced json) = Some (jq "{'note': 'use ")
  /\ Extractor.extract (Extractor.fenced json)
     = Extractor.ExtractionFailed (Extractor.fenced json).
Proof. repeat split; vm_compute; reflexivity. Qed.

(** ** The repair pass *)

Section RepairFacts.

Implicit Types (s texts p docXml : jsstring) (c : N).

Lemma drop_while_nil_iff (f : N -> bool) s :
  Str.drop_while f s = [] <-> forallb f s = true.
Proof.
  induction s as [|c s IH]; simpl; [done|].
  destruct (f c); simpl; [done|]. split; discriminate.
Qed.

Lemma drop_while_head (f : N -> bool) s c t :
  Str.drop_while f s = c :: t -> f c = false.
Proof.
  induction s as [|a s IH]; simpl; [done|].
  destruct (f a) eqn:Ha; [done|]. by intros [= <- _].
Qed.

(** [s.trim()] is empty exactly when [s] is white space throughout. *)
Lemma trim_nil_iff s : Str.trim s = [] <-> forallb Str.is_space s = true.
Proof.
  split.
  - unfold Str.trim, Str.trim_start, Str.trim_end. intros H.
    apply (f_equal (@rev N)) in H. rewrite rev_involutive in H. simpl in H.
    apply drop_while_nil_iff in H.
    destruct (Str.drop_while Str.is_space s) as [|c t] eqn:Ht.
    + by apply drop_while_nil_iff.
    + apply drop_while_head in Ht.
      rewrite forallb_forall in H. rewrite (H c) in Ht; [done|].
      apply in_rev. rewrite rev_involutive. by left.
  - intros H. unfold Str.trim, Str.trim_start.
    by rewrite (proj2 (drop_while_nil_iff _ _) H).
Qed.

Lemma space_is_separator c :
  Str.is_space c = true -> Docx.is_separator c = true.
Proof. unfold Docx.is_separator. by intros ->. Qed.

(** Nothing is left of [texts] once the separators are taken out exactly
    when [texts] is made of separators. *)
Lemma stripped_nil_iff texts :
  Docx.stripped texts = [] <-> forallb Docx.is_separator texts = true.
Proof.
  unfold Docx.stripped. rewrite trim_nil_iff.
  induction texts as [|c texts IH]; simpl; [done|].
  destruct (Docx.is_separator c) eqn:Hc; simpl; [done|].
  destruct (Str.is_space c) eqn:Hs; simpl; [|done].
  apply space_is_separator in Hs. congruence.
Qed.

(** The test of the loop: some visible character is not white space, and
    every visible character is a separator. *)
Lemma only_separators_iff texts :
  Docx.only_separators texts = true
  <-> existsb (fun c => negb (Str.is_space c)) texts = true
      /\ forallb Docx.is_separator texts = true.
Proof.
  unfold Docx.only_separators.
  rewrite andb_true_iff, negb_true_iff, !bool_decide_eq_true,
    bool_decide_eq_false, stripped_nil_iff, trim_nil_iff.
  assert (forallb Str.is_space texts <> true
          <-> existsb (fun c => negb (Str.is_space c)) texts = true) as ->;
    [|done].
  induction texts as [|c texts IH]; simpl; [done|].
  destruct (Str.is_space c); simpl; [done|]. split; [done|discriminate].
Qed.

(** The loop of the repair pass calls [replace] for the paragraphs that pass
    the test, in the order of the document. *)
Lemma repair_removed docXml :
  Docx.repair docXml
  = foldl (fun d p => Str.remove_first p d) docXml (Docx.removed docXml).
Proof.
  unfold Docx.repair, Docx.removed.
  generalize (Docx.paragraphs docXml). intros ps. revert docXml.
  induction ps as [|p ps IH]; intros d; simpl; [done|].
  unfold Docx.repair_step at 2.
  destruct (Docx.only_separators (Docx.visible_text p)); simpl; apply IH.
Qed.

(** [replace] takes out the text where it first occurs. *)
Lemma remove_first_occurrence pre p post :
  (forall t1 t2, pre = t1 ++ t2 -> t2 <> [] ->
     Str.starts_with p (t2 ++ p ++ post) = false) ->
  Str.remove_first p (pre ++ p ++ post) = pre ++ post.
Proof.
  induction pre as [|c pre IH]; intros H.
  - cbn [app]. by rewrite remove_first_eq, starts_with_app, drop_length_app.
  - rewrite remove_first_eq. rewrite (H [] (c :: pre) eq_refl) by done.
    cbn [app]. f_equal. apply IH. intros t1 t2 -> Ht. by apply (H (c :: t1)).
Qed.

End RepairFacts.

(** ** Documents as paragraphs and the text between them *)

Section LayoutFacts.

Implicit Types (s p q x t rest : jsstring) (c : N)
  (segs : list (jsstring * jsstring)).

Lemma starts_with_split p s :
  Str.starts_with p s = true -> exists y, s = p ++ y.
Proof.
  revert s. induction p as [|a p IH]; intros s; [by exists s|].
  destruct s as [|b s]; simpl; [done|].
  intros [Hab Hs]%andb_true_iff. apply N.eqb_eq in Hab as ->.
  destruct (IH s Hs) as [y ->]. by exists y.
Qed.

Lemma opens_prefix_only s rest :
  5 <= length s -> Layout.opens (s ++ rest) = Layout.opens s.
Proof.
  intros H. unfold Layout.opens. by rewrite !starts_with_prefix_only.
Qed.

(** A text that begins a paragraph when something follows it may open. *)
Lemma may_open_complete t rest :
  t <> [] -> Layout.opens (t ++ rest) = true -> Layout.may_open t = true.
Proof.
  intros Ht H. unfold Layout.may_open.
  destruct (decide (5 <= length t)) as [Hlen|Hlen].
  - rewrite opens_prefix_only in H by done. cbn [existsb].
    by rewrite app_nil_r, H.
  - revert H. unfold Layout.opens.
    change (js "<w:p ") with [60; 119; 58; 112; 32]%N.
    change (js "<w:p>") with [60; 119; 58; 112; 62]%N.
    destruct t as [|a [|b [|c' [|d [|e t]]]]]; [done|..|simpl in Hlen; lia];
      destruct rest as [|r1 [|r2 [|r3 [|r4 rest]]]];
      cbn [app Str.starts_with existsb];
      rewrite ?andb_false_r, ?andb_true_r, ?orb_false_r; try done.
    all: repeat (match goal with |- context [(?u =? ?v)%N] =>
                   destruct (u =? v)%N; cbn [andb orb]; try done end).
Qed.

Lemma quiet_opens x rest :
  Layout.quiet x = true -> x <> [] -> Layout.opens (x ++ rest) = false.
Proof.
  destruct x as [|c x]; [done|]. cbn [Layout.quiet].
  intros [Hx _]%andb_true_iff _. apply negb_true_iff in Hx.
  destruct (Layout.opens ((c :: x) ++ rest)) eqn:H; [|done].
  by rewrite (may_open_complete (c :: x) rest) in Hx.
Qed.

Lemma quiet_tail c x : Layout.quiet (c :: x) = true -> Layout.quiet x = true.
Proof. cbn [Layout.quiet]. by intros [_ ?]%andb_true_iff. Qed.

Lemma match_paragraph_opens s :
  Layout.opens s = false -> Docx.match_paragraph s = None.
Proof.
  unfold Layout.opens, Docx.match_paragraph.
  change (js "<w:p ") with [60; 119; 58; 112; 32]%N.
  change (js "<w:p>") with [60; 119; 58; 112; 62]%N.
  change (js "<w:p") with [60; 119; 58; 112]%N.
  destruct s as [|a [|b [|c' [|d [|e s]]]]];
    cbn [Str.starts_with drop]; rewrite ?andb_false_r; try done.
  all: rewrite ?andb_true_r;
    destruct (60 =? a)%N, (119 =? b)%N, (58 =? c')%N, (112 =? d)%N;
    cbn [andb orb]; try done.
  rewrite (N.eqb_sym 32 e), (N.eqb_sym 62 e). by intros ->.
Qed.

Lemma lazy_until_length stop s a b :
  Str.lazy_until stop s = Some (a, b) -> length stop <= length s.
Proof.
  revert a. induction s as [|c s IH]; intros a; rewrite lazy_until_eq.
  - destruct stop; simpl; [lia|done].
  - destruct (Str.starts_with stop (c :: s)) eqn:E.
    + intros _. destruct (starts_with_split _ _ E) as [y ->].
      rewrite length_app. lia.
    + destruct (Str.lazy_until stop s) as [[a' b']|] eqn:E'; [|done].
      intros [= <- <-]. specialize (IH _ eq_refl). simpl. lia.
Qed.

(** What follows the text does not move the end of the lazy search. *)
Lemma lazy_until_app stop s a b rest :
  Str.lazy_until stop s = Some (a, b) ->
  Str.lazy_until stop (s ++ rest) = Some (a, b ++ rest).
Proof.
  revert a. induction s as [|c s IH]; intros a.
  - rewrite lazy_until_eq. destruct stop; simpl; [|done].
    intros [= <- <-]. by destruct rest.
  - rewrite lazy_until_eq. intros H.
    rewrite lazy_until_eq.
    rewrite starts_with_prefix_only.
    2:{ destruct (Str.starts_with stop (c :: s)) eqn:E.
        - destruct (starts_with_split _ _ E) as [y ->]. rewrite length_app. lia.
        - destruct (Str.lazy_until stop s) as [[a' b']|] eqn:E'; [|done].
          apply lazy_until_length in E'. simpl. lia. }
    destruct (Str.starts_with stop (c :: s)) eqn:E.
    + injection H as <- <-. f_equal. f_equal.
      destruct (starts_with_split _ _ E) as [y Hy]. rewrite Hy.
      by rewrite <- app_assoc, !drop_length_app.
    + cbn [app]. destruct (Str.lazy_until stop s) as [[a' b']|] eqn:E'; [|done].
      injection H as <- <-. by rewrite (IH a' eq_refl).
Qed.
(** A paragraph is found as a whole at the start of any text it begins. *)
Lemma paragraph_match p rest :
  Layout.paragraph p = true -> Docx.match_paragraph (p ++ rest) = Some p.
Proof.
  unfold Layout.paragraph. intros [H _]%andb_true_iff.
  destruct (Docx.match_paragraph p) as [q|] eqn:E; [|done].
  apply bool_decide_eq_true in H as ->. revert E.
  unfold Docx.match_paragraph.
  destruct (Str.starts_with (js "<w:p") p) eqn:E4; [|done].
  destruct (starts_with_split _ _ E4) as [y ->].
  rewrite <- app_assoc, starts_with_app.
  change (drop 4 (js "<w:p" ++ y)) with y.
  change (drop 4 (js "<w:p" ++ y ++ rest)) with (y ++ rest).
  destruct y as [|c y]; [done|]. cbn [app].
  destruct ((c =? 32)%N || (c =? 62)%N); [|done].
  destruct (Str.lazy_until (js "</w:p>") y) as [[body b]|] eqn:El; [|done].
  rewrite (lazy_until_app _ _ _ _ rest El). done.
Qed.

Lemma paragraph_opens p rest :
  Layout.paragraph p = true -> Layout.opens (p ++ rest) = true.
Proof.
  intros H. destruct (Layout.opens (p ++ rest)) eqn:E; [done|].
  apply match_paragraph_opens in E. by rewrite paragraph_match in E.
Qed.

Lemma paragraph_cons p :
  Layout.paragraph p = true ->
  exists c p', p = c :: p' /\ Layout.quiet p' = true.
Proof.
  intros H. pose proof (paragraph_opens p [] H) as Ho.
  destruct p as [|c p']; [done|]. exists c, p'. split; [done|].
  unfold Layout.paragraph in H. by apply andb_true_iff in H as [_ H].
Qed.

(** A paragraph begins no other paragraph. *)
Lemma paragraph_prefix_free p q rest :
  Layout.paragraph p = true -> Layout.paragraph q = true ->
  Str.starts_with p (q ++ rest) = true -> p = q.
Proof.
  intros Hp Hq H. destruct (starts_with_split _ _ H) as [y Hy].
  pose proof (paragraph_match q rest Hq) as Hm.
  rewrite Hy, (paragraph_match p y Hp) in Hm. congruence.
Qed.

Lemma starts_with_opens p s :
  Layout.paragraph p = true -> Str.starts_with p s = true ->
  Layout.opens s = true.
Proof.
  intros Hp H. destruct (starts_with_split _ _ H) as [y ->].
  by apply paragraph_opens.
Qed.

(** ** The paragraphs of a document *)

Lemma match_all_skip (m : jsstring -> option jsstring) x rest :
  Str.match_all m (length x) (x ++ rest) = Str.match_all m 0 rest.
Proof.
  induction x as [|c x IH]; [done|]. exact IH.
Qed.

Lemma match_all_quiet x rest :
  Layout.quiet x = true ->
  Str.match_all Docx.match_paragraph 0 (x ++ rest)
  = Str.match_all Docx.match_paragraph 0 rest.
Proof.
  induction x as [|c x IH]; intros H; [done|].
  cbn [app Str.match_all].
  rewrite (match_paragraph_opens (c :: x ++ rest)).
  - apply IH. by apply quiet_tail in H.
  - by apply (quiet_opens (c :: x) rest).
Qed.

Lemma match_all_paragraph p rest :
  Layout.paragraph p = true ->
  Str.match_all Docx.match_paragraph 0 (p ++ rest)
  = p :: Str.match_all Docx.match_paragraph 0 rest.
Proof.
  intros H. pose proof (paragraph_match p rest H) as Hm.
  destruct (paragraph_cons p H) as (c & p' & -> & _).
  cbn [app Str.match_all]. cbn [app] in Hm. rewrite Hm. f_equal.
  cbn [length]. rewrite Nat.sub_1_r. cbn [Nat.pred]. apply match_all_skip.
Qed.

Lemma segments_cons (pg : jsstring * jsstring) segs :
  forallb (fun pg : jsstring * jsstring =>
             Layout.paragraph pg.1 && Layout.quiet pg.2) (pg :: segs) = true ->
  Layout.paragraph pg.1 = true /\ Layout.quiet pg.2 = true
  /\ forallb (fun pg : jsstring * jsstring =>
               Layout.paragraph pg.1 && Layout.quiet pg.2) segs = true.
Proof. cbn [forallb]. by intros [[??]%andb_true_iff ?]%andb_true_iff. Qed.

Lemma paragraphs_flat segs :
  forallb (fun pg : jsstring * jsstring =>
             Layout.paragraph pg.1 && Layout.quiet pg.2) segs = true ->
  Str.match_all Docx.match_paragraph 0 (Layout.flat segs) = map fst segs.
Proof.
  induction segs as [|[p g] segs IH]; intros H; [done|].
  apply segments_cons in H as (Hp & Hg & H). cbn [fst snd] in Hp, Hg.
  cbn [Layout.flat map fst].
  rewrite match_all_paragraph, match_all_quiet by done. by rewrite IH.
Qed.

Lemma paragraphs_layout lead segs :
  Layout.well_formed lead segs = true ->
  Docx.paragraphs (Layout.text lead segs) = map fst segs.
Proof.
  unfold Layout.well_formed, Layout.text, Docx.paragraphs.
  intros [Hl H]%andb_true_iff. rewrite match_all_quiet by done.
  by apply paragraphs_flat.
Qed.

(** ** Taking paragraphs out *)

Lemma absent_app p x y rest :
  Layout.absent p x (y ++ rest) -> Layout.absent p y rest ->
  Layout.absent p (x ++ y) rest.
Proof.
  induction x as [|c x IH]; [done|]. cbn [app Layout.absent].
  rewrite <- app_assoc. intros [H1 H2] Hy. split; [done|]. by apply IH.
Qed.

Lemma remove_first_absent p pre post :
  Layout.absent p pre (p ++ post) ->
  Str.remove_first p (pre ++ p ++ post) = pre ++ post.
Proof.
  induction pre as [|c pre IH]; intros H.
  - cbn [app]. by rewrite remove_first_eq, starts_with_app, drop_length_app.
  - destruct H as [H1 H2]. rewrite remove_first_eq, H1. cbn [app].
    f_equal. by apply IH.
Qed.

Lemma absent_quiet p x rest :
  Layout.paragraph p = true -> Layout.quiet x = true -> Layout.absent p x rest.
Proof.
  intros Hp. induction x as [|c x IH]; intros Hx; [done|]. split.
  - destruct (Str.starts_with p ((c :: x) ++ rest)) eqn:E; [|done].
    apply (starts_with_opens _ _ Hp) in E.
    by rewrite (quiet_opens (c :: x) rest) in E.
  - apply IH. by apply quiet_tail in Hx.
Qed.

Lemma absent_paragraph p q rest :
  Layout.paragraph p = true -> Layout.paragraph q = true -> p <> q ->
  Layout.absent p q rest.
Proof.
  intros Hp Hq Hne. destruct (paragraph_cons q Hq) as (c & q' & Heq & Hq').
  rewrite Heq. split.
  - rewrite <- Heq.
    destruct (Str.starts_with p (q ++ rest)) eqn:E; [|done].
    by apply paragraph_prefix_free in E.
  - by apply absent_quiet.
Qed.

Lemma flat_app segs1 segs2 :
  Layout.flat (segs1 ++ segs2) = Layout.flat segs1 ++ Layout.flat segs2.
Proof.
  induction segs1 as [|[p g] segs1 IH]; [done|].
  cbn [app Layout.flat]. by rewrite IH, <- !app_assoc.
Qed.

(** A paragraph to take out begins nowhere in what the pass has kept. *)
Lemma absent_kept p segs rest :
  Layout.paragraph p = true ->
  Docx.only_separators (Docx.visible_text p) = true ->
  forallb (fun pg : jsstring * jsstring =>
             Layout.paragraph pg.1 && Layout.quiet pg.2) segs = true ->
  Layout.absent p (Layout.flat (Layout.kept segs)) rest.
Proof.
  intros Hp Hsep. revert rest.
  induction segs as [|[q g] segs IH]; intros rest H; [done|].
  apply segments_cons in H as (Hq & Hg & H). cbn [fst snd] in Hq, Hg.
  cbn [Layout.kept map Layout.flat fst snd].
  apply absent_app; [|apply absent_app].
  - destruct (Docx.only_separators (Docx.visible_text q)) eqn:E; [done|].
    apply absent_paragraph; [done..|]. intros ->. congruence.
  - by apply absent_quiet.
  - by apply IH.
Qed.

Lemma kept_app segs1 segs2 :
  Layout.kept (segs1 ++ segs2) = Layout.kept segs1 ++ Layout.kept segs2.
Proof. apply map_app. Qed.

Lemma repair_flat lead seen todo :
  Layout.well_formed lead (seen ++ todo) = true ->
  foldl Docx.repair_step
    (lead ++ Layout.flat (Layout.kept seen) ++ Layout.flat todo)
    (map fst todo)
  = lead ++ Layout.flat (Layout.kept seen) ++ Layout.flat (Layout.kept todo).
Proof.
  revert seen. induction todo as [|[p g] todo IH]; intros seen H; [done|].
  specialize (IH (seen ++ [(p, g)])).
  rewrite <- app_assoc in IH. specialize (IH H).
  rewrite kept_app, !flat_app in IH.
  cbn [Layout.kept map Layout.flat fst snd] in IH.
  rewrite !app_nil_r, <- !app_assoc in IH.
  cbn [map fst foldl Layout.kept Layout.flat snd].
  unfold Layout.well_formed in H. apply andb_true_iff in H as [Hl H].
  rewrite forallb_app in H. apply andb_true_iff in H as [Hd H].
  apply segments_cons in H as (Hp & Hg & Ht). cbn [fst snd] in Hp, Hg.
  unfold Docx.repair_step at 2.
  destruct (Docx.only_separators (Docx.visible_text p)) eqn:E.
  - rewrite (app_assoc lead), (remove_first_absent p).
    + rewrite <- app_assoc. exact IH.
    + apply absent_app; [by apply absent_quiet|by apply absent_kept].
  - exact IH.
Qed.

(** The pass takes out of a document exactly the paragraphs whose visible
    text is made of separators, and leaves everything else where it is. *)
Lemma repair_layout lead segs :
  Layout.well_formed lead segs = true ->
  Docx.repair (Layout.text lead segs) = Layout.text lead (Layout.kept segs).
Proof.
  intros H. unfold Docx.repair. rewrite paragraphs_layout by done.
  exact (repair_flat lead [] segs H).
Qed.

Lemma quiet_app x y :
  Layout.quiet x = true -> Layout.quiet y = true -> Layout.quiet (x ++ y) = true.
Proof.
  intros Hx Hy. induction x as [|c x IH]; [done|].
  cbn [app Layout.quiet]. apply andb_true_iff. split.
  - apply negb_true_iff.
    destruct (Layout.may_open (c :: x ++ y)) eqn:E; [|done].
    unfold Layout.may_open in E. apply existsb_exists in E as (r & _ & Hr).
    change (c :: x ++ y) with ((c :: x) ++ y) in Hr. rewrite <- app_assoc in Hr.
    by rewrite (quiet_opens (c :: x) (y ++ r)) in Hr.
  - apply IH. by apply quiet_tail in Hx.
Qed.

Lemma kept_all segs :
  forallb (fun pg : jsstring * jsstring =>
             negb (Docx.only_separators (Docx.visible_text pg.1))) segs = true ->
  Layout.kept segs = segs.
Proof.
  induction segs as [|[p g] segs IH]; [done|]. cbn [forallb fst].
  intros [Hp Hs]%andb_true_iff. apply negb_true_iff in Hp.
  cbn [Layout.kept map fst snd]. rewrite Hp. f_equal. by apply IH.
Qed.

(** What the pass leaves is a document again, with the paragraphs that
    stayed. *)
Lemma kept_layout lead segs :
  Layout.well_formed lead segs = true ->
  exists lead' segs',
    Layout.text lead (Layout.kept segs) = Layout.text lead' segs'
    /\ Layout.well_formed lead' segs' = true
    /\ forallb (fun pg : jsstring * jsstring =>
                  negb (Docx.only_separators (Docx.visible_text pg.1))) segs'
       = true.
Proof.
  revert lead. induction segs as [|[p g] segs IH]; intros lead H.
  - by exists lead, [].
  - unfold Layout.well_formed in H. apply andb_true_iff in H as [Hl H].
    apply segments_cons in H as (Hp & Hg & Hs). cbn [fst snd] in Hp, Hg.
    cbn [Layout.kept map fst snd].
    destruct (Docx.only_separators (Docx.visible_text p)) eqn:E.
    + destruct (IH (lead ++ g)) as (lead' & segs' & Ht & Hw & Hk).
      { unfold Layout.well_formed. by rewrite quiet_app, Hs. }
      exists lead', segs'. split; [|done]. rewrite <- Ht.
      unfold Layout.text. cbn [Layout.flat app]. by rewrite <- app_assoc.
    + destruct (IH g) as (lead' & segs' & Ht & Hw & Hk).
      { unfold Layout.well_formed. by rewrite Hg, Hs. }
      unfold Layout.well_formed in Hw. apply andb_true_iff in Hw as [Hl' Hs'].
      exists lead, ((p, lead') :: segs'). split; [|split].
      * unfold Layout.text in *. cbn [Layout.flat].
        fold (Layout.kept segs). by rewrite Ht.
      * unfold Layout.well_formed. cbn [forallb fst snd].
        by rewrite Hl, Hp, Hl', Hs'.
      * cbn [forallb fst]. by rewrite E, Hk.
Qed.

End LayoutFacts.

Section ParagraphFate.

Implicit Types (p texts : jsstring) (c : N).

Lemma paragraph_nonempty p : Layout.paragraph p = true -> p <> [].
Proof. by intros H ->. Qed.

Lemma blank_not_only_separators texts :
  forallb Str.is_space texts = true -> Docx.only_separators texts = false.
Proof.
  intros H. apply not_true_iff_false. intros [Hex _]%only_separators_iff.
  apply existsb_exists in Hex as (c & Hc & Hn).
  rewrite forallb_forall in H. rewrite (H c Hc) in Hn. done.
Qed.

Lemma visible_not_only_separators texts c :
  In c texts -> Docx.is_separator c = false ->
  Docx.only_separators texts = false.
Proof.
  intros Hc Hs. apply not_true_iff_false.
  intros [_ Hall]%only_separators_iff.
  rewrite forallb_forall in Hall. rewrite (Hall c Hc) in Hs. done.
Qed.

End ParagraphFate.

(** C3, as amended. The document is a lead text followed by paragraphs, each
    followed by other text, and a paragraph begins only where this layout
    has one: no paragraph holds another, and none is closed in its own
    opening tag. Then the paragraphs the repair pass looks at are the
    paragraphs of the document, and its result is the document with some
    paragraphs taken out and everything else in place; a paragraph is taken
    out exactly when its visible text has a character that is not white
    space and consists of separator characters only. So a paragraph with a
    visible character that is not a separator stays, and so does a
    paragraph whose visible text is white space only. *)
Theorem repair_takes_out_separator_paragraphs (lead : jsstring)
  (segments : list (jsstring * jsstring)) :
  Layout.well_formed lead segments = true ->
  Docx.paragraphs (Layout.text lead segments) = map fst segments
  /\ exists result : list (jsstring * jsstring),
       Docx.repair (Layout.text lead segments) = Layout.text lead result
       /\ Forall2
            (fun pg pg' : jsstring * jsstring =>
               let texts := Docx.visible_text pg.1 in
               pg'.2 = pg.2
               /\ (pg'.1 = [] \/ pg'.1 = pg.1)
               /\ (pg'.1 = []
                   <-> existsb (fun c => negb (Str.is_space c)) texts = true
                       /\ forallb Docx.is_separator texts = true)
               /\ (forall c, In c texts -> Docx.is_separator c = false ->
                   pg'.1 = pg.1)
               /\ (forallb Str.is_space texts = true -> pg'.1 = pg.1))
            segments result.
Proof.
  intros H. split; [by apply paragraphs_layout|].
  exists (Layout.kept segments). split; [by apply repair_layout|].
  unfold Layout.well_formed in H. apply andb_true_iff in H as [_ H].
  rewrite forallb_forall in H. unfold Layout.kept.
  apply Forall2_fmap_r, Forall_Forall2_diag, Forall_forall.
  intros [p gap] Hin%list_elem_of_In. specialize (H _ Hin).
  apply andb_true_iff in H as [Hp _]. unfold compose.
  cbv beta zeta. cbn [fst snd] in *. split; [done|].
  destruct (Docx.only_separators (Docx.visible_text p)) eqn:Hb.
  - split; [by left|]. split; [by rewrite <- only_separators_iff|].
    split.
    + intros c Hc Hs.
      by rewrite (visible_not_only_separators _ c Hc Hs) in Hb.
    + intros Hs. by rewrite (blank_not_only_separators _ Hs) in Hb.
  - split; [by right|]. split; [|by split].
    split; [by intros ?%(paragraph_nonempty p)|].
    intros Hs%only_separators_iff. congruence.
Qed.


(** C3, as stated, fails on a document with three more paragraphs than the
    pass takes them for. The first has the visible text of one space, which
    is not empty and is made of separator characters, and it stays. The
    second holds a text box and has the visible text Skills after it; the
    paragraph of the text box is a bar between spaces, and the pass takes
    out the text from the opening of the outer paragraph to the end of the
    inner one, so that the outer paragraph, with characters that are no
    separators, is not in the result any more. The third is closed in its
    opening tag and has no visible text; the pass takes it out together
    with the bar that follows it. *)
Lemma repair_keeps_blank_paragraph :
  let blank := jq "<w:p><w:r><w:t xml:space='preserve'> </w:t></w:r></w:p>" in
  let bar := js "<w:p><w:r><w:t> | </w:t></w:r></w:p>" in
  let opening := js "<w:p><w:r><w:pict><w:txbxContent>" in
  let rest :=
    js "</w:txbxContent></w:pict></w:r><w:r><w:t>Skills</w:t></w:r></w:p>" in
  let outer := opening ++ bar ++ rest in
  let empty := jq "<w:p w:rsidR='00A77B3E'/>" in
  let docXml :=
    js "<w:body>" ++ blank ++ outer ++ empty ++ bar ++ js "</w:body>" in
  Docx.visible_text blank = js " "
  /\ forallb Docx.is_separator (Docx.visible_text blank) = true
  /\ Docx.visible_text outer = js " | Skills"
  /\ existsb (fun c => negb (Docx.is_separator c)) (Docx.visible_text outer)
     = true
  /\ Docx.visible_text empty = []
  /\ Docx.repair docXml = js "<w:body>" ++ blank ++ rest ++ js "</w:body>".
Proof. vm_compute. repeat split; reflexivity. Qed.

(** ** The handlers *)

(** Running a handler: its steps are unfolded and its tests decided by cases. *)
Ltac unfold_handler :=
  unfold handle, mbind, M_bind, mret, M_ret, load, save, respond_with,
    Interview.check_answer, Docx.generateDocx, call_model,
    Extractor.extract_or_fail, Mapper.templateData, Mapper.coverLetterData,
    Js.get, lift in *.

Ltac run_handler :=
  unfold_handler; simpl in *;
  repeat (case_match; simplify_eq; unfold_handler; simpl in * ).

(** C9. A request that is answered with an error leaves the stored data as
    they were: every error of the five handlers (no job or session of that
    id, a missing [jobId] or a blank answer, a model call that throws, a
    reply that does not parse, any other exception) comes before the one
    [saveData] of the handler, and before the document is written. *)
Theorem failure_writes_nothing (e : env) (jobId id : jsstring)
  (answer : value) (w : world) :
  (forall r st, Artifacts.tailor e jobId w = (r, st) ->
     is_success r = false -> stored st = w)
  /\ (forall r st, Artifacts.generate_cover_letter e jobId w = (r, st) ->
     is_success r = false -> stored st = w)
  /\ (forall r st, Interview.start e jobId w = (r, st) ->
     is_success r = false -> stored st = w)
  /\ (forall r st, Interview.respond e jobId id answer w = (r, st) ->
     is_success r = false -> stored st = w)
  /\ (forall r st, Interview.end_ e jobId id w = (r, st) ->
     is_success r = false -> stored st = w).
Proof.
  repeat split; intros r st H Hr.
  - unfold Artifacts.tailor in H. run_handler; done.
  - unfold Artifacts.generate_cover_letter in H. run_handler; done.
  - unfold Interview.start in H. run_handler; done.
  - unfold Interview.respond in H. run_handler; done.
  - unfold Interview.end_ in H. run_handler; done.
Qed.

(** ** The artifact store *)

Section ArtifactFacts.

Context (e : env) (jobId : jsstring) (job : obj) (parsed : value)
  (existing : option (nat * obj)).

Lemma key_ne (a b : string) : bool_decide (js a = js b) = false -> js a <> js b.
Proof. by intros H%bool_decide_eq_false. Qed.

Lemma member_obj (o : obj) (k : jsstring) :
  Js.member (VObj o) k = default VUndef (o !! k).
Proof. done. Qed.




Lemma entry_id :
  Js.own_properties parsed !! js "id" = None ->
  Artifacts.entry e jobId job parsed existing !! js "id"
  = Some (match existing with
          | Some (_, r) => Js.member (VObj r) (js "id")
          | None => VStr (uuid_record e)
          end).
Proof.
  intros H. unfold Artifacts.entry, Js.assign, Js.spread. simpl.
  rewrite !lookup_insert_ne by (by apply key_ne).
  rewrite lookup_union_r by done.
  rewrite !lookup_insert_ne by (by apply key_ne). apply lookup_insert_eq.
Qed.

Lemma entry_docxPath :
  Artifacts.entry e jobId job parsed existing !! js "docxPath"
  = Js.own_properties parsed !! js "docxPath".
Proof.
  unfold Artifacts.entry, Js.assign, Js.spread. simpl.
  rewrite !lookup_insert_ne by (by apply key_ne).
  destruct (Js.own_properties parsed !! js "docxPath") as [v|] eqn:H.
  - by apply lookup_union_Some_l.
  - rewrite lookup_union_r by done.
    rewrite !lookup_insert_ne by (by apply key_ne). done.
Qed.

Lemma attach_other (docx : option jsstring) (en : obj) (k : string) :
  bool_decide (js "docxPath" = js k) = false ->
  Artifacts.attach docx en !! js k = en !! js k.
Proof.
  intros H%bool_decide_eq_false. unfold Artifacts.attach.
  destruct docx as [f|]; [|done]. case_bool_decide; [done|].
  by rewrite lookup_insert_ne.
Qed.

End ArtifactFacts.

(** A successful generation, step by step. *)
Lemma tailor_success e jobId w status a st :
  Artifacts.tailor e jobId w = (Success status a, st) ->
  exists job result parsed docx,
    Artifacts.find_job jobId (jobs w) = Some job
    /\ model_reply e = Some result
    /\ Extractor.extract result = Extractor.Parsed parsed
    /\ a = Artifacts.attach docx
             (Artifacts.entry e jobId job parsed
                (Artifacts.find_existing jobId (resumes w)))
    /\ resumes (stored st)
       = Artifacts.put (Artifacts.find_existing jobId (resumes w)) a (resumes w)
    /\ coverLetters (stored st) = coverLetters w
    /\ interviews (stored st) = interviews w
    /\ status = 200 /\ model_calls st = 1.
Proof.
  unfold Artifacts.tailor. intros H. run_handler;
    eexists _, _, _, _; repeat split; eauto;
    try (by instantiate (1 := None)).
Qed.

Lemma generate_cover_letter_success e jobId w status a st :
  Artifacts.generate_cover_letter e jobId w = (Success status a, st) ->
  exists job result parsed docx,
    Artifacts.find_job jobId (jobs w) = Some job
    /\ model_reply e = Some result
    /\ Extractor.extract result = Extractor.Parsed parsed
    /\ a = Artifacts.attach docx
             (Artifacts.entry e jobId job parsed
                (Artifacts.find_existing jobId (coverLetters w)))
    /\ coverLetters (stored st)
       = Artifacts.put (Artifacts.find_existing jobId (coverLetters w)) a
           (coverLetters w)
    /\ resumes (stored st) = resumes w
    /\ interviews (stored st) = interviews w
    /\ status = 200 /\ model_calls st = 1.
Proof.
  unfold Artifacts.generate_cover_letter. intros H. run_handler;
    eexists _, _, _, _; repeat split; eauto;
    try (by instantiate (1 := None)).
Qed.

Lemma find_existing_lookup (jobId : jsstring) (entries : list obj) i r :
  Artifacts.find_existing jobId entries = Some (i, r) -> entries !! i = Some r.
Proof. unfold Artifacts.find_existing. by intros (? & _)%list_find_Some. Qed.

(** C2 fails on the code. The job has one resume, with the id resume-1, and
    the model's reply has a property named id: the generation succeeds and
    leaves one resume, in the place of the old one, and its id is the one of
    the reply, not the one of the resume it replaces. *)
Lemma upsert_id_from_result :
  let e := Sample.outside (jq "{'id': 'from-the-model', 'resume': 'new'}") in
  let out := Artifacts.tailor e (js "job-1") Sample.stored_data in
  map (fun r => Js.member (VObj r) (js "id")) (resumes Sample.stored_data)
  = [Sample.text "resume-1"]
  /\ is_success out.1 = true
  /\ map (fun r => Js.member (VObj r) (js "id")) (resumes (stored out.2))
     = [Sample.text "from-the-model"].
Proof. repeat split; vm_compute; reflexivity. Qed.


(** ** Rendering is optional *)

Lemma generateDocx_unavailable {R : Type} (e : env) (kind : jsstring)
  (data : obj) (st : state) :
  Rendering.unavailable e kind data (templates (stored st)) ->
  Docx.generateDocx (R := R) e kind data st = (Ok None, st).
Proof.
  unfold Rendering.unavailable, Docx.generateDocx, mbind, M_bind, load, mret,
    M_ret. simpl.
  destruct (list_find _ _) as [[i t]|]; [|done].
  intros [-> | [-> | H]]; simpl; [done| |].
  - by destruct (template_exists e (template_filename t)).
  - destruct (template_exists e (template_filename t)); simpl; [|done].
    destruct (render e (template_filename t) data); [|done]. by rewrite H.
Qed.

(** When no template of the kind is registered, [generateDocx] returns
    [null] and does nothing; when the file of the template is missing, or a
    step of the rendering throws, or the result cannot be written, it
    returns [null] as well. A generation whose result is not [null] then
    still succeeds: the artifact is stored and answered, and the handler
    adds no document reference to it. *)
Lemma rendering_is_optional (e : env) (jobId : jsstring) (w : world)
  (job : obj) (result : jsstring) (parsed : value) :
  (forall kind data st,
     list_find (fun t => template_type t = kind) (templates (stored st)) = None ->
     Docx.generateDocx (R := response obj) e kind data st = (Ok None, st))
  /\ (forall kind data st,
       Rendering.unavailable e kind data (templates (stored st)) ->
       Docx.generateDocx (R := response obj) e kind data st = (Ok None, st))
  /\ (jobId <> [] ->
      Artifacts.find_job jobId (jobs w) = Some job ->
      model_reply e = Some result ->
      Extractor.extract result = Extractor.Parsed parsed ->
      Js.nullish parsed = false ->
      (Rendering.unavailable e (js "resume")
         (Js.assign (Mapper.slots e (profile w) job parsed) ∅) (templates w) ->
       let existing := Artifacts.find_existing jobId (resumes w) in
       let a := Artifacts.entry e jobId job parsed existing in
       Artifacts.tailor e jobId w
       = (Success 200 a,
          {| stored := set_resumes (Artifacts.put existing a (resumes w)) w;
             model_calls := 1 |})
       /\ a !! js "docxPath" = Js.own_properties parsed !! js "docxPath")
      /\ (Rendering.unavailable e (js "cover-letter")
            (Js.assign (Mapper.cover_letter_slots e (profile w) job parsed) ∅)
            (templates w) ->
          let existing := Artifacts.find_existing jobId (coverLetters w) in
          let a := Artifacts.entry e jobId job parsed existing in
          Artifacts.generate_cover_letter e jobId w
          = (Success 200 a,
             {| stored :=
                  set_coverLetters (Artifacts.put existing a (coverLetters w)) w;
                model_calls := 1 |})
          /\ a !! js "docxPath" = Js.own_properties parsed !! js "docxPath")).
Proof.
  split; [|split].
  - intros kind data st H. apply generateDocx_unavailable.
    unfold Rendering.unavailable. by rewrite H.
  - intros kind data st. apply generateDocx_unavailable.
  - intros Hid Hjob Hreply Hparsed Hnull. split.
    + intros Hdoc existing a. split; [|apply entry_docxPath].
      unfold Artifacts.tailor, handle, mbind, M_bind, load, call_model, lift,
        Extractor.extract_or_fail, Mapper.templateData, save, mret, M_ret.
      rewrite bool_decide_eq_false_2 by done. simpl.
      rewrite Hjob, Hreply, Hparsed, Hnull. simpl.
      rewrite generateDocx_unavailable by done. done.
    + intros Hdoc existing a. split; [|apply entry_docxPath].
      unfold Artifacts.generate_cover_letter, handle, mbind, M_bind, load,
        call_model, lift, Extractor.extract_or_fail, Mapper.coverLetterData,
        save, mret, M_ret.
      rewrite bool_decide_eq_false_2 by done. simpl.
      rewrite Hjob, Hreply, Hparsed, Hnull. simpl.
      rewrite generateDocx_unavailable by done. done.
Qed.

(** C8 fails on the code. No template is registered and the model's reply
    has a property named docxPath: no document is written, the generation
    succeeds, and the stored resume has a document reference all the same,
    the one of the reply. *)
Lemma docxPath_from_result :
  let e := Sample.outside (jq "{'resume': 'new', 'docxPath': 'other.docx'}") in
  let out := Artifacts.tailor e (js "job-1") Sample.stored_data in
  templates Sample.stored_data = []
  /\ is_success out.1 = true
  /\ generated (stored out.2) = []
  /\ map (fun r => Js.member (VObj r) (js "docxPath")) (resumes (stored out.2))
     = [Sample.text "other.docx"].
Proof. repeat split; vm_compute; reflexivity. Qed.

(** ** The interview sessions *)

Section SessionFacts.

Implicit Types (s : session) (ms : list message) (w : world) (e : env).

Lemma alternates_app turn ms ms' :
  Session.alternates turn (ms ++ ms')
  = Session.alternates turn ms
    && Session.alternates
         (if Nat.odd (length ms) then Session.other turn else turn) ms'.
Proof.
  revert turn. induction ms as [|m ms IH]; intros turn; [done|].
  cbn [app Session.alternates length]. rewrite IH, Nat.odd_succ.
  rewrite <- Nat.negb_odd.
  destruct (Nat.odd (length ms)), turn; simpl; by rewrite ?andb_assoc.
Qed.

Lemma interviewer_turns_app ms ms' :
  Session.interviewer_turns (ms ++ ms')
  = Session.interviewer_turns ms + Session.interviewer_turns ms'.
Proof.
  unfold Session.interviewer_turns. by rewrite List.filter_app, length_app.
Qed.

Lemma opening_well_formed e (jobId : jsstring) (q qt tip : value) :
  Session.well_formed (Interview.opening e jobId q qt tip).
Proof. by repeat split. Qed.

Lemma answered_well_formed s (answer : jsstring) (q f qt tip : value) :
  Session.well_formed s ->
  Session.well_formed (Interview.answered s answer q f qt tip).
Proof.
  intros (Halt & Hodd & Hcount). unfold Session.well_formed. simpl.
  rewrite alternates_app, Halt, Hodd.
  rewrite length_app, Nat.odd_add, Hodd.
  rewrite interviewer_turns_app, Hcount.
  repeat split. change (Session.interviewer_turns [_; _]) with 1. lia.
Qed.

Lemma completed_well_formed e s (parsed : value) :
  Session.well_formed s -> Session.well_formed (Interview.completed e s parsed).
Proof. done. Qed.

(** The three handlers, case by case. *)
Lemma start_cases e (jobId : jsstring) w :
  (exists status error raw,
     Interview.start e jobId w
     = (Failure status error raw, {| stored := w; model_calls := 0 |})
     \/ Interview.start e jobId w
        = (Failure status error raw, {| stored := w; model_calls := 1 |}))
  \/ (exists q qt tip,
        let s := Interview.opening e jobId q qt tip in
        Interview.start e jobId w
        = (Success 201 s,
           {| stored := set_interviews (interviews w ++ [s]) w;
              model_calls := 1 |})).
Proof.
  unfold Interview.start.
  run_handler;
    first [ by left; eexists _, _, _; left
          | by left; eexists _, _, _; right
          | right; by eexists _, _, _ ].
Qed.

Lemma respond_cases e (jobId id : jsstring) (answer : value) w :
  (exists status error raw,
     Interview.respond e jobId id answer w
     = (Failure status error raw, {| stored := w; model_calls := 0 |})
     \/ Interview.respond e jobId id answer w
        = (Failure status error raw, {| stored := w; model_calls := 1 |}))
  \/ (exists i s text q f qt tip,
        let s' := Interview.answered s text q f qt tip in
        Interview.find_session jobId id (interviews w) = Some (i, s)
        /\ Session.complete s = false
        /\ answer = VStr text
        /\ Interview.respond e jobId id answer w
           = (Success 200 s',
              {| stored := set_interviews (<[i := s']> (interviews w)) w;
                 model_calls := 1 |})).
Proof.
  unfold Interview.respond, Session.complete.
  run_handler;
    first [ by left; eexists _, _, _; left
          | by left; eexists _, _, _; right
          | right; eexists _, _, _, _, _, _, _; by repeat split ].
Qed.

Lemma end_cases e (jobId id : jsstring) w :
  (exists status error raw,
     Interview.end_ e jobId id w
     = (Failure status error raw, {| stored := w; model_calls := 0 |})
     \/ Interview.end_ e jobId id w
        = (Failure status error raw, {| stored := w; model_calls := 1 |}))
  \/ (exists i s parsed,
        let s' := Interview.completed e s parsed in
        Interview.find_session jobId id (interviews w) = Some (i, s)
        /\ Interview.end_ e jobId id w
           = (Success 200 s',
              {| stored := set_interviews (<[i := s']> (interviews w)) w;
                 model_calls := 1 |})).
Proof.
  unfold Interview.end_.
  run_handler;
    first [ by left; eexists _, _, _; left
          | by left; eexists _, _, _; right
          | right; by eexists _, _, _ ].
Qed.

Lemma find_session_lookup (jobId id : jsstring) (ss : list session) i s :
  Interview.find_session jobId id ss = Some (i, s) -> ss !! i = Some s.
Proof. unfold Interview.find_session. by intros (? & _)%list_find_Some. Qed.

Lemma Forall_insert_well_formed (ss : list session) i s :
  Forall Session.well_formed ss -> Session.well_formed s ->
  Forall Session.well_formed (<[i := s]> ss).
Proof. intros. by apply Forall_insert. Qed.

(** Each request keeps the invariant of every stored session. *)
Lemma perform_well_formed w (r : Session.request) :
  Forall Session.well_formed (interviews w) ->
  Forall Session.well_formed (interviews (Session.perform w r)).
Proof.
  intros Hw. destruct r as [e jobId|e jobId id answer|e jobId id]; simpl.
  - destruct (start_cases e jobId w) as
      [(? & ? & ? & [-> | ->]) | (q & qt & tip & ->)]; simpl; [done..|].
    apply Forall_app. split; [done|].
    apply Forall_cons. split; [apply opening_well_formed|done].
  - destruct (respond_cases e jobId id answer w) as
      [(? & ? & ? & [-> | ->])
      | (i & s & text & q & f & qt & tip & Hs & _ & _ & ->)];
      simpl; [done..|].
    apply Forall_insert_well_formed; [done|].
    apply answered_well_formed.
    apply find_session_lookup in Hs.
    by eapply (Forall_lookup_1 _ _ _ _ Hw).
  - destruct (end_cases e jobId id w) as
      [(? & ? & ? & [-> | ->]) | (i & s & parsed & Hs & ->)];
      simpl; [done..|].
    apply Forall_insert_well_formed; [done|].
    apply completed_well_formed.
    apply find_session_lookup in Hs.
    by eapply (Forall_lookup_1 _ _ _ _ Hw).
Qed.

End SessionFacts.

Section ExchangeFacts.

Implicit Types (s : session) (ss : list session) (w : world) (e : env).

(** The session found stays the one found when the handler changes it: its
    two ids stay. *)
Lemma find_session_insert (jobId id : jsstring) ss i s s' :
  Interview.find_session jobId id ss = Some (i, s) ->
  session_id s' = session_id s -> session_jobId s' = session_jobId s ->
  Interview.find_session jobId id (<[i := s']> ss) = Some (i, s').
Proof.
  unfold Interview.find_session.
  intros (Hi & [Hid Hjob] & Hbefore)%list_find_Some E1 E2.
  apply list_find_Some. split; [|split].
  - apply list_lookup_insert_eq. by eapply lookup_lt_Some.
  - by rewrite E1, E2.
  - intros j y Hj Hlt. rewrite list_lookup_insert_ne in Hj by lia. eauto.
Qed.

(** A session under an id that no stored session has is the one found. *)
Lemma find_session_new (jobId id : jsstring) ss s :
  (forall s', In s' ss -> session_id s' <> id) ->
  session_id s = id -> session_jobId s = jobId ->
  Interview.find_session jobId id (ss ++ [s]) = Some (length ss, s).
Proof.
  unfold Interview.find_session. intros Hfresh E1 E2.
  apply list_find_Some. split; [|split].
  - by rewrite lookup_app_r, Nat.sub_diag by lia.
  - done.
  - intros j y Hj Hlt [Hy _]. rewrite lookup_app_l in Hj by done.
    apply (Hfresh y); [|done].
    apply list_elem_of_In. by eapply list_elem_of_lookup_2.
Qed.

(** Every accepted answer adds one to [questionCount] and two messages. *)
Lemma exchange_counts (jobId id : jsstring) (turns : list (env * value)) :
  forall w w' i s,
    Interview.find_session jobId id (interviews w) = Some (i, s) ->
    Session.exchange jobId id turns w = Some w' ->
    exists s',
      Interview.find_session jobId id (interviews w') = Some (i, s')
      /\ questionCount s' = (questionCount s + Z.of_nat (length turns))%Z
      /\ length (messages s') = length (messages s) + 2 * length turns.
Proof.
  induction turns as [|[e answer] turns IH]; intros w w' i s Hfind Hex.
  - simpl in Hex. injection Hex as <-. exists s. simpl.
    repeat split; [done|lia|lia].
  - cbn [Session.exchange] in Hex.
    destruct (respond_cases e jobId id answer w) as
      [(? & ? & ? & [Hr | Hr])
      | (i' & s1 & text & q & f & qt & tip & Hs & _ & _ & Hr)];
      rewrite Hr in Hex; [done..|].
    rewrite Hfind in Hs. injection Hs as <- <-. simpl in Hex.
    pose proof (find_session_insert jobId id _ i s
                  (Interview.answered s text q f qt tip) Hfind eq_refl eq_refl)
      as Hfind1.
    destruct (IH (set_interviews
                    (<[i := Interview.answered s text q f qt tip]> (interviews w))
                    w) w' i _ Hfind1 Hex)
      as (s' & Hfind' & Hcount & Hlen).
    exists s'. split; [done|]. simpl in Hcount, Hlen.
    rewrite length_app in Hlen. simpl in Hlen. simpl. lia.
Qed.

End ExchangeFacts.

(** C5. Every request of the interview routes keeps the invariant of every
    stored session: the messages alternate from an interviewer message on,
    and [questionCount] is the number of interviewer messages; so it holds of
    every session of every store reached from one where it holds (the empty
    one for instance), whatever the requests and however many of them end a
    session. And after a start and N accepted answers to the session it
    created, that session has a [questionCount] of N+1 and 2N+1 messages. *)
Theorem interview_invariant :
  (forall (w : world) (rs : list Session.request),
     Forall Session.well_formed (interviews w) ->
     Forall Session.well_formed (interviews (foldl Session.perform w rs)))
  /\ (forall (e : env) (jobId : jsstring) (w w' : world) (status : nat)
        (s0 : session) (st : state) (turns : list (env * value)),
       Interview.start e jobId w = (Success status s0, st) ->
       (forall s, In s (interviews w) -> session_id s <> uuid_record e) ->
       Session.exchange jobId (session_id s0) turns (stored st) = Some w' ->
       exists s,
         Interview.find_session jobId (session_id s0) (interviews w')
         = Some (length (interviews w), s)
         /\ questionCount s = (Z.of_nat (length turns) + 1)%Z
         /\ length (messages s) = 2 * length turns + 1).
Proof.
  split.
  - intros w rs. revert w. induction rs as [|r rs IH]; intros w Hw; [done|].
    simpl. apply IH. by apply perform_well_formed.
  - intros e jobId w w' status s0 st turns Hstart Hfresh Hex.
    destruct (start_cases e jobId w) as
      [(? & ? & ? & [Hr | Hr]) | (q & qt & tip & Hr)];
      rewrite Hr in Hstart; [done..|].
    injection Hstart as <- <- <-. simpl in Hex.
    pose proof (find_session_new jobId (uuid_record e) (interviews w)
                  (Interview.opening e jobId q qt tip) Hfresh eq_refl eq_refl)
      as Hfind0.
    destruct (exchange_counts jobId _ turns
                (set_interviews
                   (interviews w ++ [Interview.opening e jobId q qt tip]) w)
                w' _ _ Hfind0 Hex)
      as (s & Hfind & Hcount & Hlen).
    exists s. split; [done|]. simpl in Hcount, Hlen. split; lia.
Qed.

(** C6, as amended. A respond call on a session that is complete fails
    before the model is called and leaves the stored data as they were,
    whatever the answer; with an answer that is a text and not blank, the
    error is the one of a session already complete; with a missing or blank
    answer it is the earlier one, that an answer is required. *)
Theorem respond_after_complete (e : env) (jobId id : jsstring)
  (answer : value) (w : world) (i : nat) (s : session) :
  Interview.find_session jobId id (interviews w) = Some (i, s) ->
  Session.complete s = true ->
  (exists status error,
     Interview.respond e jobId id answer w
     = (Failure status error None, {| stored := w; model_calls := 0 |}))
  /\ (forall text, answer = VStr text -> Str.trim text <> [] ->
      Interview.respond e jobId id answer w
      = (Failure 400 (js "This interview session is already complete") None,
         {| stored := w; model_calls := 0 |}))
  /\ (Js.truthy answer = false
      \/ (exists text, answer = VStr text /\ Str.trim text = []) ->
      Interview.respond e jobId id answer w
      = (Failure 400 (js "Answer is required") None,
         {| stored := w; model_calls := 0 |})).
Proof.
  unfold Session.complete. intros Hfind Hdone.
  unfold Interview.respond, handle, Interview.check_answer, mbind, M_bind,
    respond_with, lift, load, mret, M_ret.
  split; [|split].
  - destruct (Js.truthy answer) eqn:Ht; simpl; [|by eexists _, _].
    destruct answer; simpl; try by eexists _, _.
    case_bool_decide; simpl; [by eexists _, _|].
    rewrite Hfind, Hdone. by eexists _, _.
  - intros text -> Htext.
    replace (Js.truthy (VStr text)) with true; cycle 1.
    { unfold Js.truthy. rewrite bool_decide_eq_false_2; [done|].
      by intros ->. }
    simpl. rewrite bool_decide_eq_false_2 by done. simpl.
    by rewrite Hfind, Hdone.
  - intros [-> | (text & -> & Htext)]; [done|].
    destruct (Js.truthy (VStr text)); simpl; [|done].
    by rewrite bool_decide_eq_true_2.
Qed.

(** C6, as stated, fails on a blank answer: the session is complete, and the
    error is that an answer is required. *)
Lemma blank_answer_after_complete :
  let out :=
    Interview.respond (Sample.outside []) (js "job-1") (js "session-1")
      (VStr (js "  ")) Sample.interview_data in
  map Session.complete (interviews Sample.interview_data) = [true]
  /\ out.1 = Failure 400 (js "Answer is required") None.
Proof. split; vm_compute; reflexivity. Qed.

(** The end handler has no test of [completedAt]: it runs on a session that
    is complete as on any other. *)
Lemma end_reprocesses (e : env) (jobId id : jsstring) (w : world) (i : nat)
  (s : session) (result : jsstring) (parsed : value) :
  Interview.find_session jobId id (interviews w) = Some (i, s) ->
  model_reply e = Some result ->
  Extractor.extract result = Extractor.Parsed parsed ->
  let s' := Interview.completed e s parsed in
  Interview.end_ e jobId id w
  = (Success 200 s',
     {| stored := set_interviews (<[i := s']> (interviews w)) w;
        model_calls := 1 |}).
Proof.
  intros Hfind Hreply Hparsed.
  unfold Interview.end_, handle, mbind, M_bind, load, call_model, lift,
    Extractor.extract_or_fail, save, mret, M_ret. simpl.
  by rewrite Hfind, Hreply, Hparsed.
Qed.

(** C7 fails on the code. A session that is complete, with an assessment
    scored 9, is ended a second time: the request succeeds, the model is
    called, and the stored session has the new assessment, scored 2, and the
    time of the second request as [completedAt]. *)
Theorem second_end_overwrites :
  let e := Sample.outside (jq "{'overallScore': 2}") in
  let out :=
    Interview.end_ e (js "job-1") (js "session-1") Sample.interview_data in
  let assessment (s : session) :=
    (Js.member (feedback s) (js "overallScore"), completedAt s) in
  map Session.complete (interviews Sample.interview_data) = [true]
  /\ map assessment (interviews Sample.interview_data)
     = [(VNum 9 0, Sample.text "2026-01-05T09:30:00.000Z")]
  /\ is_success out.1 = true
  /\ model_calls out.2 = 1
  /\ map assessment (interviews (stored out.2)) = [(VNum 2 0, VStr (now e))].
Proof. repeat split; vm_compute; reflexivity. Qed.

#[local] Arguments Js.or_else : simpl never.
#[local] Arguments Js.at_index : simpl never.
#[local] Arguments Js.get_opt : simpl never.
#[local] Arguments Mapper.field : simpl never.
#[local] Arguments Str.of_nat : simpl never.
#[local] Arguments Schema.item : simpl never.
#[local] Arguments Schema.items : simpl never.
#[local] Arguments Schema.text_of : simpl never.

(** ** The template field mapper *)

Section MapperFacts.

Implicit Types (l : list (jsstring * value)) (m : obj) (k : jsstring)
  (v : value) (vs : list value).

Lemma assign_cons k v l m :
  Js.assign ((k, v) :: l) m = Js.assign l (<[k := v]> m).
Proof. done. Qed.

Lemma assign_lookup_other l : forall m k,
  k ∉ l.*1 -> Js.assign l m !! k = m !! k.
Proof.
  induction l as [|[k' v'] l IH]; intros m k Hk; [done|].
  apply not_elem_of_cons in Hk as [Hne Hk].
  rewrite assign_cons, IH by done. by apply lookup_insert_ne.
Qed.

(** Written once, a property has the value written. *)
Lemma assign_lookup l : forall m k v,
  NoDup l.*1 -> (k, v) ∈ l -> Js.assign l m !! k = Some v.
Proof.
  induction l as [|[k' v'] l IH]; intros m k v Hnd Hin.
  - by apply elem_of_nil in Hin.
  - apply NoDup_cons in Hnd as [Hk' Hnd]. rewrite assign_cons.
    apply elem_of_cons in Hin as [[= -> ->] | Hin].
    + rewrite assign_lookup_other by done. apply lookup_insert_eq.
    + by apply IH.
Qed.

(** The names written do not depend on the result. *)
Lemma slots_names (e : env) (profile job : obj) (parsed : value) :
  (Mapper.slots e profile job parsed).*1 = Mapper.slot_names.
Proof. reflexivity. Qed.

Lemma slot_names_NoDup : NoDup Mapper.slot_names.
Proof. apply (bool_decide_unpack _). vm_compute. exact I. Qed.

Lemma to_index_small (j : nat) :
  j < 6 -> Str.to_index (Str.of_nat j) = Some j.
Proof. intros H. do 6 (destruct j as [|j]; [reflexivity|]). lia. Qed.

Lemma at_index_small vs (j : nat) :
  j < 6 -> Js.at_index (VArr vs) j = default VUndef (vs !! j).
Proof.
  intros H. unfold Js.at_index, Js.member. by rewrite to_index_small.
Qed.

(** [v || ''] for a text, or nothing, [v]. *)
Lemma or_else_optional_text v :
  Schema.optional_text v = true ->
  Js.or_else v Mapper.empty
  = match v with VStr s => VStr s | _ => VStr [] end.
Proof.
  destruct v; try done. intros _. unfold Js.or_else, Js.truthy.
  by case_bool_decide; simplify_eq.
Qed.

Lemma or_else_texts v :
  Schema.optional_texts v = true ->
  Js.or_else v (VArr []) = VArr (Schema.items v).
Proof. by destruct v. Qed.

Lemma texts_items v :
  Schema.optional_texts v = true -> forallb Schema.text (Schema.items v) = true.
Proof. by destruct v. Qed.

Lemma item_spec vs (j : nat) :
  forallb Schema.text vs = true -> j < 6 ->
  Js.or_else (Js.at_index (VArr vs) j) Mapper.empty = Schema.item vs j.
Proof.
  intros Hvs Hj. rewrite at_index_small by done. unfold Schema.item.
  destruct (vs !! j) as [v|] eqn:Hv; [|done]. simpl.
  assert (Schema.text v = true) as Ht.
  { rewrite forallb_forall in Hvs. apply Hvs, list_elem_of_In.
    by eapply list_elem_of_lookup_2. }
  rewrite or_else_optional_text; [by destruct v|]. unfold Schema.optional_text.
  by rewrite Ht, orb_true_r.
Qed.

Lemma item_text vs (j : nat) : Schema.text (Schema.item vs j) = true.
Proof. unfold Schema.item. by destruct (vs !! j) as [[]|]. Qed.

Lemma field_spec v (k : string) :
  Schema.optional_text (Js.member v (js k)) = true ->
  Js.nullish v = false ->
  Mapper.field v k = Schema.text_of v k.
Proof.
  intros H Hn. unfold Mapper.field, Schema.text_of, Js.get_opt.
  rewrite Hn. by rewrite or_else_optional_text.
Qed.

Lemma text_of_text v (k : string) : Schema.text (Schema.text_of v k) = true.
Proof. unfold Schema.text_of. by destruct (Js.get_opt v (js k)). Qed.

Lemma slot_cons k v v' l l' :
  v = v' -> l = l' -> (k, v) :: l = (k, v') :: l'.
Proof. by intros -> ->. Qed.

Lemma or_else_experiences v :
  Schema.experiences v = true ->
  Js.or_else v (VArr []) = VArr (Schema.items v)
  /\ forallb Schema.experience (Schema.items v) = true.
Proof. by destruct v. Qed.

(** The experience at a position, or the empty object. *)
Lemma experience_at vs (j : nat) :
  forallb Schema.experience vs = true -> j < 6 ->
  Js.or_else (Js.at_index (VArr vs) j) (VObj ∅) = default (VObj ∅) (vs !! j)
  /\ Schema.experience (default (VObj ∅) (vs !! j)) = true.
Proof.
  intros Hvs Hj. rewrite at_index_small by done.
  destruct (vs !! j) as [v|] eqn:Hv; [|done]. simpl.
  assert (Schema.experience v = true) as Hx.
  { rewrite forallb_forall in Hvs. apply Hvs, list_elem_of_In.
    by eapply list_elem_of_lookup_2. }
  by destruct v.
Qed.

Lemma experience_fields v :
  Schema.experience v = true ->
  Js.nullish v = false
  /\ Schema.optional_text (Js.member v (js "title")) = true
  /\ Schema.optional_text (Js.member v (js "company")) = true
  /\ Schema.optional_text (Js.member v (js "location")) = true
  /\ Schema.optional_text (Js.member v (js "dates")) = true
  /\ Schema.optional_texts (Js.member v (js "bullets")) = true.
Proof.
  destruct v; try done. unfold Schema.experience. cbn [forallb].
  rewrite !andb_true_iff. tauto.
Qed.

Lemma skills_category v (cat : jsstring) :
  Schema.skills v = true ->
  In cat (map fst Mapper.skillCategories) ->
  Schema.optional_texts (Js.get_opt v cat) = true.
Proof.
  intros Hv Hcat. destruct v; try done.
  unfold Schema.skills in Hv. rewrite forallb_forall in Hv.
  apply in_map_iff in Hcat as ([c p] & <- & Hin). apply (Hv _ Hin).
Qed.

Lemma website_spec (p l : value) :
  Schema.optional_text p = true -> Schema.optional_text l = true ->
  Js.or_else (Js.or_else p l) Mapper.empty
  = match (match p with VStr s => VStr s | _ => VStr [] end) with
    | VStr [] => match l with VStr s => VStr s | _ => VStr [] end
    | website => website
    end.
Proof.
  intros Hp Hl. unfold Js.or_else at 2.
  destruct p as [| | | |[|c s]| |]; try done; simpl;
    by rewrite or_else_optional_text.
Qed.

Lemma bullet_spec v (j : nat) :
  Schema.optional_texts v = true -> j < 6 ->
  Js.or_else (Js.at_index (Js.or_else v (VArr [])) j) Mapper.empty
  = Schema.item (Schema.items v) j.
Proof.
  intros Hv Hj. rewrite or_else_texts by done.
  apply item_spec; [by apply texts_items|done].
Qed.

(** On a result of the shape asked for, the slots written are the ones the
    specification words. *)
Lemma slots_expected (e : env) (profile job : obj) (parsed : value) :
  Schema.resume_result parsed = true -> Schema.header profile job = true ->
  Mapper.slots e profile job parsed = Schema.expected_slots e profile job parsed.
Proof.
  intros Hr Hh.
  assert (Js.nullish parsed = false) as Hnull by by destruct parsed.
  assert (Schema.optional_text (Js.member parsed (js "resume")) = true
          /\ Schema.optional_text (Js.member parsed (js "summary")) = true
          /\ Schema.skills (Js.member parsed (js "skills")) = true
          /\ Schema.experiences (Js.member parsed (js "experiences")) = true)
    as (Hresume & Hsummary & Hskills & Hexps).
  { destruct parsed; try done. unfold Schema.resume_result in Hr.
    rewrite !andb_true_iff in Hr. tauto. }
  unfold Schema.header in Hh. cbn [forallb] in Hh.
  rewrite !andb_true_iff in Hh. destruct_and!.
  unfold Mapper.slots, Schema.expected_slots, Mapper.header_slots,
    Mapper.skill_slots, Mapper.experience_slots.
  destruct (or_else_experiences _ Hexps) as [-> Hall].
  destruct (experience_at _ 0 Hall ltac:(lia)) as [E0 (? & ? & ? & ? & ? & ?)%experience_fields].
  destruct (experience_at _ 1 Hall ltac:(lia)) as [E1 (? & ? & ? & ? & ? & ?)%experience_fields].
  destruct (experience_at _ 2 Hall ltac:(lia)) as [E2 (? & ? & ? & ? & ? & ?)%experience_fields].
  destruct (experience_at _ 3 Hall ltac:(lia)) as [E3 (? & ? & ? & ? & ? & ?)%experience_fields].
  simpl. rewrite E0, E1, E2, E3.
  repeat (apply slot_cons);
    first
      [ reflexivity
      | by apply field_spec
      | by unfold Schema.text_of; apply website_spec
      | apply bullet_spec; [|lia];
        first [ assumption
              | apply skills_category; [assumption|];
                repeat (first [left; reflexivity | right]) ] ].
Qed.
Lemma expected_names (e : env) (profile job : obj) (parsed : value) :
  (Schema.expected_slots e profile job parsed).*1 = Mapper.slot_names.
Proof. reflexivity. Qed.

Lemma expected_texts (e : env) (profile job : obj) (parsed : value) :
  Forall (fun kv : jsstring * value => Schema.text kv.2 = true)
    (Schema.expected_slots e profile job parsed).
Proof.
  unfold Schema.expected_slots. simpl.
  repeat (apply Forall_cons; split; [|]);
    first [ apply Forall_nil_2 | apply text_of_text | apply item_text | idtac ];
    simpl; [|done].
  pose proof (text_of_text (Js.member (VObj profile) (js "links")) "linkedin").
  pose proof (text_of_text (Js.member (VObj profile) (js "links")) "portfolio").
  by destruct (Schema.text_of _ "portfolio") as [| | | |[|??]| |].
Qed.

(** The clock is read for the slot of the date and for no other. *)
Lemma expected_date_apart (e e' : env) (profile job : obj) (parsed : value) :
  Schema.expected_slots e' profile job parsed
  = take 8 (Schema.expected_slots e profile job parsed)
    ++ (js "date", VStr (today e'))
       :: drop 9 (Schema.expected_slots e profile job parsed).
Proof. reflexivity. Qed.

(** A slot of the expected list has its value in the data. *)
Lemma expected_lookup (e : env) (profile job : obj) (parsed : value) k v :
  (k, v) ∈ Schema.expected_slots e profile job parsed ->
  Js.assign (Schema.expected_slots e profile job parsed) ∅ !! k = Some v.
Proof.
  apply assign_lookup. rewrite expected_names. apply slot_names_NoDup.
Qed.

End MapperFacts.

(** Finding a slot in the list of the slots. *)
Ltac find_slot :=
  unfold Schema.expected_slots; simpl;
  repeat (first [ apply list_elem_of_here | apply list_elem_of_further ]).

(** C4, as amended. On every generation result of the shape the prompt asks
    for, with a profile and a job whose header fields are texts or missing,
    the mapper succeeds; every fixed slot name is in the data with a text as
    its value, and no other name is; slot [i] of a skill category, for [i]
    from 1 to 6, has the skill at position [i - 1], or the empty text when
    there is none, so that skills from the seventh on are dropped; the
    experiences at positions 1 to 4 give their fields and their first
    bullets, 4, 3, 3 and 2 of them, and later experiences and bullets are
    dropped; and mapping again gives the same data, but for the slot of the
    date when the day has changed. *)
Theorem mapper_total_and_deterministic (e : env) (profile job : obj)
  (parsed : value) :
  Schema.resume_result parsed = true -> Schema.header profile job = true ->
  exists data : obj,
    Mapper.templateData (R := response obj) e profile job parsed = Ok data
    /\ (forall k, k ∈ Mapper.slot_names -> exists s, data !! k = Some (VStr s))
    /\ (forall k, k ∉ Mapper.slot_names -> data !! k = None)
    /\ (forall category prefix i,
         (category, prefix) ∈ Mapper.skillCategories -> 1 <= i <= 6 ->
         data !! (prefix ++ js "_" ++ Str.of_nat i)
         = Some (Schema.item
                   (Schema.items
                      (Js.get_opt (Js.member parsed (js "skills")) category))
                   (i - 1)))
    /\ (forall n,
         1 <= n <= 4 ->
         let exp :=
           default (VObj ∅)
             (Schema.items (Js.member parsed (js "experiences")) !! (n - 1)) in
         (forall k : string,
            In k ["title"; "company"; "location"; "dates"]%string ->
            data !! (js "exp" ++ Str.of_nat n ++ js "_" ++ js k)
            = Some (Schema.text_of exp k))
         /\ (forall b,
               1 <= b <= default 0 (Mapper.bulletCounts !! (n - 1)) ->
               data !! (js "exp" ++ Str.of_nat n ++ js "_bullet" ++ Str.of_nat b)
               = Some (Schema.item
                         (Schema.items (Js.member exp (js "bullets"))) (b - 1))))
    /\ (forall e',
         (forall k, k <> js "date" ->
            Js.assign (Mapper.slots e' profile job parsed) ∅ !! k = data !! k)
         /\ (today e' = today e ->
             Js.assign (Mapper.slots e' profile job parsed) ∅ = data)).
Proof.
  intros Hr Hh. exists (Js.assign (Mapper.slots e profile job parsed) ∅).
  assert (Js.nullish parsed = false) as Hnull by by destruct parsed.
  split; [by unfold Mapper.templateData; rewrite Hnull|].
  rewrite (slots_expected e) by done.
  split; [|split; [|split; [|split]]].
  - intros k Hk. rewrite <- (expected_names e profile job parsed) in Hk.
    apply list_elem_of_fmap in Hk as ([k' v] & -> & Hin).
    pose proof (proj1 (Forall_forall _ _) (expected_texts e profile job parsed)
                  _ Hin) as Ht. simpl in Ht.
    destruct v; try done. eexists. by apply expected_lookup.
  - intros k Hk. rewrite assign_lookup_other; [done|]. by rewrite expected_names.
  - intros category prefix i Hcat Hi. apply expected_lookup.
    assert (i = 1 \/ i = 2 \/ i = 3 \/ i = 4 \/ i = 5 \/ i = 6) as Hcases by lia.
    unfold Mapper.skillCategories in Hcat.
    repeat (apply elem_of_cons in Hcat as [[= -> ->] | Hcat]);
      [..|by apply elem_of_nil in Hcat];
      repeat (destruct Hcases as [-> | Hcases]); try subst i; find_slot.
  - intros n Hn exp. unfold exp.
    assert (n = 1 \/ n = 2 \/ n = 3 \/ n = 4) as Hcases by lia. split.
    + intros k Hk. apply expected_lookup. simpl in Hk.
      repeat (destruct Hcases as [-> | Hcases]); try subst n;
        repeat (destruct Hk as [<- | Hk]); try done; find_slot.
    + intros b Hb. apply expected_lookup.
      repeat (destruct Hcases as [-> | Hcases]); try subst n; simpl in Hb;
        (assert (b = 1 \/ b = 2 \/ b = 3 \/ b = 4) as Hb' by lia);
        repeat (destruct Hb' as [-> | Hb']); try subst b; try lia; find_slot.
  - intros e'. rewrite (slots_expected e') by done. split.
    + intros k Hk.
      destruct (decide (k ∈ Mapper.slot_names)) as [Hin|Hout].
      * rewrite <- (expected_names e' profile job parsed) in Hin.
        apply list_elem_of_fmap in Hin as ([k' v] & -> & Hin).
        cbn [fst] in *.
        rewrite (expected_lookup e' _ _ _ _ _ Hin).
        symmetry. apply expected_lookup.
        rewrite (expected_date_apart e e') in Hin.
        rewrite elem_of_app, elem_of_cons in Hin.
        rewrite (expected_date_apart e e), elem_of_app, elem_of_cons.
        destruct Hin as [?|[[= ? ?]|?]]; [by left|done|by right; right].
      * rewrite !assign_lookup_other; by rewrite ?expected_names.
    + intros Ht. unfold Schema.expected_slots. by rewrite Ht.
Qed.

(** C4, as stated, fails in three ways. On the result [null] the mapper
    throws, and the handler answers 500. Where the result, or the profile,
    has a number in the place of a text, the slot holds the number. And the
    same result mapped on two days gives two maps, which differ in the slot
    of the date. *)
Lemma mapper_needs_the_shape :
  let e := Sample.outside (js "null") in
  let later :=
    {| model_reply := model_reply e; uuid_record := uuid_record e;
       uuid_document := uuid_document e; now_created := now_created e;
       now := now e; today := js "February 2, 2026";
       template_exists := template_exists e; render := render e;
       write_ok := write_ok e |} in
  let numbered := VObj {[ js "summary" := VNum 5 0 ]} in
  let profile : obj := {[ js "name" := VNum 7 0 ]} in
  let data (e : env) (profile : obj) (parsed : value) : obj :=
    match Mapper.templateData (R := ()) e profile Sample.job parsed with
    | Ok data => data
    | _ => ∅
    end in
  Mapper.templateData (R := ()) e Sample.person Sample.job VNull = Throw
  /\ (Artifacts.tailor e (js "job-1") Sample.stored_data).1
     = Failure 500 (js "Failed to tailor resume") None
  /\ data e Sample.person numbered !! js "summary" = Some (VNum 5 0)
  /\ data e profile (VObj ∅) !! js "name" = Some (VNum 7 0)
  /\ data e Sample.person (VObj ∅) <> data later Sample.person (VObj ∅).
Proof.
  intros e later numbered profile data.
  split; [reflexivity|]. split; [vm_compute; reflexivity|].
  split; [vm_compute; reflexivity|]. split; [vm_compute; reflexivity|].
  intros H. apply (f_equal (fun d : obj => d !! js "date")) in H.
  vm_compute in H. discriminate.
Qed.

(** ** The properties at work *)

(** The five skills of a category fill its first five slots and leave the
    sixth empty; of the eight skills of another the first six are mapped;
    a category that is missing leaves its slots empty. *)
Example skills_five_and_eight :
  map (fun k => Sample.resume_data !! js k)
    ["mgmt_1"; "mgmt_5"; "mgmt_6"; "design_1"; "design_6"; "design_7";
     "tools_1"]%string
  = [ Some (Sample.text "m1"); Some (Sample.text "m5"); Some (Sample.text "");
      Some (Sample.text "d1"); Some (Sample.text "d6"); None;
      Some (Sample.text "") ].
Proof. vm_compute. reflexivity. Qed.

(** The bullets are capped at 4, 3, 3 and 2, and the fifth experience is
    dropped. *)
Example bullets_capped :
  map (fun k => Sample.resume_data !! js k)
    ["exp1_bullet4"; "exp1_bullet5"; "exp2_bullet3"; "exp2_bullet4";
     "exp3_bullet1"; "exp3_bullet2"; "exp4_bullet2"; "exp4_bullet3";
     "exp4_title"; "exp5_title"; "exp2_location"]%string
  = [ Some (Sample.text "a4"); None; Some (Sample.text "b3"); None;
      Some (Sample.text "c1"); Some (Sample.text ""); Some (Sample.text "d2");
      None; Some (Sample.text "Junior"); None; Some (Sample.text "") ].
Proof. vm_compute. reflexivity. Qed.

(** The paragraph with an em dash between spaces goes, the one with words
    around the dash stays. *)
Example repair_dash_paragraphs :
  let dash := [8212%N] in
  let p1 := js "<w:p><w:r><w:t> " ++ dash ++ js " </w:t></w:r></w:p>" in
  let p2 :=
    jq "<w:p w:rsidR='1'><w:r><w:t xml:space='preserve'>Skills </w:t></w:r>"
    ++ js "<w:r><w:t>" ++ dash ++ js " Python</w:t></w:r></w:p>" in
  Docx.visible_text p2 = js "Skills " ++ dash ++ js " Python"
  /\ Docx.repair (js "<w:body>" ++ p1 ++ p2 ++ p1 ++ js "</w:body>")
     = js "<w:body>" ++ p2 ++ js "</w:body>".
Proof. split; vm_compute; reflexivity. Qed.

(** The first fenced block decides: the text of the second one is not
    looked at. *)
Example first_fence_decides :
  Extractor.fence_match (jq "```sh ls``` and ```{'a': 1}```") = Some (js "sh ls")
  /\ Extractor.extract (jq "```sh ls``` and ```{'a': 1}```")
     = Extractor.ExtractionFailed (jq "```sh ls``` and ```{'a': 1}```").
Proof. split; vm_compute; reflexivity. Qed.

(** The scenario of a whole interview: a start, two answers and an end give
    a session with three questions and five messages, complete. *)
Example interview_scenario :
  let e := Sample.outside (jq "{'question': 'Why us?', 'feedback': 'Good.'}") in
  let w :=
    foldl Session.perform Sample.stored_data
      [ Session.Start e (js "job-1");
        Session.Respond e (js "job-1") (js "uuid-1")
          (Sample.text "I led a team of 5 engineers.");
        Session.Respond e (js "job-1") (js "uuid-1")
          (Sample.text "I resolved the conflict by listening.");
        Session.End (Sample.outside (jq "{'overallScore': 7}")) (js "job-1")
          (js "uuid-1") ] in
  map (fun s => (questionCount s, length (messages s), Session.complete s,
                 Js.member (feedback s) (js "overallScore")))
    (interviews w)
  = [(3%Z, 5, true, VNum 7 0)].
Proof. vm_compute. reflexivity. Qed.

(** A reply with words around a fenced JSON text. *)
Lemma extraction_two_tier_witness :
  let before := js "Here is the result: " in
  let body := jq "json
{'summary': 'Designer'}
" in
  let v := VObj {[ js "summary" := Sample.text "Designer" ]} in
  (Block.fence_free before = true /\ Block.fence_free body = true
   /\ Json.parse (Block.content body) = Some v)
  /\ Extractor.extract (Block.text before body (js " I hope it helps."))
     = Extractor.Parsed v.
Proof.
  intros before body v.
  assert (Block.fence_free before = true) as H1 by (vm_compute; reflexivity).
  assert (Block.fence_free body = true) as H2 by (vm_compute; reflexivity).
  assert (Json.parse (Block.content body) = Some v) as H3
    by (vm_compute; reflexivity).
  split; [by repeat split|].
  exact (proj1 (proj2 extraction_two_tier) before body _ v H1 H2 H3).
Defined.

(** The document of three paragraphs: the second, a bar between spaces, is
    taken out. *)
Lemma repair_takes_out_separator_paragraphs_witness :
  Layout.well_formed Cases.lead Cases.segments = true
  /\ exists result pg',
       Docx.repair (Layout.text Cases.lead Cases.segments)
       = Layout.text Cases.lead result
       /\ length result = 3
       /\ result !! 1 = Some pg' /\ pg'.1 = [].
Proof.
  assert (Layout.well_formed Cases.lead Cases.segments = true) as H
    by (vm_compute; reflexivity).
  split; [exact H|].
  destruct (repair_takes_out_separator_paragraphs _ _ H)
    as (_ & result & Hrepair & Hfate).
  destruct (Forall2_lookup_l _ _ _ 1 _ Hfate eq_refl)
    as (pg' & Hpg' & _ & _ & Hout & _).
  exists result, pg'. split; [exact Hrepair|].
  split; [by rewrite <- (Forall2_length _ _ _ Hfate)|].
  split; [exact Hpg'|]. apply Hout. by vm_compute.
Defined.

(** The reply of the sample has the shape the prompt asks for. *)
Lemma mapper_total_and_deterministic_witness :
  (Schema.resume_result Sample.resume_result = true
   /\ Schema.header Sample.person Sample.job = true)
  /\ exists data : obj,
       Mapper.templateData (R := response obj)
         (Sample.outside Sample.resume_reply) Sample.person Sample.job
         Sample.resume_result = Ok data
       /\ (forall k, k ∈ Mapper.slot_names -> exists s, data !! k = Some (VStr s)).
Proof.
  assert (Schema.resume_result Sample.resume_result = true) as Hr
    by (vm_compute; reflexivity).
  assert (Schema.header Sample.person Sample.job = true) as Hh
    by (vm_compute; reflexivity).
  split; [by split|].
  destruct (mapper_total_and_deterministic
              (Sample.outside Sample.resume_reply) Sample.person Sample.job
              Sample.resume_result Hr Hh) as (data & Hdata & Hslots & _).
  exists data. by split.
Defined.

(** A session is started, answered once and ended. *)
Lemma interview_invariant_witness :
  let e := Sample.outside (jq "{'question': 'Why us?', 'feedback': 'Good.'}") in
  let w :=
    foldl Session.perform Sample.stored_data
      [ Session.Start e (js "job-1");
        Session.Respond e (js "job-1") (js "uuid-1") (Sample.text "I like it.");
        Session.End e (js "job-1") (js "uuid-1") ] in
  Forall Session.well_formed (interviews Sample.stored_data)
  /\ Forall Session.well_formed (interviews w).
Proof.
  intros e w.
  assert (Forall Session.well_formed (interviews Sample.stored_data)) as H0
    by apply Forall_nil_2.
  split; [exact H0|].
  exact (proj1 interview_invariant Sample.stored_data _ H0).
Defined.

(** An answer to the session of the sample, which is complete. *)
Lemma respond_after_complete_witness :
  let e := Sample.outside [] in
  (Interview.find_session (js "job-1") (js "session-1")
     (interviews Sample.interview_data) = Some (0, Sample.finished)
   /\ Session.complete Sample.finished = true)
  /\ Interview.respond e (js "job-1") (js "session-1")
       (Sample.text "I led a team of 5 engineers.") Sample.interview_data
     = (Failure 400 (js "This interview session is already complete") None,
        {| stored := Sample.interview_data; model_calls := 0 |}).
Proof.
  intros e.
  assert (Interview.find_session (js "job-1") (js "session-1")
            (interviews Sample.interview_data) = Some (0, Sample.finished))
    as Hfind by (vm_compute; reflexivity).
  assert (Session.complete Sample.finished = true) as Hdone
    by (vm_compute; reflexivity).
  split; [by split|].
  apply (proj1 (proj2 (respond_after_complete e (js "job-1") (js "session-1")
                         (Sample.text "I led a team of 5 engineers.")
                         Sample.interview_data 0 Sample.finished Hfind Hdone))
           (js "I led a team of 5 engineers.") eq_refl).
  vm_compute. discriminate.
Defined.

(** A reply that is not JSON. *)
Lemma failure_writes_nothing_witness :
  let e := Sample.outside (js "I cannot help with that.") in
  let out := Artifacts.tailor e (js "job-1") Sample.stored_data in
  is_success out.1 = false /\ stored out.2 = Sample.stored_data.
Proof.
  intros e out.
  assert (is_success out.1 = false) as Hr by (vm_compute; reflexivity).
  split; [exact Hr|].
  exact (proj1 (failure_writes_nothing e (js "job-1") [] VUndef
                  Sample.stored_data) out.1 out.2
           (surjective_pairing out) Hr).
Defined.


(* ======================================================================== *)
(** * Further properties *)

(** ** The repair pass over a whole document *)

(** X1. On a document made of paragraphs with text between them, in which
    paragraphs begin where the document says and nowhere else, the repair
    pass finds exactly the document's paragraphs, in their order, and its
    result is the document without the paragraphs whose visible text is made
    of separators around something other than white space: every other
    paragraph and all the text between the paragraphs stay where they are. *)
Theorem repair_takes_out_exactly (lead : jsstring)
  (segments : list (jsstring * jsstring)) :
  Layout.well_formed lead segments = true ->
  Docx.paragraphs (Layout.text lead segments) = map fst segments
  /\ Docx.repair (Layout.text lead segments)
     = Layout.text lead (Layout.kept segments).
Proof.
  intros H. split; [by apply paragraphs_layout|by apply repair_layout].
Qed.

(** X2. On such a document the repair pass is idempotent: a second pass over
    its result changes nothing. *)
Theorem repair_idempotent (lead : jsstring)
  (segments : list (jsstring * jsstring)) :
  Layout.well_formed lead segments = true ->
  Docx.repair (Docx.repair (Layout.text lead segments))
  = Docx.repair (Layout.text lead segments).
Proof.
  intros H. rewrite (repair_layout lead segments H).
  destruct (kept_layout lead segments H) as (lead' & segs' & -> & Hw & Hk).
  by rewrite (repair_layout lead' segs' Hw), (kept_all segs' Hk).
Qed.

(** ** What is answered and written *)

Section WireFacts.

Implicit Types (o : obj) (k : jsstring) (v : value).

Lemma written_member o k :
  Js.member (Wire.written (VObj o)) k = Wire.written (Js.member (VObj o) k).
Proof.
  cbn [Wire.written]. rewrite !member_obj, lookup_omap.
  destruct (o !! k) as [x|]; [|done]. cbn.
  by destruct (Wire.written x).
Qed.

Lemma written_finite (m e : Z) :
  Wire.overflows m e = false -> Wire.written (VNum m e) = VNum m e.
Proof. intros H. cbn. by rewrite H. Qed.

Lemma written_infinite (m e : Z) :
  Wire.overflows m e = true -> Wire.written (VNum m e) = VNull.
Proof. intros H. cbn. by rewrite H. Qed.

End WireFacts.

(** ** The job list *)

#[local] Arguments Jobs.find_index : simpl never.
#[local] Arguments Jobs.has_id : simpl never.
#[local] Arguments Js.spread : simpl never.

Section JobFacts.

Implicit Types (e : env) (id k : jsstring) (body : value) (w : world)
  (j job : obj) (l : list obj).

Lemma assign_nil (o : obj) : Js.assign [] o = o.
Proof. done. Qed.

Lemma member_insert (o : obj) k k' (v : value) :
  Js.member (VObj (<[k := v]> o)) k'
  = if bool_decide (k = k') then v else Js.member (VObj o) k'.
Proof.
  rewrite !member_obj. case_bool_decide as H.
  - subst. by rewrite lookup_insert_eq.
  - by rewrite lookup_insert_ne.
Qed.

Lemma member_insert_eq (o : obj) k (v : value) :
  Js.member (VObj (<[k := v]> o)) k = v.
Proof. by rewrite member_insert, bool_decide_eq_true_2. Qed.

Lemma member_insert_ne (o : obj) k k' (v : value) :
  k <> k' -> Js.member (VObj (<[k := v]> o)) k' = Js.member (VObj o) k'.
Proof. intros H. by rewrite member_insert, bool_decide_eq_false_2. Qed.

Lemma member_spread (o : obj) body k :
  Js.member (VObj (Js.spread body o)) k
  = match Js.own_properties body !! k with
    | Some v => v
    | None => Js.member (VObj o) k
    end.
Proof.
  rewrite !member_obj. unfold Js.spread. rewrite lookup_union.
  destruct (Js.own_properties body !! k), (o !! k); done.
Qed.

Lemma find_index_spec id l i j :
  Jobs.find_index id l = Some (i, j) ->
  l !! i = Some j /\ Jobs.has_id id j = true
  /\ forall i' j', l !! i' = Some j' -> i' < i -> Jobs.has_id id j' = false.
Proof.
  unfold Jobs.find_index. intros (H1 & H2 & H3)%list_find_Some.
  split; [done|]. split; [by destruct (Jobs.has_id id j)|].
  intros i' j' Hj Hlt. specialize (H3 i' j' Hj Hlt).
  destruct (Jobs.has_id id j'); [by destruct H3|done].
Qed.

Lemma find_index_None id l :
  Jobs.find_index id l = None <->
  forallb (fun j => negb (Jobs.has_id id j)) l = true.
Proof.
  unfold Jobs.find_index. rewrite list_find_None, forallb_forall, Forall_forall.
  split; intros H j Hj.
  - apply list_elem_of_In in Hj. specialize (H j Hj).
    destruct (Jobs.has_id id j); [by destruct H|done].
  - apply list_elem_of_In in Hj. specialize (H j Hj).
    intros Ht. by destruct (Jobs.has_id id j).
Qed.

Lemma has_id_member id j :
  Jobs.has_id id j = true <-> Js.member (VObj j) (js "id") = VStr id.
Proof.
  unfold Jobs.has_id, Js.is_str.
  destruct (Js.member (VObj j) (js "id")); try (split; done).
  rewrite bool_decide_eq_true. split; congruence.
Qed.

Lemma find_index_insert id l i j j' :
  Jobs.find_index id l = Some (i, j) -> Jobs.has_id id j' = true ->
  Jobs.find_index id (<[i := j']> l) = Some (i, j').
Proof.
  intros (Hi & Hj & Hmin)%find_index_spec Hj'.
  apply list_find_Some. split; [|split].
  - apply list_lookup_insert_eq. by apply lookup_lt_Some in Hi.
  - by rewrite Hj'.
  - intros i' y Hy Hlt. rewrite list_lookup_insert_ne in Hy by lia.
    rewrite (Hmin i' y Hy Hlt). by intros [].
Qed.

Lemma find_index_app_new id l j :
  Jobs.find_index id l = None -> Jobs.has_id id j = true ->
  Jobs.find_index id (l ++ [j]) = Some (length l, j).
Proof.
  intros Hnone Hj. apply list_find_Some. split; [|split].
  - by rewrite lookup_app_r, Nat.sub_diag.
  - by rewrite Hj.
  - intros i' y Hy Hlt. rewrite lookup_app_l in Hy by done.
    unfold Jobs.find_index in Hnone. rewrite list_find_None, Forall_forall in Hnone.
    apply Hnone. by eapply list_elem_of_lookup_2.
Qed.

Lemma set_jobs_same w : set_jobs (jobs w) w = w.
Proof. by destruct w. Qed.

Lemma filter_length_eq {A} (f : A -> bool) (xs : list A) :
  length (List.filter f xs) = length xs -> List.filter f xs = xs.
Proof.
  induction xs as [|x xs IH]; [done|]. simpl.
  pose proof (List.filter_length_le f xs) as Hle.
  destruct (f x); simpl; intros H; [f_equal; apply IH|]; lia.
Qed.

Lemma filter_length_all {A} (f : A -> bool) (xs : list A) :
  forallb f xs = true -> List.filter f xs = xs.
Proof.
  induction xs as [|x xs IH]; [done|]. simpl.
  intros [Hx Hxs]%andb_true_iff. rewrite Hx. f_equal. by apply IH.
Qed.

Lemma filter_all_length {A} (f : A -> bool) (xs : list A) :
  length (List.filter f xs) = length xs -> forallb f xs = true.
Proof.
  intros H%filter_length_eq. rewrite <- H.
  apply forallb_forall. intros x Hx. by apply List.filter_In in Hx as [_ Hx].
Qed.

End JobFacts.

(** X3. [POST /api/jobs] puts exactly one job at the end of the list and
    leaves the earlier ones as they are. As the answer and the file hold the
    job ([Wire.written]), its [createdAt] and [updatedAt] are the server's,
    whatever the body says, and every other property of the body is there as
    [JSON.stringify] writes the body's value: the value itself, but [null]
    for a number beyond the range of doubles. When the body has no property
    [id] the job gets the fresh UUID, and is then the job that id finds if
    no earlier job had it. *)
Theorem create_appends_one (e : env) (body : value) (w : world) :
  exists job,
    Jobs.create e body w
    = (Success 201 job,
       {| stored := set_jobs (jobs w ++ [job]) w; model_calls := 0 |})
    /\ Js.member (Wire.written (VObj job)) (js "createdAt")
       = VStr (now_created e)
    /\ Js.member (Wire.written (VObj job)) (js "updatedAt") = VStr (now e)
    /\ (forall k, k <> js "createdAt" -> k <> js "updatedAt" ->
         forall v, Js.own_properties body !! k = Some v ->
         Js.member (Wire.written (VObj job)) k = Wire.written v)
    /\ (Js.own_properties body !! js "id" = None ->
         Js.member (Wire.written (VObj job)) (js "id") = VStr (uuid_record e)
         /\ (Jobs.find_index (uuid_record e) (jobs w) = None ->
             Jobs.find_index (uuid_record e) (jobs w ++ [job])
             = Some (length (jobs w), job))).
Proof.
  eexists. split; [reflexivity|].
  unfold Js.assign. cbn [foldl fst snd].
  assert (Hca : js "createdAt" <> js "updatedAt") by (by apply key_ne).
  assert (Hid : js "createdAt" <> js "id") by (by apply key_ne).
  assert (Hid' : js "updatedAt" <> js "id") by (by apply key_ne).
  rewrite !written_member.
  split; [|split; [|split]].
  - by rewrite member_insert_ne, member_insert_eq.
  - by rewrite member_insert_eq.
  - intros k Hk1 Hk2 v Hv.
    by rewrite written_member, !member_insert_ne, member_spread, Hv.
  - intros Hb.
    assert (Hnew : Js.member
      (VObj (<[js "updatedAt" := VStr (now e)]>
               (<[js "createdAt" := VStr (now_created e)]>
                  (Js.spread body (<[js "id" := VStr (uuid_record e)]> ∅)))))
      (js "id") = VStr (uuid_record e)).
    { by rewrite !member_insert_ne, member_spread, Hb, member_insert_eq. }
    split; [by rewrite ?written_member, Hnew|].
    intros Hfresh. apply find_index_app_new; [done|].
    by apply has_id_member.
Qed.

(** X4. [PUT /api/jobs/:id] changes the first job of that id and nothing
    else: the number of jobs and every other job stay, and the same request
    finds the job again. As the answer and the file hold the job
    ([Wire.written]), it keeps its [id] whatever the body says, its
    [updatedAt] is the time of the request, and every other property is the
    body's, as [JSON.stringify] writes it (the value itself, but [null] for
    a number beyond the range of doubles), where the body has it, and the
    job's own otherwise. When no job has the id the answer is 404 and
    nothing is written. *)
Theorem update_keeps_identity (e : env) (id : jsstring) (body : value)
  (w : world) :
  match Jobs.find_index id (jobs w) with
  | None =>
      Jobs.update e id body w
      = (Failure 404 (js "Job not found") None,
         {| stored := w; model_calls := 0 |})
  | Some (i, job) =>
      exists job',
        Jobs.update e id body w
        = (Success 200 job',
           {| stored := set_jobs (<[i := job']> (jobs w)) w;
              model_calls := 0 |})
        /\ length (<[i := job']> (jobs w)) = length (jobs w)
        /\ (forall i', i' <> i -> <[i := job']> (jobs w) !! i' = jobs w !! i')
        /\ Jobs.find_index id (<[i := job']> (jobs w)) = Some (i, job')
        /\ Js.member (Wire.written (VObj job')) (js "id") = VStr id
        /\ Js.member (Wire.written (VObj job')) (js "updatedAt")
           = VStr (now e)
        /\ (forall k, k <> js "id" -> k <> js "updatedAt" ->
             Js.member (Wire.written (VObj job')) k
             = match Js.own_properties body !! k with
               | Some v => Wire.written v
               | None => Js.member (Wire.written (VObj job)) k
               end)
  end.
Proof.
  destruct (Jobs.find_index id (jobs w)) as [[i job]|] eqn:Hfind.
  - pose proof (find_index_spec _ _ _ _ Hfind) as (Hi & Hjob & _).
    apply has_id_member in Hjob.
    assert (Hnew : Js.member
      (VObj (Js.assign [ (js "id", Js.member (VObj job) (js "id"));
                         (js "updatedAt", VStr (now e)) ]
                       (Js.spread body job))) (js "id") = VStr id).
    { unfold Js.assign. cbn [foldl fst snd].
      rewrite member_insert_ne, member_insert_eq; [done|by apply key_ne]. }
    eexists. split.
    { unfold Jobs.update, handle, mbind, M_bind, load, save, mret, M_ret.
      cbn [stored]. rewrite Hfind. reflexivity. }
    split; [by rewrite length_insert|].
    split; [by intros i' Hne; rewrite list_lookup_insert_ne|].
    split; [by apply (find_index_insert _ _ _ job), has_id_member|].
    split; [by rewrite ?written_member, Hnew|].
    unfold Js.assign. cbn [foldl fst snd]. split.
    + by rewrite written_member, member_insert_eq.
    + intros k Hk1 Hk2.
      rewrite !written_member, !member_insert_ne, member_spread by done.
      by destruct (Js.own_properties body !! k).
  - unfold Jobs.update, handle, mbind, M_bind, load, save, mret, M_ret,
      respond_with, lift. cbn [stored]. by rewrite Hfind.
Qed.

(** X5. [DELETE /api/jobs/:id] succeeds exactly when some job has the id, and
    then takes out every job of that id and keeps the others in their order;
    afterwards no job has the id, so the same request again is answered 404;
    the resumes, cover letters and interview sessions of the job stay
    stored. *)
Theorem remove_takes_out_every_job (id : jsstring) (w : world) :
  let kept := List.filter (fun j => negb (Jobs.has_id id j)) (jobs w) in
  Jobs.remove id w
  = (match Jobs.find_index id (jobs w) with
     | Some _ => Success 200 ()
     | None => Failure 404 (js "Job not found") None
     end,
     {| stored := set_jobs kept w; model_calls := 0 |})
  /\ (Jobs.find_index id (jobs w) = None -> set_jobs kept w = w)
  /\ Jobs.find_index id kept = None
  /\ Jobs.remove id (set_jobs kept w)
     = (Failure 404 (js "Job not found") None,
        {| stored := set_jobs kept w; model_calls := 0 |})
  /\ resumes (set_jobs kept w) = resumes w
  /\ coverLetters (set_jobs kept w) = coverLetters w
  /\ interviews (set_jobs kept w) = interviews w.
Proof.
  intros kept.
  assert (Hkept : Jobs.find_index id kept = None).
  { apply find_index_None, forallb_forall. intros j Hj.
    by apply List.filter_In in Hj as [_ Hj]. }
  assert (Hsame : Jobs.find_index id (jobs w) = None -> kept = jobs w).
  { intros H. apply filter_length_all. by apply find_index_None. }
  assert (Hrun : forall w', jobs w' = kept ->
    Jobs.remove id w'
    = (Failure 404 (js "Job not found") None,
       {| stored := w'; model_calls := 0 |})).
  { intros w' Hw'. unfold Jobs.remove, handle, mbind, M_bind, load, save, mret,
      M_ret, respond_with, lift. cbn [stored]. rewrite Hw'.
    rewrite (filter_length_all _ kept), bool_decide_eq_true_2; [done..|].
    by apply find_index_None. }
  split; [|split; [|split; [done|split; [|done]]]].
  - destruct (Jobs.find_index id (jobs w)) as [[i j]|] eqn:Hfind.
    + unfold Jobs.remove, handle, mbind, M_bind, load, save, mret, M_ret,
        respond_with, lift. cbn [stored]. fold kept.
      rewrite bool_decide_eq_false_2; [done|].
      intros Hlen. apply filter_all_length, find_index_None in Hlen. congruence.
    + rewrite (Hsame eq_refl), set_jobs_same. apply Hrun. by rewrite Hsame.
  - intros H. by rewrite (Hsame H), set_jobs_same.
  - by apply Hrun.
Qed.

(** X6. [PUT /api/jobs/:id/star] writes the negation of the star as a boolean:
    a job that has no [starred] property gets [true]; two requests give the
    star the job had, as a boolean; and no property other than [starred] and
    [updatedAt] changes. *)
Theorem star_twice (e1 e2 : env) (id : jsstring) (w : world) (i : nat)
  (job : obj) :
  Jobs.find_index id (jobs w) = Some (i, job) ->
  exists job1 job2 w1,
    Jobs.star e1 id w
    = (Success 200 job1, {| stored := w1; model_calls := 0 |})
    /\ Jobs.star e2 id w1
       = (Success 200 job2,
          {| stored := set_jobs (<[i := job2]> (jobs w)) w; model_calls := 0 |})
    /\ Js.member (VObj job1) (js "starred")
       = VBool (negb (Js.truthy (Js.member (VObj job) (js "starred"))))
    /\ Js.member (VObj job2) (js "starred")
       = VBool (Js.truthy (Js.member (VObj job) (js "starred")))
    /\ Js.member (VObj job2) (js "updatedAt") = VStr (now e2)
    /\ (forall k, k <> js "starred" -> k <> js "updatedAt" ->
         Js.member (VObj job2) k = Js.member (VObj job) k).
Proof.
  intros Hfind.
  pose proof (find_index_spec _ _ _ _ Hfind) as (Hi & Hjob & _).
  set (toggle := fun (e : env) (j : obj) =>
    Js.assign
      [ (js "starred",
         VBool (negb (Js.truthy (Js.member (VObj j) (js "starred")))));
        (js "updatedAt", VStr (now e)) ] j).
  assert (Hsu : js "starred" <> js "updatedAt") by (by apply key_ne).
  assert (Hsi : js "starred" <> js "id") by (by apply key_ne).
  assert (Hui : js "updatedAt" <> js "id") by (by apply key_ne).
  assert (Hid : forall e j, Jobs.has_id id j = true ->
            Jobs.has_id id (toggle e j) = true).
  { intros e j Hj. apply has_id_member. apply has_id_member in Hj.
    unfold toggle, Js.assign. cbn [foldl fst snd].
    by rewrite !member_insert_ne. }
  assert (Hstar : forall e j,
            Js.member (VObj (toggle e j)) (js "starred")
            = VBool (negb (Js.truthy (Js.member (VObj j) (js "starred"))))).
  { intros e j. unfold toggle, Js.assign. cbn [foldl fst snd].
    by rewrite member_insert_ne, member_insert_eq. }
  assert (Hrun : forall e w' j, Jobs.find_index id (jobs w') = Some (i, j) ->
    Jobs.star e id w'
    = (Success 200 (toggle e j),
       {| stored := set_jobs (<[i := toggle e j]> (jobs w')) w';
          model_calls := 0 |})).
  { intros e w' j Hw'. unfold Jobs.star, handle, mbind, M_bind, load, save,
      mret, M_ret. cbn [stored]. by rewrite Hw'. }
  exists (toggle e1 job), (toggle e2 (toggle e1 job)), 
    (set_jobs (<[i := toggle e1 job]> (jobs w)) w).
  split; [by apply Hrun|]. split.
  { rewrite (Hrun e2 _ (toggle e1 job)).
    - cbn [set_jobs jobs]. rewrite list_insert_insert_eq. by destruct w.
    - cbn [set_jobs jobs]. apply (find_index_insert _ _ _ job); [done|].
      by apply Hid. }
  split; [apply Hstar|]. split.
  { rewrite !Hstar. unfold Js.truthy at 1. by rewrite negb_involutive. }
  unfold toggle at 1 3, Js.assign. cbn [foldl fst snd]. split.
  - by rewrite member_insert_eq.
  - intros k Hk1 Hk2. unfold toggle, Js.assign. cbn [foldl fst snd].
    by rewrite !member_insert_ne.
Qed.


(** X7. [POST /api/jobs/:id/match] answers the analysis as the model gave it
    (so that the client reads [Wire.written] of it) and writes its score to
    the first job of that id: the score is [matchScore], or [score] when
    [matchScore] is missing or [null]; a score of zero, [false] or the empty
    text is written like any other, and a score beyond the range of doubles
    is written as [null], as [JSON.stringify] does; when both are missing
    nothing is written. The write changes [matchScore] and [updatedAt] of
    that job only. A reply that is the JSON text [null] is answered 500 with
    nothing written. *)
Theorem match_score_persisted (e : env) (id : jsstring) (w : world) (i : nat)
  (job : obj) (result : jsstring) (parsed : value) :
  Jobs.find_index id (jobs w) = Some (i, job) ->
  model_reply e = Some result ->
  Extractor.extract result = Extractor.Parsed parsed ->
  let score :=
    Jobs.coalesce (Js.member parsed (js "matchScore"))
                  (Js.member parsed (js "score")) in
  if Js.nullish parsed then
    Jobs.match_analysis e id w
    = (Failure 500 (js "Failed to generate match analysis") None,
       {| stored := w; model_calls := 1 |})
  else if Js.nullish score then
    Jobs.match_analysis e id w
    = (Success 200 parsed, {| stored := w; model_calls := 1 |})
  else
    exists job',
      Jobs.match_analysis e id w
      = (Success 200 parsed,
         {| stored := set_jobs (<[i := job']> (jobs w)) w; model_calls := 1 |})
      /\ Js.member (Wire.written (VObj job')) (js "matchScore")
         = Wire.written score
      /\ Js.member (Wire.written (VObj job')) (js "updatedAt") = VStr (now e)
      /\ (forall k, k <> js "matchScore" -> k <> js "updatedAt" ->
          Js.member (Wire.written (VObj job')) k
          = Js.member (Wire.written (VObj job)) k)
      /\ (forall i', i' <> i -> <[i := job']> (jobs w) !! i' = jobs w !! i').
Proof.
  intros Hfind Hreply Hparsed score.
  assert (Hmu : js "matchScore" <> js "updatedAt") by (by apply key_ne).
  destruct (Js.nullish parsed) eqn:Hnull.
  { unfold Jobs.match_analysis, handle, mbind, M_bind, load, save, mret, M_ret,
      call_model, lift, Extractor.extract_or_fail, Js.get, respond_with.
    cbn [stored model_calls]. by rewrite Hfind, Hreply, Hparsed, Hnull. }
  assert (Hrun : Jobs.match_analysis e id w
    = (Success 200 parsed,
       {| stored :=
            if Js.nullish score then w
            else set_jobs
                   (<[i := Js.assign [ (js "matchScore", score);
                                       (js "updatedAt", VStr (now e)) ] job]>
                      (jobs w)) w;
          model_calls := 1 |})).
  { unfold Jobs.match_analysis, handle, mbind, M_bind, load, save, mret, M_ret,
      call_model, lift, Extractor.extract_or_fail, Js.get, respond_with.
    cbn [stored model_calls]. rewrite Hfind, Hreply, Hparsed, Hnull.
    subst score. unfold Jobs.coalesce.
    destruct (Js.nullish (Js.member parsed (js "matchScore"))) eqn:Hm;
      [destruct (Js.nullish (Js.member parsed (js "score"))) eqn:Hs|];
      rewrite ?Hnull, ?Hm, ?Hs; cbn [negb Js.nullish]; reflexivity. }
  rewrite Hrun. destruct (Js.nullish score) eqn:Hs; [done|].
  eexists. split; [reflexivity|].
  unfold Js.assign. cbn [foldl fst snd].
  split; [by rewrite written_member, member_insert_ne, member_insert_eq|].
  split; [by rewrite written_member, member_insert_eq|].
  split; [by intros k ??; rewrite !written_member, !member_insert_ne|].
  by intros i' ?; rewrite list_lookup_insert_ne.
Qed.

(** ** Reading the artifacts back *)

Section ShelfFacts.

Implicit Types (e : env) (jobId other : jsstring) (w : world) (a r : obj)
  (entries : list obj).

Lemma of_job_member jobId r :
  Js.is_str (Js.member (VObj r) (js "jobId")) jobId = true
  <-> Js.member (VObj r) (js "jobId") = VStr jobId.
Proof.
  unfold Js.is_str. destruct (Js.member (VObj r) (js "jobId"));
    try (split; done).
  rewrite bool_decide_eq_true. split; congruence.
Qed.

Lemma find_existing_spec jobId entries i r :
  Artifacts.find_existing jobId entries = Some (i, r) <->
  entries !! i = Some r
  /\ Js.member (VObj r) (js "jobId") = VStr jobId
  /\ forall i' r', entries !! i' = Some r' -> i' < i ->
       Js.member (VObj r') (js "jobId") <> VStr jobId.
Proof.
  unfold Artifacts.find_existing. rewrite list_find_Some.
  split; intros (H1 & H2 & H3); (split; [done|]); split.
  - apply of_job_member. by destruct (Js.is_str _ _).
  - intros i' r' Hr' Hlt Hm. apply of_job_member in Hm.
    specialize (H3 i' r' Hr' Hlt). by rewrite Hm in H3.
  - apply of_job_member in H2. by rewrite H2.
  - intros i' r' Hr' Hlt Hm. apply (H3 i' r' Hr' Hlt).
    apply of_job_member. by destruct (Js.is_str _ _).
Qed.

Lemma find_existing_none jobId entries :
  Artifacts.find_existing jobId entries = None <->
  forall i r, entries !! i = Some r ->
    Js.member (VObj r) (js "jobId") <> VStr jobId.
Proof.
  unfold Artifacts.find_existing. rewrite list_find_None, Forall_lookup.
  split; intros H i r Hr.
  - intros Hm. apply (H i r Hr). apply of_job_member in Hm. by rewrite Hm.
  - intros Hm. apply (H i r Hr). apply of_job_member.
    by destruct (Js.is_str _ _).
Qed.



Lemma one_per_job_put jobId entries a :
  Js.member (VObj a) (js "jobId") = VStr jobId ->
  Shelf.one_per_job entries ->
  Shelf.one_per_job
    (Artifacts.put (Artifacts.find_existing jobId entries) a entries).
Proof.
  intros Ha Hone.
  destruct (Artifacts.find_existing jobId entries) as [[i r]|] eqn:E;
    unfold Artifacts.put; intros j k k' x x' Hx Hx' Hj Hj'.
  - apply find_existing_spec in E as (Hi & Hr & _).
    pose proof (lookup_lt_Some _ _ _ Hi) as Hlt.
    destruct (decide (k = i)) as [->|Hk], (decide (k' = i)) as [->|Hk'];
      [done|..].
    + rewrite list_lookup_insert_eq in Hx by done.
      rewrite list_lookup_insert_ne in Hx' by done.
      injection Hx as <-. assert (j = jobId) as -> by congruence.
      by apply (Hone jobId i k' r x').
    + rewrite list_lookup_insert_ne in Hx by done.
      rewrite list_lookup_insert_eq in Hx' by done.
      injection Hx' as <-. assert (j = jobId) as -> by congruence.
      by apply (Hone jobId k i x r).
    + rewrite list_lookup_insert_ne in Hx, Hx' by done.
      by apply (Hone j k k' x x').
  - pose proof (proj1 (find_existing_none jobId entries) E) as Hall.
    apply lookup_app_Some in Hx as [Hx|[Hlen Hx]];
      apply lookup_app_Some in Hx' as [Hx'|[Hlen' Hx']].
    + by apply (Hone j k k' x x').
    + apply list_lookup_singleton_Some in Hx' as [_ <-].
      assert (j = jobId) as -> by congruence. by destruct (Hall k x).
    + apply list_lookup_singleton_Some in Hx as [_ <-].
      assert (j = jobId) as -> by congruence. by destruct (Hall k' x').
    + apply list_lookup_singleton_Some in Hx as [? _].
      apply list_lookup_singleton_Some in Hx' as [? _]. lia.
Qed.



End ShelfFacts.


(** X9. One artifact per job: when every job has at most one stored resume,
    it still has after a successful generation whose artifact carries the
    job's id as [jobId]; likewise for cover letters. *)
Theorem one_artifact_per_job (e : env) (jobId : jsstring) (w : world)
  (a : obj) (st : state) :
  Js.member (VObj a) (js "jobId") = VStr jobId ->
  (Artifacts.tailor e jobId w = (Success 200 a, st) ->
   Shelf.one_per_job (resumes w) -> Shelf.one_per_job (resumes (stored st)))
  /\ (Artifacts.generate_cover_letter e jobId w = (Success 200 a, st) ->
      Shelf.one_per_job (coverLetters w) ->
      Shelf.one_per_job (coverLetters (stored st))).
Proof.
  intros Ha. split.
  - intros (job & result & parsed & docx & _ & _ & _ & _ & Hr & _)
      %tailor_success Hone.
    rewrite Hr. by apply one_per_job_put.
  - intros (job & result & parsed & docx & _ & _ & _ & _ & Hc & _)
      %generate_cover_letter_success Hone.
    rewrite Hc. by apply one_per_job_put.
Qed.

Section ListingFacts.

Implicit Types (w : world) (jobId : jsstring) (s : session)
  (ss : list session).

Lemma filter_insert_other {A} (f : A -> bool) (xs : list A) i x y :
  xs !! i = Some x -> f x = false -> f y = false ->
  List.filter f (<[i := y]> xs) = List.filter f xs.
Proof.
  revert i. induction xs as [|a xs IH]; intros i Hi Hx Hy; [done|].
  destruct i as [|i]; cbn in Hi.
  - simplify_eq. change (<[0 := y]> (x :: xs)) with (y :: xs).
    cbn [List.filter]. by rewrite Hx, Hy.
  - change (<[S i := y]> (a :: xs)) with (a :: <[i := y]> xs).
    cbn [List.filter]. by rewrite (IH i).
Qed.

Lemma find_session_job jobId id ss i s :
  Interview.find_session jobId id ss = Some (i, s) ->
  ss !! i = Some s /\ session_jobId s = jobId /\ session_id s = id.
Proof.
  unfold Interview.find_session. intros (H1 & [H2 H3] & _)%list_find_Some.
  done.
Qed.

Lemma perform_sessions (r : Session.request) w :
  interviews (Session.perform w r) = interviews w
  \/ (exists s, interviews (Session.perform w r) = interviews w ++ [s]
               /\ session_jobId s = Shelf.job_of r)
  \/ (exists i s s', interviews w !! i = Some s
         /\ interviews (Session.perform w r) = <[i := s']> (interviews w)
         /\ session_jobId s = Shelf.job_of r
         /\ session_jobId s' = Shelf.job_of r
         /\ session_id s' = session_id s).
Proof.
  destruct r as [e jobId|e jobId id answer|e jobId id]; cbn [Session.perform].
  - destruct (start_cases e jobId w)
      as [(st & er & raw & [-> | ->])|(q & qt & tip & ->)];
      [by left..|]. right; left. by eexists.
  - destruct (respond_cases e jobId id answer w)
      as [(st & er & raw & [-> | ->])|(i & s & t & q & f & qt & tip & Hf & _ & _ & ->)];
      [by left..|]. right; right.
    apply find_session_job in Hf as (Hi & Hj & _). by eexists i, s, _.
  - destruct (end_cases e jobId id w)
      as [(st & er & raw & [-> | ->])|(i & s & parsed & Hf & ->)];
      [by left..|]. right; right.
    apply find_session_job in Hf as (Hi & Hj & _). by eexists i, s, _.
Qed.

End ListingFacts.

(** X10. No request of the interview routes takes a session away, moves one or
    changes its id or its job: the ids of the stored sessions afterwards are
    the ids from before, in their order, with at most one new id at the end.
    And what the list route answers for a job is not changed by a request
    about another job. *)
Theorem sessions_stay_listed (r : Session.request) (w : world) :
  (exists new,
     map session_id (interviews (Session.perform w r))
     = map session_id (interviews w) ++ new
     /\ length new <= 1)
  /\ forall jobId, jobId <> Shelf.job_of r ->
       Shelf.list_interviews jobId (Session.perform w r)
       = (Success 200 (Shelf.listed jobId w),
          {| stored := Session.perform w r; model_calls := 0 |}).
Proof.
  assert (Hlist : forall jobId w',
    Shelf.list_interviews jobId w'
    = (Success 200 (Shelf.listed jobId w'),
       {| stored := w'; model_calls := 0 |})) by done.
  destruct (perform_sessions r w)
    as [H|[(s & H & Hs)|(i & s & s' & Hi & H & Hs & Hs' & Hid)]].
  - split; [exists []; rewrite H, app_nil_r; split; [done|cbn; lia]|].
    intros jobId Hne. rewrite Hlist. unfold Shelf.listed. by rewrite H.
  - split; [exists [session_id s]; rewrite H, map_app; split; [done|cbn; lia]|].
    intros jobId Hne. rewrite Hlist. unfold Shelf.listed.
    rewrite H, List.filter_app. cbn [List.filter].
    rewrite bool_decide_eq_false_2 by congruence. by rewrite app_nil_r.
  - split.
    + exists []. rewrite H, app_nil_r. split; [|cbn; lia].
      rewrite list_fmap_insert, Hid.
      apply list_insert_id. by rewrite list_lookup_fmap, Hi.
    + intros jobId Hne. rewrite Hlist. unfold Shelf.listed. rewrite H.
      f_equal. f_equal.
      apply (filter_insert_other _ _ _ s); [done|..];
        apply bool_decide_eq_false_2; congruence.
Qed.

(** ** [JSON.stringify] and [JSON.parse] *)

Section NumberText.

Lemma is_digit_small (n : N) : (n < 10)%N -> Json.is_digit (48 + n) = true.
Proof.
  intros H. unfold Json.is_digit. apply andb_true_iff.
  split; apply N.leb_le; lia.
Qed.

Lemma digits_spec (fuel : nat) (n : N) (acc : jsstring) :
  (n < 2 ^ N.of_nat fuel)%N -> (0 < fuel)%nat ->
  exists D,
    Str.digits fuel n acc = D ++ acc
    /\ forallb Json.is_digit D = true
    /\ Json.digits_value D = Z.of_N n
    /\ match D with
       | [] => False
       | d :: D' => if (n =? 0)%N then D' = [] else d <> 48%N
       end.
Proof.
  revert n acc. induction fuel as [|f IH]; intros n acc Hn Hf; [lia|].
  cbn [Str.digits]. destruct (N.ltb_spec n 10) as [Hlt|Hge].
  - exists [(48 + n mod 10)%N]. rewrite N.mod_small by done.
    split; [done|]. split.
    { cbn [forallb]. by rewrite is_digit_small. }
    split.
    { unfold Json.digits_value. cbn [fold_left]. lia. }
    destruct (N.eqb_spec n 0); [done|lia].
  - assert (Hf' : (0 < f)%nat).
    { destruct f; [|lia]. cbn in Hn. lia. }
    assert (Hn' : (n / 10 < 2 ^ N.of_nat f)%N).
    { rewrite Nat2N.inj_succ, N.pow_succ_r' in Hn.
      apply N.Div0.div_lt_upper_bound. revert Hn.
      generalize (2 ^ N.of_nat f)%N. lia. }
    destruct (IH (n / 10)%N ((48 + n mod 10)%N :: acc) Hn' Hf')
      as (D & HD & Hdig & Hval & Hhd).
    exists (D ++ [(48 + n mod 10)%N]). rewrite HD, <- app_assoc.
    split; [done|]. split.
    { rewrite forallb_app, Hdig. cbn [forallb].
      rewrite is_digit_small; [done|]. apply N.mod_upper_bound. lia. }
    split.
    { unfold Json.digits_value in *. rewrite fold_left_app, Hval.
      cbn [fold_left]. pose proof (N.div_mod n 10 ltac:(lia)) as E.
      clear -E. set (q := (n / 10)%N) in *. set (r := (n mod 10)%N) in *.
      clearbody q r. lia. }
    destruct D as [|d D']; [done|]. cbn [app].
    assert (n / 10 <> 0)%N.
    { intros H0. apply N.div_small_iff in H0; lia. }
    destruct (N.eqb_spec n 0); [lia|].
    by destruct (N.eqb_spec (n / 10) 0).
Qed.

Lemma decimal_spec (n : N) :
  exists d D,
    Stringify.decimal n = d :: D
    /\ forallb Json.is_digit (d :: D) = true
    /\ Json.digits_value (d :: D) = Z.of_N n
    /\ (D = [] \/ d <> 48%N).
Proof.
  unfold Stringify.decimal.
  destruct (digits_spec (S (N.to_nat (N.log2 n))) n []) as (D & HD & H1 & H2 & H3).
  - rewrite Nat2N.inj_succ, N2Nat.id. destruct (N.eq_dec n 0%N) as [->|Hn]; [done|].
    apply N.log2_spec. lia.
  - lia.
  - rewrite app_nil_r in HD. destruct D as [|d D]; [done|].
    exists d, D. split; [done|]. split; [done|]. split; [done|].
    destruct (N.eqb_spec n 0); [by left|by right].
Qed.

Lemma span_digits (D r : jsstring) :
  forallb Json.is_digit D = true ->
  match r with [] => True | c :: _ => Json.is_digit c = false end ->
  Str.span Json.is_digit (D ++ r) = (D, r).
Proof.
  intros HD Hr. induction D as [|d D IH].
  - destruct r as [|c r]; cbn [app Str.span]; [done|]. by rewrite Hr.
  - cbn [app Str.span]. cbn [forallb] in HD. apply andb_true_iff in HD as [Hd HD].
    by rewrite Hd, IH.
Qed.

(** The text of an integer is read as that integer. *)
Lemma number_of_text (z : Z) :
  Json.number_of (Stringify.number_text z) = Some (z, 0%Z).
Proof.
  unfold Stringify.number_text.
  destruct (decimal_spec (Z.to_N (Z.abs z))) as (d & D & -> & Hdig & Hval & Hhd).
  assert (Hd : Json.is_digit d = true).
  { cbn [forallb] in Hdig. by apply andb_true_iff in Hdig as [? _]. }
  assert (Hd45 : d <> 45%N).
  { intros ->. done. }
  pose proof (span_digits (d :: D) [] Hdig I) as Hs.
  rewrite app_nil_r in Hs.
  assert (Hok : match d :: D with
                | [] => false
                | [_] => true
                | d' :: _ => negb (d' =? 48)%N
                end = true).
  { destruct Hhd as [->|Hne]; [done|]. destruct D; [done|].
    apply negb_true_iff. by apply N.eqb_neq. }
  assert (Hval' : Json.digits_value ((d :: D) ++ []) = Z.abs z).
  { rewrite app_nil_r, Hval. lia. }
  unfold Json.number_of. destruct (Z.ltb_spec z 0) as [Hneg|Hpos].
  - cbn [app]. rewrite Hs, Hok. cbn [andb length].
    rewrite bool_decide_eq_true_2 by reflexivity. rewrite Hval'.
    f_equal. f_equal; lia.
  - cbn [app].
    assert (Hm : match d :: D with
                 | 45%N :: r => (true, r)
                 | _ => (false, d :: D)
                 end = (false, d :: D)).
    { clear -Hd45. destruct d as [|p]; [done|].
      do 6 (destruct p as [p|p|]; try done). }
    rewrite Hm, Hs, Hok. cbn [andb length].
    rewrite bool_decide_eq_true_2 by reflexivity. rewrite Hval'.
    f_equal. f_equal; lia.
Qed.

End NumberText.

Section LexFacts.

Implicit Types (st : Json.lex_state) (c : N) (s rest acc : jsstring)
  (tok : Json.token).

Lemma lex_cons st c s :
  Json.lex st (c :: s)
  = '(ts, st') ← Json.lex_step st c; r ← Json.lex st' s; Some (ts ++ r).
Proof. done. Qed.

Lemma lex_silent st st' c s :
  Json.lex_step st c = Some ([], st') -> Json.lex st (c :: s) = Json.lex st' s.
Proof.
  intros H. rewrite lex_cons, H. cbn. by destruct (Json.lex st' s).
Qed.

Lemma lex_emit st c s tok :
  Json.lex_step st c = Some ([tok], Json.LStart) ->
  Json.lex st (c :: s) = ts ← Json.lex Json.LStart s; Some (tok :: ts).
Proof. intros H. by rewrite lex_cons, H. Qed.

Lemma lex_ws w s :
  forallb Json.is_ws w = true ->
  Json.lex Json.LStart (w ++ s) = Json.lex Json.LStart s.
Proof.
  induction w as [|c w IH]; [done|]. cbn [forallb app].
  intros [Hc Hw]%andb_true_iff. rewrite (lex_silent _ Json.LStart); [by apply IH|].
  cbn. unfold Json.lex_start. by rewrite Hc.
Qed.

Lemma boundary_cases rest :
  Stringify.boundary rest = true ->
  rest = [] \/ (exists r, rest = 44%N :: r) \/ (exists r, rest = 10%N :: r).
Proof.
  destruct rest as [|c r]; [by left|]. cbn. intros [H|H]%orb_true_iff.
  - apply N.eqb_eq in H as ->. right; left. by eexists.
  - apply N.eqb_eq in H as ->. right; right. by eexists.
Qed.

(** At the end of a number: the text read is a token, and the rest is read
    from the start. *)
Lemma lex_number_end acc rest tok :
  Json.number_token (rev acc) = Some tok ->
  Stringify.boundary rest = true ->
  Json.lex (Json.LNumber acc) rest
  = ts ← Json.lex Json.LStart rest; Some (tok :: ts).
Proof.
  intros Htok [->|[[r ->]|[r ->]]]%boundary_cases.
  - cbn. by rewrite Htok.
  - rewrite !lex_cons. cbn. rewrite Htok. cbn.
    by destruct (Json.lex Json.LStart r).
  - rewrite !lex_cons. cbn. rewrite Htok. cbn.
    by destruct (Json.lex Json.LStart r).
Qed.

Lemma lex_word_end acc rest tok :
  Json.word_token (rev acc) = Some tok ->
  Stringify.boundary rest = true ->
  Json.lex (Json.LWord acc) rest
  = ts ← Json.lex Json.LStart rest; Some (tok :: ts).
Proof.
  intros Htok [->|[[r ->]|[r ->]]]%boundary_cases.
  - cbn. by rewrite Htok.
  - rewrite !lex_cons. cbn. rewrite Htok. cbn.
    by destruct (Json.lex Json.LStart r).
  - rewrite !lex_cons. cbn. rewrite Htok. cbn.
    by destruct (Json.lex Json.LStart r).
Qed.

Lemma lex_number_run nums acc rest :
  forallb Json.is_number_char nums = true ->
  Json.lex (Json.LNumber acc) (nums ++ rest)
  = Json.lex (Json.LNumber (rev nums ++ acc)) rest.
Proof.
  revert acc. induction nums as [|c nums IH]; intros acc; [done|].
  cbn [forallb app]. intros [Hc Hn]%andb_true_iff.
  rewrite (lex_silent _ (Json.LNumber (c :: acc))).
  - rewrite IH by done. cbn [rev]. by rewrite <- app_assoc.
  - cbn. by rewrite Hc.
Qed.

Lemma digit_number_char c : Json.is_digit c = true -> Json.is_number_char c = true.
Proof. intros H. unfold Json.is_number_char. by rewrite H. Qed.

Lemma digits_number_chars D :
  forallb Json.is_digit D = true -> forallb Json.is_number_char D = true.
Proof.
  induction D as [|d D IH]; [done|]. cbn [forallb].
  intros [Hd HD]%andb_true_iff. by rewrite digit_number_char, IH.
Qed.

Lemma lex_start_digit c :
  Json.is_digit c = true ->
  Json.lex_start c = Some ([], Json.LNumber [c]).
Proof.
  intros H. unfold Json.lex_start.
  assert (Json.is_ws c = false) as ->.
  { unfold Json.is_digit, Json.is_ws in *. apply andb_true_iff in H as [H1 H2].
    apply N.leb_le in H1, H2.
    destruct (N.eqb_spec c 32), (N.eqb_spec c 9), (N.eqb_spec c 10),
      (N.eqb_spec c 13); try done; lia. }
  assert ((c =? 34)%N = false) as ->.
  { unfold Json.is_digit in H. apply andb_true_iff in H as [H1 H2].
    apply N.leb_le in H1, H2. apply N.eqb_neq. lia. }
  by rewrite H.
Qed.

(** The text of an integer is one number token. *)
Lemma lex_number (z : Z) rest :
  Stringify.boundary rest = true ->
  Json.lex Json.LStart (Stringify.number_text z ++ rest)
  = ts ← Json.lex Json.LStart rest; Some (Json.TNumber z 0 :: ts).
Proof.
  intros Hb. pose proof (number_of_text z) as Hnum.
  assert (Htok : Json.number_token (Stringify.number_text z)
                 = Some (Json.TNumber z 0)).
  { unfold Json.number_token. by rewrite Hnum. }
  clear Hnum. revert Htok. unfold Stringify.number_text.
  destruct (decimal_spec (Z.to_N (Z.abs z))) as (d & D & -> & Hdig & _).
  pose proof (digits_number_chars _ Hdig) as Hchars.
  destruct (z <? 0)%Z; cbn [app]; intros Htok.
  - change (45%N :: d :: D ++ rest) with (45%N :: (d :: D) ++ rest).
    rewrite (lex_silent _ (Json.LNumber [45%N])) by done.
    rewrite lex_number_run by done.
    apply lex_number_end; [|done].
    by rewrite rev_app_distr, rev_involutive.
  - rewrite (lex_silent _ (Json.LNumber [d])).
    2:{ cbn. apply lex_start_digit. cbn [forallb] in Hdig.
        by apply andb_true_iff in Hdig as [? _]. }
    cbn [forallb] in Hchars. apply andb_true_iff in Hchars as [_ Hchars].
    rewrite lex_number_run by done.
    apply lex_number_end; [|done].
    by rewrite rev_app_distr, rev_involutive.
Qed.

Lemma lex_null rest :
  Stringify.boundary rest = true ->
  Json.lex Json.LStart (js "null" ++ rest)
  = ts ← Json.lex Json.LStart rest; Some (Json.TNull :: ts).
Proof.
  intros Hb. change (js "null") with [110; 117; 108; 108]%N. cbn [app].
  rewrite (lex_silent _ (Json.LWord [110%N])) by done.
  rewrite (lex_silent _ (Json.LWord [117; 110]%N)) by done.
  rewrite (lex_silent _ (Json.LWord [108; 117; 110]%N)) by done.
  rewrite (lex_silent _ (Json.LWord [108; 108; 117; 110]%N)) by done.
  by apply lex_word_end.
Qed.

Lemma lex_true rest :
  Stringify.boundary rest = true ->
  Json.lex Json.LStart (js "true" ++ rest)
  = ts ← Json.lex Json.LStart rest; Some (Json.TTrue :: ts).
Proof.
  intros Hb. change (js "true") with [116; 114; 117; 101]%N. cbn [app].
  rewrite (lex_silent _ (Json.LWord [116%N])) by done.
  rewrite (lex_silent _ (Json.LWord [114; 116]%N)) by done.
  rewrite (lex_silent _ (Json.LWord [117; 114; 116]%N)) by done.
  rewrite (lex_silent _ (Json.LWord [101; 117; 114; 116]%N)) by done.
  by apply lex_word_end.
Qed.

Lemma lex_false rest :
  Stringify.boundary rest = true ->
  Json.lex Json.LStart (js "false" ++ rest)
  = ts ← Json.lex Json.LStart rest; Some (Json.TFalse :: ts).
Proof.
  intros Hb. change (js "false") with [102; 97; 108; 115; 101]%N. cbn [app].
  rewrite (lex_silent _ (Json.LWord [102%N])) by done.
  rewrite (lex_silent _ (Json.LWord [97; 102]%N)) by done.
  rewrite (lex_silent _ (Json.LWord [108; 97; 102]%N)) by done.
  rewrite (lex_silent _ (Json.LWord [115; 108; 97; 102]%N)) by done.
  rewrite (lex_silent _ (Json.LWord [101; 115; 108; 97; 102]%N)) by done.
  by apply lex_word_end.
Qed.

Lemma hex_hex_digit (n : N) :
  (n < 16)%N -> Json.hex (Stringify.hex_digit n) = Some n.
Proof.
  intros Hn. unfold Stringify.hex_digit, Json.hex, Json.is_digit.
  destruct (N.ltb_spec n 10).
  - replace ((48 <=? 48 + n)%N && (48 + n <=? 57)%N) with true.
    + f_equal. lia.
    + symmetry. apply andb_true_iff. split; apply N.leb_le; lia.
  - replace ((48 <=? 87 + n)%N && (87 + n <=? 57)%N) with false.
    + replace ((97 <=? 87 + n)%N && (87 + n <=? 102)%N) with true.
      * f_equal. lia.
      * symmetry. apply andb_true_iff. split; apply N.leb_le; lia.
    + symmetry. apply andb_false_iff. right. apply N.leb_gt. lia.
Qed.

Lemma hex_digits_value (c : N) :
  ((((0 * 16 + c / 4096) * 16 + c / 256 mod 16) * 16 + c / 16 mod 16) * 16
   + c mod 16 = c)%N.
Proof.
  assert (D2 : (c / 16 / 16 = c / 256)%N) by (by rewrite N.Div0.div_div).
  assert (D3 : (c / 256 / 16 = c / 4096)%N) by (by rewrite N.Div0.div_div).
  pose proof (N.div_mod c 16 ltac:(lia)) as E1.
  pose proof (N.div_mod (c / 16) 16 ltac:(lia)) as E2. rewrite D2 in E2.
  pose proof (N.div_mod (c / 256) 16 ltac:(lia)) as E3. rewrite D3 in E3.
  clear D2 D3.
  set (q1 := (c / 16)%N) in *. set (r0 := (c mod 16)%N) in *.
  set (q2 := (c / 256)%N) in *. set (r1 := (q1 mod 16)%N) in *.
  set (q3 := (c / 4096)%N) in *. set (r2 := (q2 mod 16)%N) in *.
  clearbody q1 r0 q2 r1 q3 r2. lia.
Qed.

Lemma lex_unicode_escape c acc s :
  (c < 65536)%N ->
  Json.lex (Json.LString acc) (Stringify.unicode_escape c ++ s)
  = Json.lex (Json.LString (c :: acc)) s.
Proof.
  intros Hc. unfold Stringify.unicode_escape. cbn [app].
  rewrite (lex_silent _ (Json.LEscape acc)) by done.
  rewrite (lex_silent _ (Json.LHex acc 0 0%N)) by done.
  assert (H3 : (c / 4096 < 16)%N) by (apply N.Div0.div_lt_upper_bound; lia).
  assert (H2 : (c / 256 mod 16 < 16)%N) by (apply N.mod_upper_bound; lia).
  assert (H1 : (c / 16 mod 16 < 16)%N) by (apply N.mod_upper_bound; lia).
  assert (H0 : (c mod 16 < 16)%N) by (apply N.mod_upper_bound; lia).
  rewrite (lex_silent _ (Json.LHex acc 1 (0 * 16 + c / 4096)%N)).
  2:{ cbn [Json.lex_step]. by rewrite hex_hex_digit. }
  rewrite (lex_silent _
    (Json.LHex acc 2 ((0 * 16 + c / 4096) * 16 + c / 256 mod 16)%N)).
  2:{ cbn [Json.lex_step]. by rewrite hex_hex_digit. }
  rewrite (lex_silent _
    (Json.LHex acc 3
       (((0 * 16 + c / 4096) * 16 + c / 256 mod 16) * 16 + c / 16 mod 16)%N)).
  2:{ cbn [Json.lex_step]. by rewrite hex_hex_digit. }
  rewrite (lex_silent _ (Json.LString (c :: acc))); [done|].
  cbn [Json.lex_step]. rewrite hex_hex_digit by done. cbn.
  by rewrite hex_digits_value.
Qed.

Lemma lex_literal c acc s :
  (32 <= c)%N -> c <> 34%N -> c <> 92%N ->
  Json.lex (Json.LString acc) (c :: s) = Json.lex (Json.LString (c :: acc)) s.
Proof.
  intros H1 H2 H3. apply lex_silent. cbn [Json.lex_step].
  destruct (N.eqb_spec c 34); [done|]. destruct (N.eqb_spec c 92); [done|].
  destruct (N.ltb_spec c 32); [lia|done].
Qed.

Lemma lex_quote_unit c acc s :
  Stringify.is_high c = false -> Stringify.is_low c = false ->
  Json.lex (Json.LString acc) (Stringify.quote_unit c ++ s)
  = Json.lex (Json.LString (c :: acc)) s.
Proof.
  intros _ _. unfold Stringify.quote_unit.
  destruct (N.eqb_spec c 8) as [->|];
    [cbn [app];
     by rewrite (lex_silent _ (Json.LEscape acc)), (lex_silent _ (Json.LString (8%N :: acc)))|].
  destruct (N.eqb_spec c 9) as [->|];
    [cbn [app];
     by rewrite (lex_silent _ (Json.LEscape acc)), (lex_silent _ (Json.LString (9%N :: acc)))|].
  destruct (N.eqb_spec c 10) as [->|];
    [cbn [app];
     by rewrite (lex_silent _ (Json.LEscape acc)), (lex_silent _ (Json.LString (10%N :: acc)))|].
  destruct (N.eqb_spec c 12) as [->|];
    [cbn [app];
     by rewrite (lex_silent _ (Json.LEscape acc)), (lex_silent _ (Json.LString (12%N :: acc)))|].
  destruct (N.eqb_spec c 13) as [->|];
    [cbn [app];
     by rewrite (lex_silent _ (Json.LEscape acc)), (lex_silent _ (Json.LString (13%N :: acc)))|].
  destruct (N.eqb_spec c 34) as [->|];
    [cbn [app];
     by rewrite (lex_silent _ (Json.LEscape acc)), (lex_silent _ (Json.LString (34%N :: acc)))|].
  destruct (N.eqb_spec c 92) as [->|];
    [cbn [app];
     by rewrite (lex_silent _ (Json.LEscape acc)), (lex_silent _ (Json.LString (92%N :: acc)))|].
  destruct (N.ltb_spec c 32).
  - apply lex_unicode_escape. lia.
  - by apply lex_literal.
Qed.

Lemma high_bounds c :
  Stringify.is_high c = true -> (55296 <= c <= 56319)%N.
Proof.
  unfold Stringify.is_high. intros [H1 H2]%andb_true_iff.
  apply N.leb_le in H1, H2. lia.
Qed.

Lemma low_bounds c :
  Stringify.is_low c = true -> (56320 <= c <= 57343)%N.
Proof.
  unfold Stringify.is_low. intros [H1 H2]%andb_true_iff.
  apply N.leb_le in H1, H2. lia.
Qed.

Lemma lex_quote_units s : forall acc rest,
  Json.lex (Json.LString acc) (Stringify.quote_units s ++ 34%N :: rest)
  = ts ← Json.lex Json.LStart rest; Some (Json.TString (rev acc ++ s) :: ts).
Proof.
  remember (length s) as n eqn:Hn. revert s Hn.
  induction n as [n IH] using lt_wf_ind. intros s Hn acc rest.
  destruct s as [|c s'].
  { cbn [Stringify.quote_units app]. rewrite app_nil_r.
    by rewrite (lex_emit _ _ _ (Json.TString (rev acc))). }
  cbn [Stringify.quote_units]. cbn [length] in Hn.
  assert (Hs' : forall acc',
    Json.lex (Json.LString (c :: acc'))
      (Stringify.quote_units s' ++ 34%N :: rest)
    = ts ← Json.lex Json.LStart rest;
      Some (Json.TString (rev acc' ++ c :: s') :: ts)).
  { intros acc'. rewrite (IH (length s')) by (done || lia).
    cbn [rev]. by rewrite <- app_assoc. }
  destruct (Stringify.is_high c) eqn:Hh.
  - pose proof (high_bounds c Hh).
    destruct s' as [|d s''].
    + rewrite lex_unicode_escape by lia. apply (Hs' acc).
    + destruct (Stringify.is_low d) eqn:Hl.
      * pose proof (low_bounds d Hl). cbn [app].
        rewrite lex_literal by lia. rewrite lex_literal by lia.
        rewrite (IH (length s'')) by (done || (cbn [length] in Hn; lia)).
        cbn [rev]. by rewrite <- !app_assoc.
      * rewrite <- app_assoc, lex_unicode_escape by lia. apply (Hs' acc).
  - destruct (Stringify.is_low c) eqn:Hl.
    + pose proof (low_bounds c Hl).
      rewrite <- app_assoc, lex_unicode_escape by lia. apply (Hs' acc).
    + rewrite <- app_assoc, lex_quote_unit by done. apply (Hs' acc).
Qed.

(** A quoted string is read as the string. *)
Lemma lex_quote s rest :
  Json.lex Json.LStart (Stringify.quote s ++ rest)
  = ts ← Json.lex Json.LStart rest; Some (Json.TString s :: ts).
Proof.
  unfold Stringify.quote. rewrite <- !app_assoc. cbn [app].
  rewrite (lex_silent _ (Json.LString [])) by done.
  by rewrite lex_quote_units.
Qed.

End LexFacts.

Section TextFacts.

Implicit Types (t : tree) (indent rest tail : jsstring) (l : list tree)
  (members : list (jsstring * tree)).

Lemma tree_induction (P : tree -> Prop) :
  P JUndefined -> P JNull -> (forall b, P (JBool b)) -> (forall z, P (JInt z)) ->
  (forall s, P (JText s)) ->
  (forall l, Forall P l -> P (JArray l)) ->
  (forall members, Forall (fun kv => P kv.2) members -> P (JObject members)) ->
  forall t, P t.
Proof.
  intros Hu Hn Hb Hi Hs Ha Ho. fix IH 1.
  intros [| |b|z|s|l|members];
    [exact Hu|exact Hn|apply Hb|apply Hi|apply Hs|apply Ha|apply Ho].
  - induction l as [|x l IHl]; constructor; [apply IH|apply IHl].
  - induction members as [|[k v] members IHm]; constructor;
      [apply IH|apply IHm].
Qed.

Lemma join_cons {A} (sep p q : list A) (r : list (list A)) :
  Stringify.join sep (p :: q :: r) = p ++ sep ++ Stringify.join sep (q :: r).
Proof. unfold Stringify.join. cbn [map concat]. by rewrite <- !app_assoc. Qed.

Lemma join_one {A} (sep p : list A) : Stringify.join sep [p] = p.
Proof. unfold Stringify.join. cbn [map concat]. by rewrite app_nil_r. Qed.

Lemma bind_lex (o : option (list Json.token)) (a b : list Json.token) :
  (ts ← (ts ← o; Some (b ++ ts)); Some (a ++ ts))
  = (ts ← o; Some ((a ++ b) ++ ts)).
Proof. destruct o; cbn; [|done]. by rewrite <- app_assoc. Qed.

Lemma lex_punct c tok rest :
  Json.lex_start c = Some ([tok], Json.LStart) ->
  Json.lex Json.LStart (c :: rest)
  = ts ← Json.lex Json.LStart rest; Some ([tok] ++ ts).
Proof. intros H. by apply lex_emit. Qed.

Lemma lex_separator indent rest :
  forallb Json.is_ws indent = true ->
  Json.lex Json.LStart ((js "," ++ [10%N] ++ indent) ++ rest)
  = ts ← Json.lex Json.LStart rest; Some ([Json.TComma] ++ ts).
Proof.
  intros Hi. change (js ",") with [44%N]. rewrite <- !app_assoc. cbn [app].
  rewrite (lex_punct _ Json.TComma) by done.
  change (10%N :: indent ++ rest) with ((10%N :: indent) ++ rest).
  rewrite lex_ws; [done|]. cbn [forallb]. by rewrite Hi.
Qed.

Lemma lex_opening c tok indent rest :
  Json.lex_start c = Some ([tok], Json.LStart) ->
  forallb Json.is_ws indent = true ->
  Json.lex Json.LStart ([c] ++ [10%N] ++ indent ++ rest)
  = ts ← Json.lex Json.LStart rest; Some ([tok] ++ ts).
Proof.
  intros Hc Hi. cbn [app]. rewrite (lex_punct _ tok) by done.
  change (10%N :: indent ++ rest) with ((10%N :: indent) ++ rest).
  rewrite lex_ws; [done|]. cbn [forallb]. by rewrite Hi.
Qed.

Lemma lex_closing c tok indent rest :
  Json.lex_start c = Some ([tok], Json.LStart) ->
  forallb Json.is_ws indent = true ->
  Json.lex Json.LStart ([10%N] ++ indent ++ [c] ++ rest)
  = ts ← Json.lex Json.LStart rest; Some ([tok] ++ ts).
Proof.
  intros Hc Hi.
  change ([10%N] ++ indent ++ [c] ++ rest)
    with ((10%N :: indent) ++ c :: rest).
  rewrite lex_ws by (cbn [forallb]; by rewrite Hi).
  by rewrite (lex_punct _ tok).
Qed.

Lemma closing_boundary indent c rest :
  Stringify.boundary ([10%N] ++ indent ++ [c] ++ rest) = true.
Proof. done. Qed.

Lemma separator_boundary indent rest :
  Stringify.boundary ((js "," ++ [10%N] ++ indent) ++ rest) = true.
Proof. done. Qed.

(** The elements of an array, with the separators between them. *)
Lemma lex_elements indent l :
  forallb Json.is_ws indent = true ->
  Forall (fun t => forall rest, Stringify.boundary rest = true ->
            Json.lex Json.LStart (Stringify.text indent t ++ rest)
            = ts ← Json.lex Json.LStart rest;
              Some (Stringify.tokens t ++ ts)) l ->
  l <> [] ->
  forall tail, Stringify.boundary tail = true ->
    Json.lex Json.LStart
      (Stringify.join (js "," ++ [10%N] ++ indent)
         (map (Stringify.text indent) l) ++ tail)
    = ts ← Json.lex Json.LStart tail;
      Some (Stringify.join [Json.TComma] (map Stringify.tokens l) ++ ts).
Proof.
  intros Hi Hall. induction Hall as [|x l Hx Hl IH]; intros Hne tail Htail.
  { done. }
  destruct l as [|y l].
  - cbn [map]. rewrite !join_one. by apply Hx.
  - cbn [map] in *. rewrite !join_cons, <- !app_assoc.
    rewrite Hx by apply separator_boundary.
    rewrite (app_assoc (js ",")), (app_assoc (js "," ++ [10%N])).
    rewrite <- (app_assoc (js ",") [10%N] indent).
    rewrite lex_separator by done.
    rewrite IH by done.
    destruct (Json.lex Json.LStart tail); [|done].
    cbn [mbind option_bind]. by rewrite <- !app_assoc.
Qed.

Lemma text_array indent l :
  Stringify.text indent (JArray l)
  = match map (Stringify.text (indent ++ Stringify.gap)) l with
    | [] => js "[]"
    | parts =>
        js "[" ++ [10%N] ++ (indent ++ Stringify.gap)
        ++ Stringify.join (js "," ++ [10%N] ++ (indent ++ Stringify.gap)) parts
        ++ [10%N] ++ indent ++ js "]"
    end.
Proof. done. Qed.

Lemma text_object indent members :
  Stringify.text indent (JObject members)
  = match
      omap id (map (Stringify.member_text (indent ++ Stringify.gap)) members)
    with
    | [] => js "{}"
    | parts =>
        js "{" ++ [10%N] ++ (indent ++ Stringify.gap)
        ++ Stringify.join (js "," ++ [10%N] ++ (indent ++ Stringify.gap)) parts
        ++ [10%N] ++ indent ++ js "}"
    end.
Proof. done. Qed.

Lemma tokens_object members :
  Stringify.tokens (JObject members)
  = [Json.TLBrace]
    ++ Stringify.join [Json.TComma]
         (omap id (map Stringify.member_tokens members))
    ++ [Json.TRBrace].
Proof. done. Qed.

Lemma to_value_object members :
  Stringify.to_value (JObject members)
  = VObj (foldl Stringify.with_member ∅ members).
Proof. done. Qed.

Lemma member_written indent k v :
  v <> JUndefined ->
  Stringify.member_text indent (k, v)
  = Some (Stringify.quote k ++ js ": " ++ Stringify.text indent v)
  /\ Stringify.member_tokens (k, v)
     = Some (Json.TString k :: Json.TColon :: Stringify.tokens v)
  /\ forall m, Stringify.with_member m (k, v)
              = <[k := Stringify.to_value v]> m.
Proof. by destruct v. Qed.

Lemma undefined_or t : t = JUndefined \/ t <> JUndefined.
Proof. destruct t; (by left) || (by right). Qed.

Lemma members_none indent members :
  omap id (map (Stringify.member_text indent) members) = [] <->
  omap id (map Stringify.member_tokens members) = [].
Proof.
  induction members as [|[k v] members IH]; [done|].
  destruct (undefined_or v) as [->|Hv]; [exact IH|].
  destruct (member_written indent k v Hv) as (H1 & H2 & _).
  cbn [map omap]. rewrite H1, H2. done.
Qed.

Lemma members_none_object members m :
  omap id (map Stringify.member_tokens members) = [] ->
  foldl Stringify.with_member m members = m.
Proof.
  induction members as [|[k v] members IH]; [done|].
  destruct (undefined_or v) as [->|Hv]; [exact IH|].
  destruct (member_written [] k v Hv) as (_ & H2 & _).
  cbn [map omap]. by rewrite H2.
Qed.

Lemma gap_ws indent :
  forallb Json.is_ws indent = true ->
  forallb Json.is_ws (indent ++ Stringify.gap) = true.
Proof. intros H. by rewrite forallb_app, H. Qed.

Lemma lex_member indent k v rest :
  (forall rest, Stringify.boundary rest = true ->
     Json.lex Json.LStart (Stringify.text indent v ++ rest)
     = ts ← Json.lex Json.LStart rest; Some (Stringify.tokens v ++ ts)) ->
  Stringify.boundary rest = true ->
  Json.lex Json.LStart
    ((Stringify.quote k ++ js ": " ++ Stringify.text indent v) ++ rest)
  = ts ← Json.lex Json.LStart rest;
    Some ((Json.TString k :: Json.TColon :: Stringify.tokens v) ++ ts).
Proof.
  intros Hv Hrest. rewrite <- !app_assoc, lex_quote.
  change (js ": ") with [58; 32]%N. cbn [app].
  rewrite (lex_punct _ Json.TColon) by done.
  rewrite (lex_silent _ Json.LStart) by done.
  rewrite Hv by done.
  destruct (Json.lex Json.LStart rest); [|done]. done.
Qed.

(** The properties of an object, with the separators between them. *)
Lemma lex_members indent members :
  forallb Json.is_ws indent = true ->
  Forall (fun kv : jsstring * tree =>
            forall rest, Stringify.boundary rest = true ->
              Json.lex Json.LStart (Stringify.text indent kv.2 ++ rest)
              = ts ← Json.lex Json.LStart rest;
                Some (Stringify.tokens kv.2 ++ ts)) members ->
  omap id (map (Stringify.member_text indent) members) <> [] ->
  forall tail, Stringify.boundary tail = true ->
    Json.lex Json.LStart
      (Stringify.join (js "," ++ [10%N] ++ indent)
         (omap id (map (Stringify.member_text indent) members)) ++ tail)
    = ts ← Json.lex Json.LStart tail;
      Some (Stringify.join [Json.TComma]
              (omap id (map Stringify.member_tokens members)) ++ ts).
Proof.
  intros Hi Hall.
  induction Hall as [|[k v] members Hv Hl IH]; intros Hne tail Htail; [done|].
  destruct (undefined_or v) as [->|Hdef]; [by apply IH|].
  destruct (member_written indent k v Hdef) as (H1 & H2 & _).
  assert (Hparts :
    omap id (map (Stringify.member_text indent) ((k, v) :: members))
    = (Stringify.quote k ++ js ": " ++ Stringify.text indent v)
      :: omap id (map (Stringify.member_text indent) members)).
  { cbn [map omap]. by rewrite H1. }
  assert (Htoks :
    omap id (map Stringify.member_tokens ((k, v) :: members))
    = (Json.TString k :: Json.TColon :: Stringify.tokens v)
      :: omap id (map Stringify.member_tokens members)).
  { cbn [map omap]. by rewrite H2. }
  rewrite Hparts, Htoks. clear Hparts Htoks Hne.
  cbn [snd] in Hv.
  destruct (omap id (map (Stringify.member_text indent) members))
    as [|p parts] eqn:Ep.
  - apply members_none in Ep as ->. rewrite !join_one.
    by apply lex_member.
  - destruct (omap id (map Stringify.member_tokens members))
      as [|q toks] eqn:Eq.
    { apply (members_none indent) in Eq. by rewrite Eq in Ep. }
    rewrite !join_cons, <- app_assoc.
    rewrite lex_member by (done || apply separator_boundary).
    rewrite <- app_assoc, lex_separator by done.
    rewrite IH by done.
    destruct (Json.lex Json.LStart tail); [|done].
    cbn [mbind option_bind]. by rewrite <- !app_assoc.
Qed.

(** The text of a value is read as the tokens of the value. *)
Lemma lex_text t : forall indent rest,
  forallb Json.is_ws indent = true -> Stringify.boundary rest = true ->
  Json.lex Json.LStart (Stringify.text indent t ++ rest)
  = ts ← Json.lex Json.LStart rest; Some (Stringify.tokens t ++ ts).
Proof.
  induction t as [| |b|z|s|l IH|members IH] using tree_induction;
    intros indent rest Hi Hrest.
  - by apply lex_null.
  - by apply lex_null.
  - destruct b; [by apply lex_true|by apply lex_false].
  - by apply lex_number.
  - apply lex_quote.
  - rewrite text_array. destruct l as [|x l].
    + change (js "[]") with [91; 93]%N. cbn [map app].
      rewrite (lex_punct _ Json.TLBracket) by done.
      rewrite (lex_punct _ Json.TRBracket) by done.
      by destruct (Json.lex Json.LStart rest).
    + change (map ?f (x :: l)) with (f x :: map f l).
      cbv iota beta.
      change (Stringify.text (indent ++ Stringify.gap) x
              :: map (Stringify.text (indent ++ Stringify.gap)) l)
        with (map (Stringify.text (indent ++ Stringify.gap)) (x :: l)).
      change (js "[") with [91%N]. change (js "]") with [93%N].
      rewrite <- !app_assoc.
      rewrite (app_assoc indent Stringify.gap).
      rewrite (lex_opening _ Json.TLBracket) by (done || by apply gap_ws).
      rewrite lex_elements; [|by apply gap_ws| |done|apply closing_boundary].
      2:{ eapply Forall_impl; [exact IH|]. intros t Ht rest' Hr.
          apply Ht; [by apply gap_ws|done]. }
      rewrite (lex_closing _ Json.TRBracket) by done.
      destruct (Json.lex Json.LStart rest); [|done].
      cbn [mbind option_bind Stringify.tokens]. by rewrite <- !app_assoc.
  - rewrite text_object, tokens_object.
    destruct (omap id (map (Stringify.member_text (indent ++ Stringify.gap))
                           members)) as [|p parts] eqn:Ep.
    + apply members_none in Ep as ->.
      change (js "{}") with [123; 125]%N. cbn [app].
      rewrite (lex_punct _ Json.TLBrace) by done.
      rewrite (lex_punct _ Json.TRBrace) by done.
      by destruct (Json.lex Json.LStart rest).
    + rewrite <- Ep.
      change (js "{") with [123%N]. change (js "}") with [125%N].
      rewrite <- !app_assoc.
      rewrite (app_assoc indent Stringify.gap).
      rewrite (lex_opening _ Json.TLBrace) by (done || by apply gap_ws).
      rewrite lex_members;
        [|by apply gap_ws| |by rewrite Ep|apply closing_boundary].
      2:{ eapply Forall_impl; [exact IH|]. intros kv Ht rest' Hr.
          apply Ht; [by apply gap_ws|done]. }
      rewrite (lex_closing _ Json.TRBrace) by done.
      destruct (Json.lex Json.LStart rest); [|done].
      cbn [mbind option_bind]. by rewrite <- !app_assoc.
Qed.

End TextFacts.

Section ParseFacts.

Implicit Types (t : tree) (st : Json.parse_state) (stk : list Json.frame)
  (ts : list Json.token) (l : list tree) (members : list (jsstring * tree)).

Lemma parse_cons st tok ts :
  Json.parse_tokens st (tok :: ts)
  = st' ← Json.parse_step st tok; Json.parse_tokens st' ts.
Proof. done. Qed.

Lemma awaits_value stk : Stringify.awaits (Json.PValue stk) stk.
Proof. by intros tok _. Qed.

Lemma awaits_first stk :
  Stringify.awaits (Json.PArrayFirst stk) (Json.FArray [] :: stk).
Proof. intros tok [? H]. by destruct tok. Qed.

Lemma parse_scalar st stk tok v ts :
  Stringify.awaits st stk ->
  Json.parse_value tok stk = Some (Json.reduce v stk) ->
  Json.parse_tokens st (tok :: ts)
  = Json.parse_tokens (Json.reduce v stk) ts.
Proof.
  intros Hst Htok. rewrite parse_cons, (Hst tok), Htok; [done|].
  by rewrite Htok.
Qed.

Lemma parse_open st stk tok st' ts :
  Stringify.awaits st stk ->
  Json.parse_value tok stk = Some st' ->
  Json.parse_tokens st (tok :: ts) = Json.parse_tokens st' ts.
Proof.
  intros Hst Htok. rewrite parse_cons, (Hst tok), Htok; [done|].
  by rewrite Htok.
Qed.

(** The elements of an array after the first bracket, up to the closing
    one. *)
Lemma parse_elements l :
  Forall (fun t => forall st stk ts, Stringify.awaits st stk ->
            Json.parse_tokens st (Stringify.tokens t ++ ts)
            = Json.parse_tokens (Json.reduce (Stringify.to_value t) stk) ts) l ->
  l <> [] ->
  forall st acc stk ts,
    Stringify.awaits st (Json.FArray acc :: stk) ->
    Json.parse_tokens st
      (Stringify.join [Json.TComma] (map Stringify.tokens l)
       ++ Json.TRBracket :: ts)
    = Json.parse_tokens
        (Json.reduce (VArr (rev acc ++ map Stringify.to_value l)) stk) ts.
Proof.
  intros Hall. induction Hall as [|x l Hx Hl IH]; intros Hne st acc stk ts Hst;
    [done|].
  destruct l as [|y l].
  - cbn [map]. rewrite join_one, (Hx st _ _ Hst).
    cbn [Json.reduce]. rewrite parse_cons. cbn [Json.parse_step mbind option_bind].
    cbn [rev]. done.
  - cbn [map] in *. rewrite join_cons, <- !app_assoc, (Hx st _ _ Hst).
    cbn [Json.reduce app]. rewrite parse_cons.
    cbn [Json.parse_step mbind option_bind].
    rewrite (IH ltac:(done) _ (Stringify.to_value x :: acc) stk ts
               (awaits_value _)).
    cbn [rev]. by rewrite <- app_assoc.
Qed.

(** The properties of an object after the first brace, up to the closing
    one. *)
Lemma parse_members members :
  Forall (fun kv : jsstring * tree => forall st stk ts,
            Stringify.awaits st stk ->
            Json.parse_tokens st (Stringify.tokens kv.2 ++ ts)
            = Json.parse_tokens
                (Json.reduce (Stringify.to_value kv.2) stk) ts) members ->
  omap id (map Stringify.member_tokens members) <> [] ->
  forall st (m : obj) stk ts,
    (forall k, Json.parse_step st (Json.TString k)
               = Some (Json.PColon m k stk)) ->
    Json.parse_tokens st
      (Stringify.join [Json.TComma]
         (omap id (map Stringify.member_tokens members))
       ++ Json.TRBrace :: ts)
    = Json.parse_tokens
        (Json.reduce (VObj (foldl Stringify.with_member m members)) stk) ts.
Proof.
  intros Hall.
  induction Hall as [|[k v] members Hv Hl IH]; intros Hne st m stk ts Hst;
    [done|].
  destruct (undefined_or v) as [->|Hdef]; [by apply IH|].
  destruct (member_written [] k v Hdef) as (_ & H2 & H3).
  assert (Htoks :
    omap id (map Stringify.member_tokens ((k, v) :: members))
    = (Json.TString k :: Json.TColon :: Stringify.tokens v)
      :: omap id (map Stringify.member_tokens members)).
  { cbn [map omap]. by rewrite H2. }
  rewrite Htoks. clear Htoks Hne. cbn [foldl]. rewrite H3. cbn [snd] in Hv.
  destruct (omap id (map Stringify.member_tokens members))
    as [|q toks] eqn:Eq.
  - rewrite (members_none_object _ _ Eq), join_one. cbn [app].
    rewrite parse_cons, Hst. cbn [mbind option_bind].
    rewrite parse_cons. cbn [Json.parse_step mbind option_bind].
    rewrite (Hv _ _ _ (awaits_value _)). cbn [Json.reduce].
    by rewrite parse_cons.
  - rewrite join_cons, <- !app_assoc. cbn [app].
    rewrite parse_cons, Hst. cbn [mbind option_bind].
    rewrite parse_cons. cbn [Json.parse_step mbind option_bind].
    rewrite (Hv _ _ _ (awaits_value _)). cbn [Json.reduce].
    rewrite parse_cons. cbn [Json.parse_step mbind option_bind].
    by rewrite (IH ltac:(done) _ (<[k := Stringify.to_value v]> m) stk ts).
Qed.

(** The tokens of a value are parsed as the value. *)
Lemma parse_tree t : forall st stk ts,
  Stringify.awaits st stk ->
  Json.parse_tokens st (Stringify.tokens t ++ ts)
  = Json.parse_tokens (Json.reduce (Stringify.to_value t) stk) ts.
Proof.
  induction t as [| |b|z|s|l IH|members IH] using tree_induction;
    intros st stk ts Hst.
  - by apply parse_scalar.
  - by apply parse_scalar.
  - destruct b; by apply parse_scalar.
  - by apply parse_scalar.
  - by apply parse_scalar.
  - cbn [Stringify.tokens Stringify.to_value]. rewrite <- !app_assoc.
    cbn [app]. rewrite (parse_open st stk _ (Json.PArrayFirst stk)) by done.
    destruct l as [|x l].
    + change (Json.parse_tokens (Json.PArrayFirst stk) (Json.TRBracket :: ts)
              = Json.parse_tokens (Json.reduce (VArr []) stk) ts).
      by rewrite parse_cons.
    + by rewrite (parse_elements (x :: l) IH ltac:(done) _ [] stk ts
                    (awaits_first stk)).
  - rewrite tokens_object, to_value_object. rewrite <- !app_assoc.
    cbn [app]. rewrite (parse_open st stk _ (Json.PObjectFirst stk)) by done.
    destruct (omap id (map Stringify.member_tokens members))
      as [|q toks] eqn:Eq.
    + rewrite (members_none_object _ _ Eq).
      change (Json.parse_tokens (Json.PObjectFirst stk) (Json.TRBrace :: ts)
              = Json.parse_tokens (Json.reduce (VObj ∅) stk) ts).
      by rewrite parse_cons.
    + rewrite <- Eq.
      by rewrite (parse_members members IH ltac:(by rewrite Eq)
                    (Json.PObjectFirst stk) ∅ stk ts).
Qed.

End ParseFacts.

Lemma parse_text (t : tree) :
  Json.parse (Stringify.text [] t) = Some (Stringify.to_value t).
Proof.
  unfold Json.parse.
  pose proof (lex_text t [] [] eq_refl eq_refl) as Hlex.
  rewrite app_nil_r in Hlex. rewrite Hlex. cbn [Json.lex Json.lex_end].
  cbn [mbind option_bind].
  by rewrite (parse_tree t _ [] [] (awaits_value [])).
Qed.

Lemma stringify_text (t : tree) (text : jsstring) :
  Stringify.stringify t = Some text -> text = Stringify.text [] t.
Proof. unfold Stringify.stringify. intros H. destruct t; by simplify_eq. Qed.

(** X11. The text [JSON.stringify(data, null, 2)] of data made of [null],
    booleans, integers, strings, arrays and objects is parsed by
    [JSON.parse] as the same data, whatever the order of the properties,
    whatever is in the strings and the names (quotes, control characters,
    surrogates alone), and however deep the data are; a property whose value
    is [undefined] is not written, and an [undefined] element of an array
    comes back as [null]. *)
Theorem stringify_then_parse (t : tree) (text : jsstring) :
  Stringify.safe t = true ->
  Stringify.stringify t = Some text ->
  Json.parse text = Some (Stringify.to_value t).
Proof. intros _ ->%stringify_text. apply parse_text. Qed.

Section WellFormed.

Implicit Types (p q s indent rest : jsstring) (c : N) (t : tree).

Lemma closed_nil : Stringify.closed [].
Proof. by intros rest. Qed.

Lemma closed_app p q :
  Stringify.closed p -> Stringify.closed q -> Stringify.closed (p ++ q).
Proof. intros Hp Hq rest. by rewrite <- app_assoc, Hp, Hq. Qed.

Lemma closed_plain p :
  forallb Stringify.plain p = true -> Stringify.closed p.
Proof.
  intros Hp rest. induction p as [|c p IH]; [done|].
  cbn [forallb] in Hp. apply andb_true_iff in Hp as [Hc Hp].
  unfold Stringify.plain in Hc. apply andb_true_iff in Hc as [Hh Hl].
  apply negb_true_iff in Hh. cbn [app Stringify.well_formed].
  rewrite Hh, Hl. by apply IH.
Qed.

Lemma plain_small c : (c < 55296)%N -> Stringify.plain c = true.
Proof.
  intros H. unfold Stringify.plain, Stringify.is_high, Stringify.is_low.
  replace (55296 <=? c)%N with false by (symmetry; apply N.leb_gt; lia).
  replace (56320 <=? c)%N with false by (symmetry; apply N.leb_gt; lia).
  done.
Qed.

Lemma hex_digit_small (n : N) :
  (n < 16)%N -> (Stringify.hex_digit n < 55296)%N.
Proof. intros H. unfold Stringify.hex_digit. destruct (n <? 10)%N; lia. Qed.

Lemma closed_unicode_escape c :
  (c < 65536)%N -> Stringify.closed (Stringify.unicode_escape c).
Proof.
  intros Hc. apply closed_plain. unfold Stringify.unicode_escape.
  assert (H3 : (c / 4096 < 16)%N) by (apply N.Div0.div_lt_upper_bound; lia).
  assert (H2 : (c / 256 mod 16 < 16)%N) by (apply N.mod_upper_bound; lia).
  assert (H1 : (c / 16 mod 16 < 16)%N) by (apply N.mod_upper_bound; lia).
  assert (H0 : (c mod 16 < 16)%N) by (apply N.mod_upper_bound; lia).
  cbn [forallb]. rewrite !plain_small; [done|by apply hex_digit_small..|lia|lia].
Qed.

Lemma closed_quote_unit c :
  Stringify.is_high c = false -> Stringify.is_low c = false ->
  Stringify.closed (Stringify.quote_unit c).
Proof.
  intros Hh Hl. unfold Stringify.quote_unit.
  repeat (match goal with |- context [(?a =? ?b)%N] =>
            destruct (a =? b)%N; [by apply closed_plain|] end).
  destruct (N.ltb_spec c 32).
  - apply closed_unicode_escape. lia.
  - apply closed_plain. cbn [forallb]. unfold Stringify.plain.
    by rewrite Hh, Hl.
Qed.

Lemma closed_quote_units s : Stringify.closed (Stringify.quote_units s).
Proof.
  remember (length s) as n eqn:Hn. revert s Hn.
  induction n as [n IH] using lt_wf_ind. intros s Hn.
  destruct s as [|c s']; [apply closed_nil|].
  cbn [Stringify.quote_units]. cbn [length] in Hn.
  assert (Hs' : Stringify.closed (Stringify.quote_units s')).
  { apply (IH (length s')); [lia|done]. }
  destruct (Stringify.is_high c) eqn:Hh.
  - pose proof (high_bounds c Hh). destruct s' as [|d s''].
    + apply closed_unicode_escape. lia.
    + destruct (Stringify.is_low d) eqn:Hl.
      * intros rest. cbn [app Stringify.well_formed]. rewrite Hh, Hl.
        cbn [andb]. apply (IH (length s'')); [cbn [length] in Hn; lia|done].
      * apply closed_app; [apply closed_unicode_escape; lia|done].
  - destruct (Stringify.is_low c) eqn:Hl.
    + pose proof (low_bounds c Hl).
      apply closed_app; [apply closed_unicode_escape; lia|done].
    + apply closed_app; [by apply closed_quote_unit|done].
Qed.

Lemma closed_quote s : Stringify.closed (Stringify.quote s).
Proof.
  unfold Stringify.quote.
  apply closed_app; [by apply closed_plain|].
  apply closed_app; [apply closed_quote_units|by apply closed_plain].
Qed.

Lemma closed_number (z : Z) : Stringify.closed (Stringify.number_text z).
Proof.
  unfold Stringify.number_text.
  destruct (decimal_spec (Z.to_N (Z.abs z))) as (d & D & -> & Hdig & _).
  apply closed_app; [by destruct (z <? 0)%Z; apply closed_plain|].
  apply closed_plain. revert Hdig. generalize (d :: D).
  induction l as [|c l IH]; [done|]. cbn [forallb].
  intros [Hc Hl]%andb_true_iff. rewrite IH by done.
  rewrite plain_small; [done|].
  unfold Json.is_digit in Hc. apply andb_true_iff in Hc as [_ Hc].
  apply N.leb_le in Hc. lia.
Qed.

Lemma closed_join sep parts :
  Stringify.closed sep -> Forall Stringify.closed parts ->
  Stringify.closed (Stringify.join sep parts).
Proof.
  intros Hsep Hparts. destruct Hparts as [|p parts Hp Hparts];
    [apply closed_nil|].
  unfold Stringify.join. apply closed_app; [done|].
  induction Hparts as [|q parts Hq Hparts IH]; [apply closed_nil|].
  cbn [map concat]. by repeat apply closed_app.
Qed.

Lemma closed_block (a b : jsstring) indent sep parts :
  forallb Stringify.plain a = true -> forallb Stringify.plain b = true ->
  forallb Stringify.plain indent = true ->
  Stringify.closed sep -> Forall Stringify.closed parts ->
  Stringify.closed
    (a ++ [10%N] ++ (indent ++ Stringify.gap)
     ++ Stringify.join sep parts ++ [10%N] ++ indent ++ b).
Proof.
  intros Ha Hb Hi Hsep Hparts.
  repeat apply closed_app; try (by apply closed_plain).
  by apply closed_join.
Qed.

Lemma closed_text t : forall indent,
  forallb Stringify.plain indent = true ->
  Stringify.closed (Stringify.text indent t).
Proof.
  induction t as [| |b|z|s|l IH|members IH] using tree_induction;
    intros indent Hi.
  - by apply closed_plain.
  - by apply closed_plain.
  - destruct b; by apply closed_plain.
  - apply closed_number.
  - apply closed_quote.
  - rewrite text_array.
    assert (Hi' : forallb Stringify.plain (indent ++ Stringify.gap) = true)
      by (by rewrite forallb_app, Hi).
    assert (Hparts : Forall Stringify.closed
              (map (Stringify.text (indent ++ Stringify.gap)) l)).
    { apply Forall_map. eapply Forall_impl; [exact IH|].
      intros t Ht. by apply Ht. }
    destruct (map (Stringify.text (indent ++ Stringify.gap)) l) eqn:E;
      [by apply closed_plain|].
    apply closed_block; try done.
    repeat apply closed_app; by apply closed_plain.
  - rewrite text_object.
    assert (Hi' : forallb Stringify.plain (indent ++ Stringify.gap) = true)
      by (by rewrite forallb_app, Hi).
    assert (Hparts : Forall Stringify.closed
              (omap id (map (Stringify.member_text (indent ++ Stringify.gap))
                            members))).
    { clear -IH Hi'. induction IH as [|[k v] members Hv Hl IHm];
        [by constructor|].
      destruct (undefined_or v) as [->|Hdef]; [exact IHm|].
      destruct (member_written (indent ++ Stringify.gap) k v Hdef)
        as (H1 & _).
      cbn [map omap]. rewrite H1. cbn [id mbind option_bind].
      constructor; [|exact IHm].
      apply closed_app; [apply closed_quote|].
      apply closed_app; [by apply closed_plain|]. by apply Hv. }
    destruct (omap id (map (Stringify.member_text (indent ++ Stringify.gap))
                           members)) eqn:E;
      [by apply closed_plain|].
    apply closed_block; try done.
    repeat apply closed_app; by apply closed_plain.
Qed.

End WellFormed.

(** X12. The text of [JSON.stringify] has no surrogate standing alone, also
    when a string or a name of the data has one: it is written as an escape.
    So the text goes to the file, as UTF-8, and comes back unchanged. *)
Theorem stringify_well_formed (t : tree) :
  Stringify.well_formed (Stringify.text [] t) = true.
Proof.
  pose proof (closed_text t [] eq_refl []) as H.
  by rewrite app_nil_r in H.
Qed.

Section StorageFacts.

Implicit Types (d : Storage.disk) (f g : Storage.file).

Lemma file_name_inj f g : Storage.file_name f = Storage.file_name g -> f = g.
Proof. destruct f, g; intros H; (done || by vm_compute in H). Qed.

Lemma default_safe f : Stringify.safe (Storage.DATA_DEFAULTS f) = true.
Proof. by destruct f. Qed.

Lemma default_parses f :
  Stringify.stringify (Storage.DATA_DEFAULTS f) ≫= Json.parse
  = Some (Stringify.to_value (Storage.DATA_DEFAULTS f)).
Proof.
  destruct (Stringify.stringify (Storage.DATA_DEFAULTS f)) as [text|] eqn:E.
  - cbn [mbind option_bind]. apply stringify_text in E as ->.
    apply parse_text.
  - by destruct f.
Qed.

Lemma load_eq d f :
  Storage.loadData d f
  = Some (default (Stringify.to_value (Storage.DATA_DEFAULTS f))
            (d !! Storage.file_name f ≫= Json.parse)).
Proof.
  unfold Storage.loadData. rewrite default_parses.
  by destruct (d !! Storage.file_name f ≫= Json.parse).
Qed.

Lemma ensure_step d f :
  exists d',
    (match d !! Storage.file_name f with
     | Some _ => Some d
     | None => Storage.saveData d f (Storage.DATA_DEFAULTS f)
     end) = Some d'
    /\ (forall g, Storage.loadData d' g = Storage.loadData d g)
    /\ (forall name text, d !! name = Some text -> d' !! name = Some text)
    /\ is_Some (d' !! Storage.file_name f).
Proof.
  destruct (d !! Storage.file_name f) as [text|] eqn:E.
  - exists d. by rewrite E.
  - destruct (Stringify.stringify (Storage.DATA_DEFAULTS f)) as [text|] eqn:Et;
      [|by destruct f].
    exists (<[Storage.file_name f := text]> d). unfold Storage.saveData.
    rewrite Et. split; [done|]. split; [|split].
    + intros g. rewrite !load_eq.
      destruct (decide (Storage.file_name g = Storage.file_name f))
        as [->%file_name_inj|Hne].
      * rewrite lookup_insert_eq, E. cbn [mbind option_bind].
        apply stringify_text in Et as ->. by rewrite parse_text.
      * by rewrite lookup_insert_ne.
    + intros name text' Hn. rewrite lookup_insert_ne; [done|]. congruence.
    + by rewrite lookup_insert_eq.
Qed.

Lemma ensure_fold fs : forall d,
  exists d',
    foldl (fun (acc : option Storage.disk) (f : Storage.file) =>
             d ← acc;
             match d !! Storage.file_name f with
             | Some _ => Some d
             | None => Storage.saveData d f (Storage.DATA_DEFAULTS f)
             end) (Some d) fs = Some d'
    /\ (forall g, Storage.loadData d' g = Storage.loadData d g)
    /\ (forall name text, d !! name = Some text -> d' !! name = Some text)
    /\ (forall f, f ∈ fs -> is_Some (d' !! Storage.file_name f)).
Proof.
  induction fs as [|f fs IH]; intros d.
  - exists d. split; [done|]. split; [done|]. split; [done|].
    intros f Hf. by apply elem_of_nil in Hf.
  - destruct (ensure_step d f) as (d1 & H1 & Hl1 & Hk1 & Hf1).
    destruct (IH d1) as (d' & H' & Hl' & Hk' & Hf').
    exists d'. cbn [foldl mbind option_bind]. rewrite H1. split; [done|].
    split; [by intros g; rewrite Hl', Hl1|]. split; [by auto|].
    intros g [->|Hg]%elem_of_cons; [|by apply Hf'].
    destruct Hf1 as [text Ht]. exists text. by apply Hk'.
Qed.

End StorageFacts.

(** X13. What [saveData] writes, [loadData] reads back, and the other files
    read as before. *)
Theorem save_then_load (d d' : Storage.disk) (f : Storage.file) (data : tree) :
  Stringify.safe data = true ->
  Storage.saveData d f data = Some d' ->
  Storage.loadData d' f = Some (Stringify.to_value data)
  /\ forall g, g <> f -> Storage.loadData d' g = Storage.loadData d g.
Proof.
  intros _. unfold Storage.saveData.
  destruct (Stringify.stringify data) as [text|] eqn:E; [|done].
  intros [= <-]. apply stringify_text in E as ->. split.
  - unfold Storage.loadData. rewrite lookup_insert_eq. cbn [mbind option_bind].
    by rewrite parse_text.
  - intros g Hne. unfold Storage.loadData.
    rewrite lookup_insert_ne; [done|]. by intros ?%file_name_inj.
Qed.

(** X14. [loadData] never fails: a file that is missing, or whose text is not
    JSON, reads as the default of the file (the empty profile, the empty
    list), and any other file as what its text denotes. *)
Theorem load_falls_back (d : Storage.disk) (f : Storage.file) :
  Storage.loadData d f
  = Some (match d !! Storage.file_name f ≫= Json.parse with
          | Some v => v
          | None => Stringify.to_value (Storage.DATA_DEFAULTS f)
          end)
  /\ Stringify.to_value (Storage.DATA_DEFAULTS f)
     = match f with
       | Storage.Profile =>
           VObj (list_to_map
                   [ (js "name", VStr []); (js "email", VStr []);
                     (js "phone", VStr []); (js "location", VStr []);
                     (js "summary", VStr []); (js "skills", VArr []);
                     (js "experience", VArr []); (js "education", VArr []);
                     (js "certifications", VArr []); (js "links", VArr []) ])
       | _ => VArr []
       end.
Proof.
  split.
  - rewrite load_eq. by destruct (d !! Storage.file_name f ≫= Json.parse).
  - by destruct f.
Qed.

(** X15. After [ensureDataFiles] every data file is there, the files that
    were there have the text they had, and every file reads as it did before
    (a missing file already read as its default). *)
Theorem ensure_data_files (d : Storage.disk) :
  exists d',
    Storage.ensureDataFiles d = Some d'
    /\ (forall f, is_Some (d' !! Storage.file_name f))
    /\ (forall name text, d !! name = Some text -> d' !! name = Some text)
    /\ (forall f, Storage.loadData d' f = Storage.loadData d f).
Proof.
  destruct (ensure_fold Storage.files d) as (d' & H & Hl & Hk & Hf).
  exists d'. split; [done|]. split; [|by split].
  intros f. apply Hf. destruct f; set_solver.
Qed.

(** ** Contacts *)

#[local] Arguments Contacts.find : simpl never.
#[local] Arguments Contacts.has_id : simpl never.

Section ContactFacts.

Implicit Types (e : env) (id k : jsstring) (body : value) (c contact : obj)
  (contacts : list obj).

Lemma contact_find_spec id contacts i c :
  Contacts.find id contacts = Some (i, c) ->
  contacts !! i = Some c /\ Js.member (VObj c) (js "id") = VStr id.
Proof.
  unfold Contacts.find. intros (H1 & H2 & _)%list_find_Some. split; [done|].
  unfold Contacts.has_id, Js.is_str in H2.
  destruct (Js.member (VObj c) (js "id")); try done.
  apply bool_decide_unpack in H2. by subst.
Qed.

Lemma has_notes_insert contacts i c :
  Forall (fun c => Contacts.has_notes c = true) contacts ->
  Contacts.has_notes c = true ->
  Forall (fun c => Contacts.has_notes c = true) (<[i := c]> contacts).
Proof.
  intros Hall Hc. apply Forall_lookup. intros j x Hx.
  destruct (decide (j = i)) as [->|Hne].
  - destruct (decide (i < length contacts)) as [Hlt|Hge].
    + rewrite list_lookup_insert_eq in Hx by done. by simplify_eq.
    + rewrite list_insert_ge in Hx by lia.
      by apply (proj1 (Forall_lookup _ _) Hall i).
  - rewrite list_lookup_insert_ne in Hx by done.
    by apply (proj1 (Forall_lookup _ _) Hall j).
Qed.

Lemma field_cases {R : Type} body (k : string) (fallback : value) :
  (Js.nullish body = true /\ Contacts.field (R := R) body k fallback = Throw)
  \/ (Js.nullish body = false
      /\ Contacts.field (R := R) body k fallback
         = Ok (Js.or_else (Js.member body (js k)) fallback)).
Proof.
  unfold Contacts.field, Js.get. destruct (Js.nullish body); [by left|by right].
Qed.

Lemma without_note_spec {R : Type} noteId (notes : list value) :
  forallb (fun n => negb (Js.nullish n)) notes = true ->
  Contacts.without_note (R := R) noteId notes
  = Ok (List.filter
          (fun n => negb (Js.is_str (Js.member n (js "id")) noteId)) notes).
Proof.
  induction notes as [|n notes IH]; [done|]. cbn [forallb].
  intros [Hn Hns]%andb_true_iff. apply negb_true_iff in Hn.
  cbn [Contacts.without_note List.filter]. unfold Js.get. rewrite Hn.
  cbn. rewrite IH by done. cbn.
  by destruct (Js.is_str (Js.member n (js "id")) noteId).
Qed.

Lemma without_note_cases {R : Type} noteId (notes : list value) :
  Contacts.without_note (R := R) noteId notes = Throw
  \/ exists kept,
       Contacts.without_note (R := R) noteId notes = Ok kept
       /\ forallb (fun n => negb (Js.nullish n)) kept = true.
Proof.
  induction notes as [|n notes IH]; [right; by exists []|].
  cbn [Contacts.without_note]. unfold Js.get.
  destruct (Js.nullish n) eqn:Hn; [by left|]. cbn.
  destruct IH as [->|(kept & -> & Hk)]; [by left|]. cbn. right.
  destruct (Js.is_str (Js.member n (js "id")) noteId); eexists; split;
    try done.
  cbn [forallb]. by rewrite Hn, Hk.
Qed.

Lemma has_notes_assign c (notes : list value) (v : value) :
  forallb (fun n => negb (Js.nullish n)) notes = true ->
  Contacts.has_notes
    (Js.assign [ (js "notes", VArr notes); (js "updatedAt", v) ] c) = true.
Proof.
  intros H. unfold Contacts.has_notes, Js.assign. cbn [foldl fst snd].
  rewrite member_insert_ne by (by apply key_ne).
  by rewrite member_insert_eq.
Qed.

(** Every request keeps the notes of every contact a list of objects. *)
Lemma perform_has_notes (r : Contacts.request) contacts :
  Forall (fun c => Contacts.has_notes c = true) contacts ->
  Forall (fun c => Contacts.has_notes c = true) (Contacts.perform r contacts).
Proof.
  intros Hall. destruct r as [e body|e id body|id|e id body|e id noteId];
    cbn [Contacts.perform].
  - unfold Contacts.create.
    destruct (field_cases (R := response obj) body "name" (VStr []))
      as [[Hn ->]|[Hn ->]]; [done|].
    unfold Contacts.field, Js.get. rewrite Hn. cbn.
    apply Forall_app. split; [done|]. constructor; [|done].
    unfold Contacts.has_notes, Js.assign. cbn [foldl fst snd].
    rewrite !member_insert_ne by (by apply key_ne).
    by rewrite member_insert_eq.
  - unfold Contacts.update.
    destruct (Contacts.find id contacts) as [[i c]|] eqn:Hfind; [|done].
    destruct (Js.nullish body); [done|]. cbn.
    apply has_notes_insert; [done|].
    apply contact_find_spec in Hfind as [Hi _].
    pose proof (proj1 (Forall_lookup _ _) Hall i c Hi) as Hc.
    unfold Contacts.has_notes, Js.assign in *. cbn [foldl fst snd].
    rewrite member_insert_ne by (by apply key_ne).
    by rewrite member_insert_eq.
  - unfold Contacts.remove.
    case_bool_decide; [done|]. cbn.
    apply Forall_forall. intros c Hc. apply list_elem_of_In in Hc.
    apply List.filter_In in Hc as [Hc _]. apply list_elem_of_In in Hc.
    by apply (proj1 (Forall_forall _ _) Hall).
  - unfold Contacts.add_note.
    destruct (Contacts.find id contacts) as [[i c]|] eqn:Hfind; [|done].
    destruct (field_cases (R := response obj) body "text" (VStr []))
      as [[Hn ->]|[Hn ->]]; [done|]. cbn.
    apply contact_find_spec in Hfind as [Hi _].
    pose proof (proj1 (Forall_lookup _ _) Hall i c Hi) as Hc.
    unfold Contacts.has_notes in Hc.
    destruct (Js.member (VObj c) (js "notes")) as [| | | | |notes|]; try done.
    cbn. apply has_notes_insert; [done|]. apply has_notes_assign.
    rewrite forallb_app, Hc. done.
  - unfold Contacts.remove_note.
    destruct (Contacts.find id contacts) as [[i c]|] eqn:Hfind; [|done].
    destruct (Js.member (VObj c) (js "notes")) as [| | | | |notes|]; try done.
    destruct (without_note_cases (R := response ()) noteId notes)
      as [->|(kept & -> & Hk)]; [done|]. cbn.
    case_bool_decide; [done|]. cbn.
    apply has_notes_insert; [done|]. by apply has_notes_assign.
Qed.

End ContactFacts.

(** X16. Whatever requests were made since the contacts file was empty, every
    stored contact has a list of notes whose elements are objects; so a note
    can be added to every contact that is found: the request is answered 201,
    never 500. *)
Theorem contacts_keep_notes (requests : list Contacts.request) :
  let contacts :=
    foldl (fun cs r => Contacts.perform r cs) [] requests in
  Forall (fun c => Contacts.has_notes c = true) contacts
  /\ forall (e : env) (id : jsstring) (body : value),
       Js.nullish body = false ->
       is_Some (Contacts.find id contacts) ->
       exists note contacts',
         Contacts.add_note e id body contacts = (Success 201 note, contacts').
Proof.
  intros contacts.
  assert (Hall : Forall (fun c => Contacts.has_notes c = true) contacts).
  { subst contacts. induction requests as [|r rs IH] using rev_ind; [done|].
    rewrite foldl_app. cbn [foldl]. by apply perform_has_notes. }
  split; [done|]. intros e id body Hbody [[i c] Hfind].
  unfold Contacts.add_note. rewrite Hfind.
  destruct (field_cases (R := response obj) body "text" (VStr []))
    as [[Hn _]|[_ ->]]; [congruence|]. cbn.
  apply contact_find_spec in Hfind as [Hi _].
  pose proof (proj1 (Forall_lookup _ _) Hall i c Hi) as Hc.
  unfold Contacts.has_notes in Hc.
  destruct (Js.member (VObj c) (js "notes")) as [| | | | |notes|]; try done.
  cbn. by eexists _, _.
Qed.

(** X17. [PUT /api/contacts/:id] cannot change the [id] or the [notes] of a
    contact: whatever the body holds under these names is dropped. As the
    answer and the file hold the contact ([Wire.written]), every other
    property is the body's, as [JSON.stringify] writes it (the value itself,
    but [null] for a number beyond the range of doubles), where the body has
    it, and the contact's own otherwise; [updatedAt] is the time of the
    request, and the other contacts stay as they are. *)
Theorem contact_update_keeps_notes (e : env) (id : jsstring) (body : value)
  (contacts : list obj) (i : nat) (contact : obj) :
  Contacts.find id contacts = Some (i, contact) ->
  Js.nullish body = false ->
  exists updated,
    Contacts.update e id body contacts
    = (Success 200 updated, <[i := updated]> contacts)
    /\ Js.member (Wire.written (VObj updated)) (js "id") = VStr id
    /\ Js.member (Wire.written (VObj updated)) (js "notes")
       = Js.member (Wire.written (VObj contact)) (js "notes")
    /\ Js.member (Wire.written (VObj updated)) (js "updatedAt") = VStr (now e)
    /\ (forall k, k <> js "id" -> k <> js "notes" -> k <> js "updatedAt" ->
        Js.member (Wire.written (VObj updated)) k
        = match Js.own_properties body !! k with
          | Some v => Wire.written v
          | None => Js.member (Wire.written (VObj contact)) k
          end).
Proof.
  intros Hfind Hbody. unfold Contacts.update. rewrite Hfind, Hbody.
  apply contact_find_spec in Hfind as [Hi Hid].
  eexists. split; [reflexivity|]. unfold Js.assign. cbn [foldl fst snd].
  assert (js "notes" <> js "id") by (by apply key_ne).
  assert (js "updatedAt" <> js "id") by (by apply key_ne).
  assert (js "updatedAt" <> js "notes") by (by apply key_ne).
  rewrite !written_member.
  split; [by rewrite 2!member_insert_ne, member_insert_eq, Hid|].
  split; [by rewrite member_insert_ne, member_insert_eq|].
  split; [by rewrite member_insert_eq|].
  intros k Hk1 Hk2 Hk3. rewrite !written_member, !member_insert_ne by done.
  rewrite !member_obj, lookup_union, lookup_delete_ne by done.
  destruct (Js.own_properties body !! k), (contact !! k); done.
Qed.

(** X18. A note added to a contact and then deleted by its id leaves the notes
    of the contact as they were, when no note of the contact had that id:
    nothing of the contact but [updatedAt] has changed, and no other contact
    has changed. *)
Theorem note_added_then_removed (e e' : env) (id : jsstring) (body : value)
  (contacts : list obj) (i : nat) (contact : obj) (notes : list value) :
  Contacts.find id contacts = Some (i, contact) ->
  Js.member (VObj contact) (js "notes") = VArr notes ->
  forallb (fun n => negb (Js.nullish n)) notes = true ->
  forallb (fun n => negb (Js.is_str (Js.member n (js "id")) (uuid_record e)))
          notes = true ->
  Js.nullish body = false ->
  exists note contacts1 contacts2 contact2,
    Contacts.add_note e id body contacts = (Success 201 note, contacts1)
    /\ Js.member (VObj note) (js "id") = VStr (uuid_record e)
    /\ Contacts.remove_note e' id (uuid_record e) contacts1
       = (Success 200 (), contacts2)
    /\ contacts2 = <[i := contact2]> contacts
    /\ Js.member (VObj contact2) (js "notes") = VArr notes
    /\ (forall k, k <> js "notes" -> k <> js "updatedAt" ->
        Js.member (VObj contact2) k = Js.member (VObj contact) k).
Proof.
  intros Hfind Hnotes Hobj Hfresh Hbody.
  pose proof (contact_find_spec _ _ _ _ Hfind) as [Hi Hid].
  pose proof (lookup_lt_Some _ _ _ Hi) as Hlt.
  assert (Hnu : js "notes" <> js "updatedAt") by (by apply key_ne).
  assert (Hni : js "notes" <> js "id") by (by apply key_ne).
  assert (Hui : js "updatedAt" <> js "id") by (by apply key_ne).
  set (note := Js.assign
    [ (js "id", VStr (uuid_record e));
      (js "text", Js.or_else (Js.member body (js "text")) (VStr []));
      (js "createdAt", VStr (now_created e)) ] ∅).
  set (contact1 := Js.assign
    [ (js "notes", VArr (notes ++ [VObj note]));
      (js "updatedAt", VStr (now e)) ] contact).
  set (contact2 := Js.assign
    [ (js "notes", VArr notes); (js "updatedAt", VStr (now e')) ] contact1).
  assert (Hnote : Js.member (VObj note) (js "id") = VStr (uuid_record e)).
  { unfold note, Js.assign. cbn [foldl fst snd].
    rewrite !member_insert_ne by (by apply key_ne).
    by rewrite member_insert_eq. }
  exists note, (<[i := contact1]> contacts),
    (<[i := contact2]> contacts), contact2.
  split.
  { unfold Contacts.add_note. rewrite Hfind.
    destruct (field_cases (R := response obj) body "text" (VStr []))
      as [[Hn _]|[_ ->]]; [congruence|]. cbn. by rewrite Hnotes. }
  split; [done|]. split.
  { unfold Contacts.remove_note.
    assert (Hfind1 : Contacts.find id (<[i := contact1]> contacts)
                     = Some (i, contact1)).
    { unfold Contacts.find in *. apply list_find_Some.
      apply list_find_Some in Hfind as (_ & Hc & Hmin).
      split; [by apply list_lookup_insert_eq|]. split.
      - unfold Contacts.has_id in *. unfold contact1, Js.assign.
        cbn [foldl fst snd]. by rewrite !member_insert_ne.
      - intros j y Hy Hj. rewrite list_lookup_insert_ne in Hy by lia.
        by apply (Hmin j). }
    rewrite Hfind1.
    assert (Hn1 : Js.member (VObj contact1) (js "notes")
                  = VArr (notes ++ [VObj note])).
    { unfold contact1, Js.assign. cbn [foldl fst snd].
      by rewrite member_insert_ne, member_insert_eq. }
    rewrite Hn1.
    rewrite (without_note_spec (R := response ())); last first.
    { by rewrite forallb_app, Hobj. }
    rewrite List.filter_app. cbn [List.filter].
    rewrite Hnote. unfold Js.is_str at 2. rewrite bool_decide_eq_true_2 by done.
    cbn [negb]. rewrite app_nil_r.
    rewrite (filter_length_all _ notes Hfresh). cbn.
    rewrite bool_decide_eq_false_2 by (rewrite length_app; cbn; lia).
    cbn. by rewrite list_insert_insert_eq. }
  split; [done|]. split.
  { unfold contact2, Js.assign. cbn [foldl fst snd].
    by rewrite member_insert_ne, member_insert_eq. }
  intros k Hk1 Hk2. unfold contact2, contact1, Js.assign. cbn [foldl fst snd].
  by rewrite !member_insert_ne.
Qed.

(** ** Job boards *)

Section BoardFacts.

Implicit Types (s : jsstring) (c : N).

Lemma drop_while_split (f : N -> bool) s :
  exists t, s = t ++ Str.drop_while f s /\ forallb f t = true.
Proof.
  induction s as [|a s (t & Ht & Hall)]; [by exists []|].
  cbn [Str.drop_while]. destruct (f a) eqn:Ha; [|by exists []].
  exists (a :: t). cbn [app forallb]. rewrite Ha, Hall. split; [|done].
  by rewrite <- Ht.
Qed.

Lemma trim_end_spec s :
  exists w, s = Str.trim_end s ++ w
    /\ match rev (Str.trim_end s) with
       | [] => True
       | c :: _ => Str.is_space c = false
       end.
Proof.
  unfold Str.trim_end. rewrite rev_involutive.
  destruct (drop_while_split Str.is_space (rev s)) as (t & Ht & _).
  exists (rev t). split.
  - rewrite <- rev_app_distr, <- Ht. by rewrite rev_involutive.
  - destruct (Str.drop_while Str.is_space (rev s)) as [|c r] eqn:E; [done|].
    by apply drop_while_head in E.
Qed.

(** The text [trim] gives begins and ends with something other than white
    space. *)
Lemma trim_ends s c t :
  Str.trim s = c :: t ->
  Str.is_space c = false /\ Str.is_space (List.last (c :: t) c) = false.
Proof.
  intros E. unfold Str.trim in E.
  destruct (trim_end_spec (Str.trim_start s)) as (w & Hw & Hlast).
  rewrite E in Hw, Hlast. split.
  - unfold Str.trim_start in Hw. cbn [app] in Hw.
    by apply drop_while_head in Hw.
  - destruct (rev (c :: t)) as [|d r] eqn:Er.
    { apply (f_equal (@rev N)) in Er. rewrite rev_involutive in Er. done. }
    apply (f_equal (@rev N)) in Er. rewrite rev_involutive in Er.
    cbn [rev] in Er. rewrite Er. by rewrite last_last.
Qed.

Lemma trim_trimmed s : Boards.trimmed (Str.trim s) = true.
Proof.
  destruct (Str.trim s) as [|c t] eqn:E; [done|].
  destruct (trim_ends s c t E) as [H1 H2].
  unfold Boards.trimmed. by rewrite H1, H2.
Qed.

Lemma trim_idem s : Str.trim (Str.trim s) = Str.trim s.
Proof.
  destruct (Str.trim s) as [|c t] eqn:E; [done|].
  destruct (trim_ends s c t E) as [H1 _].
  unfold Str.trim, Str.trim_start. rewrite drop_while_stop by done.
  unfold Str.trim, Str.trim_end in E. rewrite <- E.
  unfold Str.trim_end. by rewrite rev_involutive, drop_while_idem.
Qed.

End BoardFacts.

(** X19. [POST /api/custom-boards] stores the name, the URL and the description
    without the white space around them. The check that the name and the URL
    are there comes before the trimming: a name made of white space passes
    it, and the board is stored with the empty name. *)
Theorem board_stored_trimmed (e : env) (body : value) (boards : list obj)
  (name url : jsstring) :
  Js.member body (js "name") = VStr name ->
  Js.member body (js "url") = VStr url ->
  Js.truthy (Js.member body (js "description")) = false ->
  name <> [] -> url <> [] ->
  exists board,
    Boards.create e body boards = Ok (Success 201 board, boards ++ [board])
    /\ Js.member (VObj board) (js "name") = VStr (Str.trim name)
    /\ Js.member (VObj board) (js "url") = VStr (Str.trim url)
    /\ Js.member (VObj board) (js "description") = VStr []
    /\ Boards.trimmed (Str.trim name) = true
    /\ Boards.trimmed (Str.trim url) = true
    /\ (forallb Str.is_space name = true ->
        Js.member (VObj board) (js "name") = VStr []).
Proof.
  intros Hname Hurl Hdesc Hn Hu.
  assert (Hbody : Js.nullish body = false).
  { destruct body; try done; by vm_compute in Hname. }
  unfold Boards.create, Js.get. rewrite Hbody. cbn [mbind res_bind].
  rewrite Hname, Hurl. unfold Js.truthy at 1 2.
  rewrite !bool_decide_eq_false_2 by done. cbn [negb orb Boards.trim].
  unfold Js.or_else. rewrite Hdesc. cbn [Boards.trim mbind res_bind].
  eexists. split; [reflexivity|]. unfold Js.assign. cbn [foldl fst snd].
  split.
  { rewrite 3!member_insert_ne by (by apply key_ne). by rewrite member_insert_eq. }
  split.
  { rewrite 2!member_insert_ne by (by apply key_ne). by rewrite member_insert_eq. }
  split.
  { rewrite member_insert_ne by (by apply key_ne). by rewrite member_insert_eq. }
  split; [apply trim_trimmed|]. split; [apply trim_trimmed|].
  intros Hsp. rewrite 3!member_insert_ne by (by apply key_ne).
  rewrite member_insert_eq. f_equal. by apply trim_nil_iff.
Qed.

(** ** The [.env] file *)

Section DotEnvFacts.

Implicit Types (s line key k v : jsstring) (lines : list jsstring)
  (environment : gmap jsstring jsstring).

Lemma split_cons_line s : exists line lines, DotEnv.split s = line :: lines.
Proof.
  induction s as [|c s (line & lines & IH)]; [by eexists _, _|].
  cbn [DotEnv.split]. rewrite IH. destruct (c =? 10)%N; by eexists _, _.
Qed.

Lemma split_one_line s line rest :
  DotEnv.one_line line = true ->
  DotEnv.split (line ++ 10%N :: rest) = line :: DotEnv.split rest.
Proof.
  intros Hl. induction line as [|c line IH]; [done|].
  cbn [DotEnv.one_line forallb] in Hl. apply andb_true_iff in Hl as [Hc Hl].
  apply negb_true_iff in Hc. cbn [app DotEnv.split]. rewrite Hc.
  by rewrite IH.
Qed.

Lemma split_last_line line :
  DotEnv.one_line line = true -> DotEnv.split line = [line].
Proof.
  intros Hl. induction line as [|c line IH]; [done|].
  cbn [DotEnv.one_line forallb] in Hl. apply andb_true_iff in Hl as [Hc Hl].
  apply negb_true_iff in Hc. cbn [DotEnv.split]. rewrite Hc.
  by rewrite IH.
Qed.

Lemma split_lines s : Forall (fun l => DotEnv.one_line l = true) (DotEnv.split s).
Proof.
  induction s as [|c s IH]; [by repeat constructor|].
  cbn [DotEnv.split]. destruct (N.eqb_spec c 10) as [->|Hc].
  - by constructor.
  - apply N.eqb_neq in Hc.
    destruct (DotEnv.split s) as [|line lines].
    + constructor; [|done]. cbn [DotEnv.one_line forallb]. by rewrite Hc.
    + apply Forall_cons in IH as [Hl Hls]. constructor; [|done].
      cbn [DotEnv.one_line forallb]. by rewrite Hc.
Qed.

(** What was joined is what the split gives. *)
Lemma split_join line lines :
  Forall (fun l => DotEnv.one_line l = true) (line :: lines) ->
  DotEnv.split (DotEnv.join (line :: lines)) = line :: lines.
Proof.
  revert line. induction lines as [|l lines IH]; intros line Hall.
  - apply Forall_cons in Hall as [Hl _]. unfold DotEnv.join.
    rewrite join_one. by apply split_last_line.
  - apply Forall_cons in Hall as [Hl Hall]. unfold DotEnv.join in *.
    rewrite join_cons. cbn [app]. rewrite split_one_line by done.
    by rewrite IH.
Qed.

Lemma cut_app a rest :
  forallb (fun c => negb (c =? 61)%N) a = true ->
  DotEnv.cut (a ++ 61%N :: rest) = Some (a, rest).
Proof.
  induction a as [|c a IH]; [done|]. cbn [forallb].
  intros [Hc Ha]%andb_true_iff. apply negb_true_iff in Hc.
  cbn [app DotEnv.cut]. by rewrite Hc, IH.
Qed.

Lemma trim_fixed s :
  Boards.trimmed s = true -> Str.trim s = s.
Proof.
  destruct s as [|c t]; [done|]. unfold Boards.trimmed.
  intros [H1 H2]%andb_true_iff. apply negb_true_iff in H1, H2.
  unfold Str.trim, Str.trim_start. rewrite drop_while_stop by done.
  unfold Str.trim_end.
  destruct (rev (c :: t)) as [|d r] eqn:Er.
  { apply (f_equal (@rev N)) in Er. rewrite rev_involutive in Er. done. }
  assert (List.last (c :: t) c = d) as Hd.
  { apply (f_equal (@rev N)) in Er. rewrite rev_involutive in Er.
    cbn [rev] in Er. rewrite Er. by rewrite last_last. }
  rewrite Hd in H2. rewrite drop_while_stop by done.
  by rewrite <- Er, rev_involutive.
Qed.

Lemma last_default (d : N) (s : jsstring) (c0 d0 : N) :
  List.last (d :: s) c0 = List.last (d :: s) d0.
Proof.
  revert d. induction s as [|x s IH]; intros d; [done|].
  change (List.last (x :: s) c0 = List.last (x :: s) d0). apply IH.
Qed.

Lemma last_skip (x : jsstring) (d : N) (s : jsstring) (c0 d0 : N) :
  List.last (x ++ d :: s) c0 = List.last (d :: s) d0.
Proof.
  induction x as [|a x IH]; [apply last_default|].
  cbn [app]. rewrite <- IH. destruct (x ++ d :: s) as [|y r] eqn:E; [|done].
  by destruct x.
Qed.

Lemma trimmed_prefix (p s : jsstring) c :
  Boards.trimmed (c :: p) = true -> Boards.trimmed s = true -> s <> [] ->
  Boards.trimmed ((c :: p) ++ s) = true.
Proof.
  unfold Boards.trimmed at 1. intros [Hc _]%andb_true_iff Hs Hne.
  destruct s as [|d s]; [done|]. unfold Boards.trimmed in Hs.
  apply andb_true_iff in Hs as [_ Hlast]. cbn [app]. unfold Boards.trimmed.
  rewrite Hc. cbn [andb].
  change (c :: p ++ d :: s) with ((c :: p) ++ d :: s).
  by rewrite (last_skip _ _ _ _ d).
Qed.

(** A line that defines the key for the settings route defines it for the
    loader. *)
Lemma defines_key_reads line :
  DotEnv.defines_key line = true ->
  exists v, DotEnv.reads line = Some (DotEnv.name, v).
Proof.
  unfold DotEnv.defines_key, DotEnv.reads.
  intros [y Hy]%starts_with_split. rewrite Hy.
  rewrite bool_decide_eq_false_2 by done.
  replace (Str.starts_with (js "#") ((DotEnv.name ++ js "=") ++ y)) with false
    by done.
  cbn [orb]. rewrite <- app_assoc.
  change (js "=" ++ y) with (61%N :: y).
  rewrite cut_app by done. cbn [mbind option_bind].
  eexists. reflexivity.
Qed.

Lemma reads_definition key :
  Boards.trimmed key = true -> key <> [] ->
  DotEnv.reads (DotEnv.definition key)
  = Some (DotEnv.name, DotEnv.unquote key).
Proof.
  intros Hk Hne. unfold DotEnv.reads, DotEnv.definition.
  assert (Ht : Str.trim (DotEnv.name ++ js "=" ++ key)
               = DotEnv.name ++ js "=" ++ key).
  { apply trim_fixed. rewrite app_assoc.
    change (DotEnv.name ++ js "=")
      with (65%N :: [78; 84; 72; 82; 79; 80; 73; 67; 95; 65; 80; 73; 95;
                     75; 69; 89; 61]%N).
    by apply trimmed_prefix. }
  rewrite Ht. rewrite bool_decide_eq_false_2 by done.
  replace (Str.starts_with (js "#") (DotEnv.name ++ js "=" ++ key)) with false
    by done.
  cbn [orb]. change (js "=" ++ key) with (61%N :: key).
  rewrite cut_app by done. cbn [mbind option_bind].
  rewrite (trim_fixed key Hk). reflexivity.
Qed.

Lemma load_line_lookup environment line k :
  DotEnv.load_line environment line !! k
  = match DotEnv.reads line with
    | Some (k', v) =>
        if bool_decide (k' = k) then
          match environment !! k with
          | Some (c :: r) => Some (c :: r)
          | _ => Some v
          end
        else environment !! k
    | None => environment !! k
    end.
Proof.
  unfold DotEnv.load_line. destruct (DotEnv.reads line) as [[k' v]|]; [|done].
  case_bool_decide as Hk.
  - subst k'. destruct (environment !! k) as [[|c r]|] eqn:E;
      by rewrite ?lookup_insert_eq, ?E.
  - destruct (environment !! k') as [[|c r]|];
      by rewrite ?lookup_insert_ne.
Qed.

(** The key after the loader, when every line that defines it gives [v]. *)
Lemma load_defined lines v : forall environment,
  Forall (fun line => forall v', DotEnv.reads line = Some (DotEnv.name, v') ->
                        v' = v) lines ->
  (environment !! DotEnv.name = Some v
   \/ ((environment !! DotEnv.name = None \/ environment !! DotEnv.name = Some [])
       /\ Exists (fun line => exists v', DotEnv.reads line = Some (DotEnv.name, v'))
            lines)) ->
  foldl DotEnv.load_line environment lines !! DotEnv.name = Some v.
Proof.
  induction lines as [|line lines IH]; intros environment Hall Hstart.
  - destruct Hstart as [?|[_ Hex]]; [done|]. by apply Exists_nil in Hex.
  - apply Forall_cons in Hall as [Hline Hall]. cbn [foldl].
    apply IH; [done|].
    rewrite load_line_lookup.
    destruct (DotEnv.reads line) as [[k' v']|] eqn:Er.
    + case_bool_decide as Hk.
      * subst k'. rewrite (Hline v' eq_refl). left.
        destruct Hstart as [->|[[->| ->] _]]; [by destruct v|done..].
      * destruct Hstart as [?|[? Hex]]; [by left|]. right. split; [done|].
        apply Exists_cons in Hex as [(v'' & Hv)|?]; [congruence|done].
    + destruct Hstart as [?|[? Hex]]; [by left|]. right. split; [done|].
      apply Exists_cons in Hex as [(v'' & Hv)|?]; [congruence|done].
Qed.

(** Two files whose lines differ only in lines that define the key are
    loaded alike as to the other names. *)
Lemma load_other lines1 lines2 k : forall environment1 environment2,
  k <> DotEnv.name ->
  environment1 !! k = environment2 !! k ->
  Forall2 (fun l1 l2 =>
             l1 = l2
             \/ (DotEnv.names_key l1 = true /\ DotEnv.names_key l2 = true))
          lines1 lines2 ->
  foldl DotEnv.load_line environment1 lines1 !! k
  = foldl DotEnv.load_line environment2 lines2 !! k.
Proof.
  intros environment1 environment2 Hk Henv Hlines. revert environment1 environment2 Henv.
  induction Hlines as [|l1 l2 lines1 lines2 Hl Hls IH];
    intros environment1 environment2 Henv; [done|].
  cbn [foldl]. apply IH. rewrite !load_line_lookup.
  destruct Hl as [->|[H1 H2]].
  - rewrite Henv. done.
  - unfold DotEnv.names_key in H1, H2.
    destruct (DotEnv.reads l1) as [[k1 v1]|]; [|done].
    destruct (DotEnv.reads l2) as [[k2 v2]|]; [|done].
    apply bool_decide_eq_true in H1, H2. subst k1 k2.
    by rewrite !bool_decide_eq_false_2.
Qed.

Lemma load_line_skip environment line k :
  k <> DotEnv.name -> DotEnv.names_key line = true ->
  DotEnv.load_line environment line !! k = environment !! k.
Proof.
  intros Hk Hn. rewrite load_line_lookup. unfold DotEnv.names_key in Hn.
  destruct (DotEnv.reads line) as [[k1 v1]|]; [|done].
  apply bool_decide_eq_true in Hn. subst k1.
  by rewrite bool_decide_eq_false_2.
Qed.

End DotEnvFacts.

Section SettingsFacts.

Implicit Types (key line : jsstring) (lines : list jsstring)
  (environment : gmap jsstring jsstring).

Lemma definition_one_line key :
  DotEnv.one_line key = true -> DotEnv.one_line (DotEnv.definition key) = true.
Proof.
  intros H. unfold DotEnv.definition, DotEnv.one_line in *.
  by rewrite !forallb_app, H.
Qed.

Lemma definition_names_key key :
  Boards.trimmed key = true -> key <> [] ->
  DotEnv.names_key (DotEnv.definition key) = true.
Proof.
  intros Hk Hne. unfold DotEnv.names_key.
  rewrite reads_definition by done. by apply bool_decide_eq_true.
Qed.

Lemma defines_names_key line :
  DotEnv.defines_key line = true -> DotEnv.names_key line = true.
Proof.
  intros (v & Hv)%defines_key_reads. unfold DotEnv.names_key. rewrite Hv.
  by apply bool_decide_eq_true.
Qed.

Lemma replaced_lines key lines :
  DotEnv.one_line key = true ->
  Forall (fun l => DotEnv.one_line l = true) lines ->
  Forall (fun l => DotEnv.one_line l = true) (map (DotEnv.replaced key) lines).
Proof.
  intros Hk Hall. apply Forall_map. eapply Forall_impl; [exact Hall|].
  intros line Hl. unfold DotEnv.replaced.
  destruct (DotEnv.defines_key line); [by apply definition_one_line|done].
Qed.

(** After the replacement, the lines that define the key for the loader are
    the new definition. *)
Lemma replaced_reads key lines :
  Boards.trimmed key = true -> key <> [] ->
  forallb (fun line => implb (DotEnv.names_key line) (DotEnv.defines_key line))
          lines = true ->
  Forall (fun line => forall v',
            DotEnv.reads line = Some (DotEnv.name, v') ->
            v' = DotEnv.unquote key)
         (map (DotEnv.replaced key) lines).
Proof.
  intros Hk Hne Hall. apply Forall_map, Forall_forall. intros line Hin v' Hv.
  rewrite forallb_forall in Hall. apply list_elem_of_In in Hin.
  specialize (Hall line Hin). unfold DotEnv.replaced in Hv.
  destruct (DotEnv.defines_key line) eqn:Hd.
  - rewrite reads_definition in Hv by done. congruence.
  - unfold DotEnv.names_key in Hall. rewrite Hv in Hall.
    by rewrite bool_decide_eq_true_2 in Hall.
Qed.

Lemma replaced_exists key lines :
  Boards.trimmed key = true -> key <> [] ->
  existsb DotEnv.defines_key lines = true ->
  Exists (fun line => exists v', DotEnv.reads line = Some (DotEnv.name, v'))
         (map (DotEnv.replaced key) lines).
Proof.
  intros Hk Hne (line & Hin & Hd)%existsb_exists.
  apply Exists_exists. exists (DotEnv.replaced key line). split.
  - apply list_elem_of_In, in_map, Hin.
  - unfold DotEnv.replaced. rewrite Hd. eexists. by apply reads_definition.
Qed.

Lemma replaced_alike key lines :
  Boards.trimmed key = true -> key <> [] ->
  Forall2 (fun l1 l2 =>
             l1 = l2
             \/ (DotEnv.names_key l1 = true /\ DotEnv.names_key l2 = true))
          (map (DotEnv.replaced key) lines) lines.
Proof.
  intros Hk Hne. induction lines as [|line lines IH]; [constructor|].
  cbn [map]. constructor; [|done]. unfold DotEnv.replaced.
  destruct (DotEnv.defines_key line) eqn:Hd; [right|by left].
  split; [by apply definition_names_key|by apply defines_names_key].
Qed.

End SettingsFacts.

Section EncodingFacts.

Implicit Types (s line key : jsstring) (lines : list jsstring) (c d : N).

Lemma closed_pair c d :
  Stringify.is_high c = true -> Stringify.is_low d = true ->
  Stringify.closed [c; d].
Proof. intros Hc Hd rest. cbn. by rewrite Hc, Hd. Qed.

Lemma closed_unit c :
  Stringify.is_high c = false -> Stringify.is_low c = false ->
  Stringify.closed [c].
Proof. intros Hc Hd rest. cbn. by rewrite Hc, Hd. Qed.

Lemma closed_well_formed s :
  Stringify.closed s -> Stringify.well_formed s = true.
Proof. intros H. specialize (H []). by rewrite app_nil_r in H. Qed.

(** A text without a lone surrogate is made of pairs and of units that are
    no surrogates. *)
Lemma well_formed_cases s :
  Stringify.well_formed s = true ->
  s = []
  \/ (exists c d s', s = c :: d :: s' /\ Stringify.is_high c = true
        /\ Stringify.is_low d = true /\ Stringify.well_formed s' = true)
  \/ (exists c s', s = c :: s' /\ Stringify.is_high c = false
        /\ Stringify.is_low c = false /\ Stringify.well_formed s' = true).
Proof.
  destruct s as [|c s']; [by left|]. cbn [Stringify.well_formed].
  destruct (Stringify.is_high c) eqn:Hc.
  - destruct s' as [|d s'']; [done|]. intros [Hd Hs]%andb_true_iff.
    right; left. by exists c, d, s''.
  - intros [Hd Hs]%andb_true_iff. apply negb_true_iff in Hd.
    right; right. by exists c, s'.
Qed.

Lemma well_formed_ind (P : jsstring -> Prop) :
  P [] ->
  (forall c d s, Stringify.is_high c = true -> Stringify.is_low d = true ->
     Stringify.well_formed s = true -> P s -> P (c :: d :: s)) ->
  (forall c s, Stringify.is_high c = false -> Stringify.is_low c = false ->
     Stringify.well_formed s = true -> P s -> P (c :: s)) ->
  forall s, Stringify.well_formed s = true -> P s.
Proof.
  intros Hnil Hpair Hunit s.
  induction s as [s IH] using (induction_ltof1 _ (@length N)).
  unfold ltof in IH. intros Hs.
  destruct (well_formed_cases s Hs)
    as [->|[(c & d & s' & -> & Hc & Hd & Hs')|(c & s' & -> & Hc & Hd & Hs')]];
    [done| |].
  - apply Hpair; [done..|]. apply IH; [cbn; lia|done].
  - apply Hunit; [done..|]. apply IH; [cbn; lia|done].
Qed.

Lemma well_formed_closed s :
  Stringify.well_formed s = true -> Stringify.closed s.
Proof.
  revert s. apply well_formed_ind.
  - apply closed_nil.
  - intros c d s Hc Hd _ IH. change (c :: d :: s) with ([c; d] ++ s).
    apply closed_app; [by apply closed_pair|done].
  - intros c s Hc Hd _ IH. change (c :: s) with ([c] ++ s).
    apply closed_app; [by apply closed_unit|done].
Qed.

Lemma utf8_well_formed s :
  Stringify.well_formed s = true -> DotEnv.utf8 s = s.
Proof.
  revert s. apply well_formed_ind.
  - done.
  - intros c d s Hc Hd _ IH. cbn. by rewrite Hc, Hd, IH.
  - intros c s Hc Hd _ IH. cbn. by rewrite Hc, Hd, IH.
Qed.

Lemma split_unit c s line lines :
  (c =? 10)%N = false -> DotEnv.split s = line :: lines ->
  DotEnv.split (c :: s) = (c :: line) :: lines.
Proof. intros Hc Hs. cbn [DotEnv.split]. by rewrite Hc, Hs. Qed.

Lemma split_closed s :
  Stringify.well_formed s = true -> Forall Stringify.closed (DotEnv.split s).
Proof.
  revert s. apply well_formed_ind.
  - constructor; [apply closed_nil|done].
  - intros c d s Hc Hd _ IH.
    assert ((c =? 10)%N = false) as Hc10.
    { apply N.eqb_neq. intros ->. done. }
    assert ((d =? 10)%N = false) as Hd10.
    { apply N.eqb_neq. intros ->. done. }
    destruct (split_cons_line s) as (line & lines & Hs).
    rewrite (split_unit c (d :: s) (d :: line) lines Hc10)
      by (by apply split_unit).
    rewrite Hs in IH. apply Forall_cons in IH as [Hl Hls].
    constructor; [|done]. change (c :: d :: line) with ([c; d] ++ line).
    apply closed_app; [by apply closed_pair|done].
  - intros c s Hc Hd _ IH.
    destruct (split_cons_line s) as (line & lines & Hs).
    destruct (c =? 10)%N eqn:Hc10.
    + cbn [DotEnv.split]. rewrite Hc10. constructor; [apply closed_nil|done].
    + rewrite (split_unit c s line lines Hc10 Hs).
      rewrite Hs in IH. apply Forall_cons in IH as [Hl Hls].
      constructor; [|done]. change (c :: line) with ([c] ++ line).
      apply closed_app; [by apply closed_unit|done].
Qed.

Lemma definition_closed key :
  Stringify.closed key -> Stringify.closed (DotEnv.definition key).
Proof.
  intros H. unfold DotEnv.definition. rewrite app_assoc.
  apply closed_app; [|done]. by apply closed_plain.
Qed.

Lemma updated_well_formed s key :
  Stringify.well_formed s = true -> Stringify.well_formed key = true ->
  Stringify.well_formed (DotEnv.updated s key) = true.
Proof.
  intros Hs Hk. apply closed_well_formed. unfold DotEnv.updated, DotEnv.join.
  pose proof (split_closed s Hs) as Hlines.
  apply well_formed_closed in Hk.
  assert (Forall Stringify.closed (map (DotEnv.replaced key) (DotEnv.split s)))
    as Hrep.
  { apply Forall_map. eapply Forall_impl; [exact Hlines|].
    intros line Hl. unfold DotEnv.replaced.
    destruct (DotEnv.defines_key line); [by apply definition_closed|done]. }
  apply closed_join; [by apply closed_unit|].
  destruct (existsb _ _); [done|].
  apply Forall_app. split; [done|]. constructor; [|done].
  by apply definition_closed.
Qed.

End EncodingFacts.

(** X20. The key the settings route writes is the key the loader reads at
    the next start: when the key, trimmed, has no line feed and no surrogate
    standing alone (the file is written and read as UTF-8), the environment
    does not have the key already, and the file has no line that only the
    loader takes for a definition of the key (one with a space before the
    equals sign), the loader sets [ANTHROPIC_API_KEY] to the trimmed key
    without a quote at its start and at its end. Every other name is loaded
    as from the file before. *)
Theorem api_key_survives_restart (body : value) (file current : option jsstring)
  (key : jsstring) (environment : gmap jsstring jsstring) :
  Js.member body (js "key") = VStr key ->
  Str.trim key <> [] ->
  DotEnv.one_line (Str.trim key) = true ->
  Stringify.well_formed (Str.trim key) = true ->
  Stringify.well_formed (default [] file) = true ->
  environment !! DotEnv.name = None \/ environment !! DotEnv.name = Some [] ->
  forallb (fun line => implb (DotEnv.names_key line) (DotEnv.defines_key line))
          (DotEnv.split (default [] file)) = true ->
  exists contents,
    DotEnv.set_api_key body file current
    = (Success 200 (), Some contents, Some (Str.trim key))
    /\ DotEnv.load contents environment !! DotEnv.name
       = Some (DotEnv.unquote (Str.trim key))
    /\ forall k, k <> DotEnv.name ->
         DotEnv.load contents environment !! k
         = DotEnv.load (default [] file) environment !! k.
Proof.
  intros Hbody Hkey Hline Hwf Hwf' Henv Hfile.
  set (K := Str.trim key) in *.
  assert (HK : Boards.trimmed K = true) by apply trim_trimmed.
  assert (Hnull : Js.nullish body = false).
  { destruct body; try done; by vm_compute in Hbody. }
  assert (Hne : key <> []) by (by intros ->).
  exists (DotEnv.updated (default [] file) K). split.
  { unfold DotEnv.set_api_key, Js.get. rewrite Hnull. cbn [mbind res_bind].
    rewrite Hbody. unfold Js.truthy. rewrite bool_decide_eq_false_2 by done.
    cbn [negb]. fold K. rewrite bool_decide_eq_false_2 by done.
    cbn [mret res_ret]. unfold mret, res_ret.
    by rewrite utf8_well_formed by (by apply updated_well_formed). }
  unfold DotEnv.load, DotEnv.updated.
  set (lines := DotEnv.split (default [] file)) in *.
  pose proof (split_lines (default [] file)) as Hlines. fold lines in Hlines.
  destruct (split_cons_line (default [] file)) as (l0 & ls & Hsplit).
  fold lines in Hsplit.
  pose proof (replaced_lines K lines Hline Hlines) as Hrep.
  destruct (existsb DotEnv.defines_key lines) eqn:Hex.
  - rewrite Hsplit in Hrep |- *. cbn [map] in *. rewrite split_join by done.
    rewrite <- Hsplit. change (DotEnv.replaced K l0 :: map (DotEnv.replaced K) ls)
      with (map (DotEnv.replaced K) (l0 :: ls)). rewrite <- Hsplit. split.
    + apply load_defined; [by apply replaced_reads|]. right. split; [done|].
      by apply replaced_exists.
    + intros k Hk. apply load_other; [done..|]. by apply replaced_alike.
  - assert (Hall : Forall (fun l => DotEnv.one_line l = true)
                     (map (DotEnv.replaced K) lines ++ [DotEnv.definition K])).
    { apply Forall_app. split; [done|]. constructor; [|done].
      by apply definition_one_line. }
    rewrite Hsplit in Hall |- *. cbn [map app] in *.
    rewrite split_join by done.
    change (DotEnv.replaced K l0 :: map (DotEnv.replaced K) ls ++ [DotEnv.definition K])
      with (map (DotEnv.replaced K) (l0 :: ls) ++ [DotEnv.definition K]).
    rewrite <- Hsplit. split.
    + apply load_defined.
      * apply Forall_app. split; [by apply replaced_reads|].
        constructor; [|done]. intros v' Hv.
        rewrite reads_definition in Hv by done. congruence.
      * right. split; [done|]. apply Exists_app. right. constructor.
        eexists. by apply reads_definition.
    + intros k Hk. rewrite foldl_app. cbn [foldl].
      rewrite load_line_skip; [|done|by apply definition_names_key].
      apply load_other; [done..|]. by apply replaced_alike.
Qed.

(* ------------------------------------------------------------------------ *)
(** ** Document templates *)
(* ------------------------------------------------------------------------ *)

Section TemplateFacts.

Implicit Types (templates : list Templates.entry) (kind : jsstring).

Lemma unique_spec (xs seen : list jsstring) :
  NoDup (Templates.unique seen xs)
  /\ forall x, x ∈ Templates.unique seen xs <-> x ∈ xs /\ x ∉ seen.
Proof.
  revert seen. induction xs as [|a xs IH]; intros seen; cbn.
  - split; [constructor|]. intros x. split; [by intros ?%elem_of_nil|].
    by intros [?%elem_of_nil _].
  - case_bool_decide as Ha.
    + destruct (IH seen) as [Hnd Hin]. split; [done|]. intros x.
      rewrite Hin, elem_of_cons. split.
      * intros [Hx Hs]. split; [by right|done].
      * intros [[->|Hx] Hs]; [done|by split].
    + destruct (IH (a :: seen)) as [Hnd Hin]. split.
      * constructor; [|done]. rewrite Hin, elem_of_cons.
        intros [_ Hs]. apply Hs. by left.
      * intros x. rewrite elem_of_cons, Hin, !elem_of_cons. split.
        -- intros [->|[Hx Hs]]; [by split; [left|]|]. split; [by right|].
           intros Hx'. apply Hs. by right.
        -- intros [[->|Hx] Hs]; [by left|].
           destruct (decide (x = a)) as [->|Hne]; [by left|].
           right. split; [done|]. by intros [?|?].
Qed.

Lemma strip_braces_clean (t : jsstring) (c : N) :
  c ∈ Templates.strip_braces t -> Templates.is_brace c = false.
Proof.
  unfold Templates.strip_braces. rewrite list_elem_of_In, filter_In.
  intros [_ H]. by destruct (Templates.is_brace c).
Qed.

Lemma strip_braces_id (t : jsstring) :
  forallb (fun c => negb (Templates.is_brace c)) t = true ->
  Templates.strip_braces t = t.
Proof.
  induction t as [|c t IH]; [done|]. cbn. intros [Hc Ht]%andb_true_iff.
  rewrite Hc. f_equal. by apply IH.
Qed.

Lemma strip_braces_app (a b : jsstring) :
  Templates.strip_braces (a ++ b)
  = Templates.strip_braces a ++ Templates.strip_braces b.
Proof. apply List.filter_app. Qed.

Lemma match_all_no_brace (pre s : jsstring) :
  forallb (fun c => negb (c =? 123)%N) pre = true ->
  Str.match_all Templates.match_placeholder 0 (pre ++ s)
  = Str.match_all Templates.match_placeholder 0 s.
Proof.
  induction pre as [|c pre IH]; [done|]. cbn [forallb].
  intros [Hc Hpre]%andb_true_iff.
  change ((c :: pre) ++ s) with (c :: pre ++ s). cbn [Str.match_all].
  assert (Templates.match_placeholder (c :: pre ++ s) = None) as ->.
  { unfold Templates.match_placeholder.
    apply negb_true_iff, N.eqb_neq in Hc.
    destruct c as [|p]; [done|].
    do 7 (destruct p as [p|p|]; try done). }
  by apply IH.
Qed.

Lemma span_name (name post : jsstring) :
  forallb (fun c => negb (Templates.is_brace c)) name = true ->
  Str.span (fun c => negb (c =? 125)%N) (name ++ 125%N :: post)
  = (name, 125%N :: post).
Proof.
  induction name as [|c name IH]; [done|]. cbn [forallb].
  intros [Hc Hn]%andb_true_iff. cbn. rewrite (IH Hn).
  unfold Templates.is_brace in Hc. apply negb_true_iff, orb_false_iff in Hc.
  destruct Hc as [_ ->]. done.
Qed.

Lemma filter_kind_other templates kind :
  List.filter (fun t => bool_decide (Templates.entry_type t = kind))
    (List.filter
       (fun t => negb (bool_decide (Templates.entry_type t = kind)))
       templates) = [].
Proof.
  induction templates as [|t ts IH]; [done|]. cbn.
  case_bool_decide as Ht; cbn; [done|].
  by rewrite bool_decide_eq_false_2.
Qed.

Lemma filter_kind_keeps templates kind other :
  other <> kind ->
  List.filter (fun t => bool_decide (Templates.entry_type t = other))
    (List.filter
       (fun t => negb (bool_decide (Templates.entry_type t = kind)))
       templates)
  = List.filter (fun t => bool_decide (Templates.entry_type t = other))
      templates.
Proof.
  intros Hne. induction templates as [|t ts IH]; [done|]. cbn.
  case_bool_decide as Ht; cbn.
  - rewrite bool_decide_eq_false_2 by congruence. done.
  - by rewrite IH.
Qed.

Lemma find_registered_none templates kind :
  List.filter (fun t => bool_decide (Templates.entry_type t = kind))
              templates = [] ->
  list_find (fun t => template_type t = kind)
            (Templates.registered templates) = None.
Proof.
  intros H. apply list_find_None. unfold Templates.registered.
  induction templates as [|t ts IH]; [by constructor|]. cbn in H.
  case_bool_decide as Ht; [done|]. constructor; [done|by apply IH].
Qed.

Lemma find_registered_last templates kind (entry : Templates.entry) :
  Templates.entry_type entry = kind ->
  List.filter (fun t => bool_decide (Templates.entry_type t = kind))
              templates = [] ->
  list_find (fun t => template_type t = kind)
            (Templates.registered (templates ++ [entry]))
  = Some (length templates,
          {| template_type := kind;
             template_filename := Templates.filename entry |}).
Proof.
  intros Hk Hnone. unfold Templates.registered. rewrite map_app.
  rewrite list_find_app_r
    by (by apply (find_registered_none templates kind)).
  rewrite length_map. cbn [map list_find].
  match goal with
  | |- _ <$> list_find ?P [?x] = _ =>
      assert (list_find P [x] = Some (0, x)) as ->
  end.
  { apply list_find_Some. split; [done|]. split; [done|].
    intros i y Hy Hi. lia. }
  cbn. by rewrite Hk.
Qed.

Lemma is_kind_spec (v : value) kind :
  Templates.is_kind v = Some kind <->
  v = VStr kind /\ (kind = js "resume" \/ kind = js "cover-letter").
Proof.
  unfold Templates.is_kind. split.
  - destruct v; try done.
    destruct (bool_decide (s = js "resume")) eqn:H1;
      destruct (bool_decide (s = js "cover-letter")) eqn:H2; cbn;
      intros [= <-]; try done.
    + apply bool_decide_eq_true in H1. auto.
    + apply bool_decide_eq_true in H1. auto.
    + apply bool_decide_eq_true in H2. auto.
  - intros [-> [->| ->]]; done.
Qed.

End TemplateFacts.

Section UploadFacts.

Implicit Types (templates : list Templates.entry) (kind : jsstring).

Lemma upload_cases (e : env) (written : bool) (file : option Templates.upload)
  (v : value) templates :
  (exists u kind,
     file = Some u /\ written = true /\ Templates.is_kind v = Some kind
     /\ Templates.upload_template e written file v templates
        = (let entry :=
             {| Templates.entry_id := uuid_record e;
                Templates.entry_type := kind;
                Templates.originalName := Templates.originalname u;
                Templates.filename :=
                  kind ++ js "-" ++ uuid_record e
                  ++ (if bool_decide (Templates.extname u = [])
                      then js ".docx" else Templates.extname u);
                Templates.placeholders := Templates.scan u;
                Templates.uploadedAt := now e |} in
           (Success 201 entry,
            List.filter
              (fun t => negb (bool_decide (Templates.entry_type t = kind)))
              templates ++ [entry])))
  \/ (exists status error,
        Templates.upload_template e written file v templates
        = (Failure status error None, templates)).
Proof.
  unfold Templates.upload_template.
  destruct file as [u|]; [|right; by eexists _, _].
  destruct (Templates.is_kind v) as [kind|] eqn:Hk; [|right; by eexists _, _].
  destruct written; [|right; by eexists _, _].
  left. by exists u, kind.
Qed.

Lemma filter_kind_last templates kind (entry : Templates.entry) :
  Templates.entry_type entry = kind ->
  List.filter (fun t => bool_decide (Templates.entry_type t = kind))
    (List.filter
       (fun t => negb (bool_decide (Templates.entry_type t = kind)))
       templates ++ [entry]) = [entry].
Proof.
  intros Hk. rewrite List.filter_app, filter_kind_other. cbn.
  by rewrite bool_decide_eq_true_2.
Qed.

Lemma upload_accepted (e : env) (written : bool)
  (file : option Templates.upload) (v : value) templates templates'
  (status : nat) (entry : Templates.entry) :
  Templates.upload_template e written file v templates
    = (Success status entry, templates') ->
  status = 201
  /\ Templates.is_kind v = Some (Templates.entry_type entry)
  /\ Templates.entry_id entry = uuid_record e
  /\ templates'
     = List.filter
         (fun t => negb (bool_decide
                           (Templates.entry_type t
                            = Templates.entry_type entry)))
         templates ++ [entry].
Proof.
  intros Hup.
  destruct (upload_cases e written file v templates)
    as [(u & kind & _ & _ & Hk & Heq)|(st & error & Heq)];
    rewrite Heq in Hup; [|done].
  cbn zeta in Hup. by injection Hup as <- <- <-.
Qed.

End UploadFacts.

(** X21. [POST /api/templates/upload] succeeds exactly when a file is given,
    the type is the string resume or cover-letter and the file can be
    written. It then answers 201 with the new entry (the fresh UUID, the
    type, the name of the file, the placeholders of the scan), and the entry
    is stored after the templates of the other types, which stay in their
    order: it is the only template of its type. Without a file the answer is
    400, with another type it is 400, and when the file cannot be written it
    is 500; in these three cases the stored templates are unchanged. *)
Theorem upload_replaces_kind (e : env) (written : bool)
  (file : option Templates.upload) (v : value)
  (entries : list Templates.entry) :
  (forall u kind,
     file = Some u -> written = true -> v = VStr kind ->
     kind = js "resume" \/ kind = js "cover-letter" ->
     exists entry entries',
       Templates.upload_template e written file v entries
       = (Success 201 entry, entries')
       /\ Templates.entry_id entry = uuid_record e
       /\ Templates.entry_type entry = kind
       /\ Templates.originalName entry = Templates.originalname u
       /\ Templates.placeholders entry = Templates.scan u
       /\ entries'
          = List.filter
              (fun t => negb (bool_decide (Templates.entry_type t = kind)))
              entries ++ [entry]
       /\ List.filter (fun t => bool_decide (Templates.entry_type t = kind))
                      entries' = [entry]
       /\ forall other, other <> kind ->
            List.filter (fun t => bool_decide (Templates.entry_type t = other))
                        entries'
            = List.filter
                (fun t => bool_decide (Templates.entry_type t = other))
                entries)
  /\ (file = None ->
      Templates.upload_template e written file v entries
      = (Failure 400 (js "No file uploaded") None, entries))
  /\ (forall u,
      file = Some u ->
      v <> VStr (js "resume") -> v <> VStr (js "cover-letter") ->
      Templates.upload_template e written file v entries
      = (Failure 400
           (jq "Template type must be 'resume' or 'cover-letter'") None,
         entries))
  /\ (forall u kind,
      file = Some u -> v = VStr kind ->
      kind = js "resume" \/ kind = js "cover-letter" -> written = false ->
      Templates.upload_template e written file v entries
      = (Failure 500 (js "Failed to upload template") None, entries)).
Proof.
  split; [|split; [|split]].
  - intros u kind -> -> -> Hkind.
    assert (Templates.is_kind (VStr kind) = Some kind) as Hk
      by (by apply is_kind_spec).
    unfold Templates.upload_template. rewrite Hk. cbn [negb].
    eexists _, _. split; [reflexivity|]. cbn [Templates.entry_id
      Templates.entry_type Templates.originalName Templates.placeholders].
    split; [done|]. split; [done|]. split; [done|]. split; [done|].
    split; [done|]. split; [by apply filter_kind_last|].
    intros other Hne.
    rewrite List.filter_app, filter_kind_keeps by done. cbn.
    rewrite bool_decide_eq_false_2 by congruence. by rewrite app_nil_r.
  - by intros ->.
  - intros u -> Hr Hc. unfold Templates.upload_template.
    destruct (Templates.is_kind v) as [kind|] eqn:Hk; [|done].
    apply is_kind_spec in Hk as [-> [->| ->]]; done.
  - intros u kind -> -> Hkind ->.
    assert (Templates.is_kind (VStr kind) = Some kind) as Hk
      by (by apply is_kind_spec).
    unfold Templates.upload_template. by rewrite Hk.
Qed.

(** X22. After an accepted upload, a generation of the uploaded type uses the
    uploaded file and no other: it writes the repaired rendering of that
    file under the name type-uuid.docx, and produces no document when the
    file is missing, the rendering throws or the result cannot be
    written. *)
Theorem uploaded_template_is_used {R : Type} (e e' : env)
  (u : Templates.upload) (v : value) (entries entries' : list Templates.entry)
  (entry : Templates.entry) (data : obj) (st : state) :
  Templates.upload_template e true (Some u) v entries
    = (Success 201 entry, entries') ->
  templates (stored st) = Templates.registered entries' ->
  Docx.generateDocx (R := R) e' (Templates.entry_type entry) data st
  = match
      (if template_exists e' (Templates.filename entry)
       then render e' (Templates.filename entry) data else None)
    with
    | Some docXml =>
        if write_ok e' then
          let name :=
            Templates.entry_type entry ++ js "-" ++ uuid_document e'
            ++ js ".docx" in
          (Ok (Some name),
           {| stored := add_generated name (Docx.repair docXml) (stored st);
              model_calls := model_calls st |})
        else (Ok None, st)
    | None => (Ok None, st)
    end.
Proof.
  intros (_ & _ & _ & ->)%upload_accepted Hst.
  unfold Docx.generateDocx, mbind, M_bind, load, mret, M_ret. rewrite Hst.
  rewrite (find_registered_last _ (Templates.entry_type entry))
    by (done || apply filter_kind_other).
  cbn [template_filename].
  destruct (template_exists e' _); cbn [negb]; [|done].
  destruct (render e' _ data) as [docXml|]; [|done].
  by destruct (write_ok e').
Qed.

(** X23. Deleting the template that an upload has just stored answers 200 and
    leaves no template of its type, so that a generation of this type
    produces no document and writes nothing. *)
Theorem upload_then_delete {R : Type} (e e' : env) (u : Templates.upload)
  (v : value) (entries entries' : list Templates.entry)
  (entry : Templates.entry) (data : obj) (st : state) :
  Templates.upload_template e true (Some u) v entries
    = (Success 201 entry, entries') ->
  exists entries'',
    Templates.delete_template (Templates.entry_id entry) entries'
      = (Success 200 (), entries'')
    /\ List.filter
         (fun t => bool_decide
                     (Templates.entry_type t = Templates.entry_type entry))
         entries'' = []
    /\ (templates (stored st) = Templates.registered entries'' ->
        Docx.generateDocx (R := R) e' (Templates.entry_type entry) data st
        = (Ok None, st)).
Proof.
  intros (_ & _ & Hid & ->)%upload_accepted.
  set (kind := Templates.entry_type entry).
  set (kept := List.filter _ entries).
  unfold Templates.delete_template.
  destruct (list_find _ (kept ++ [entry])) as [[i t]|] eqn:Hfind.
  2:{ apply list_find_None, Forall_app in Hfind as [_ Hlast].
      apply Forall_inv in Hlast. exfalso. apply Hlast. reflexivity. }
  eexists. split; [reflexivity|].
  assert (List.filter
            (fun t => bool_decide (Templates.entry_type t = kind))
            (List.filter
               (fun t => negb (bool_decide
                                 (Templates.entry_id t
                                  = Templates.entry_id entry)))
               (kept ++ [entry])) = []) as Hnone.
  { rewrite List.filter_app. cbn.
    rewrite bool_decide_eq_true_2 by done. cbn. rewrite app_nil_r.
    assert (forall l,
              List.filter
                (fun t => bool_decide (Templates.entry_type t = kind)) l = []
              -> List.filter
                   (fun t => bool_decide (Templates.entry_type t = kind))
                   (List.filter
                      (fun t => negb (bool_decide
                                        (Templates.entry_id t
                                         = Templates.entry_id entry)))
                      l) = []) as Hsub.
    { induction l as [|a l IH]; [done|]. cbn.
      case_bool_decide as Ha; [done|]. intros Hl.
      destruct (negb _); cbn; [|by apply IH].
      rewrite bool_decide_eq_false_2 by done. by apply IH. }
    apply Hsub, filter_kind_other. }
  split; [done|]. intros Hst.
  unfold Docx.generateDocx, mbind, M_bind, load, mret, M_ret. rewrite Hst.
  by rewrite (find_registered_none _ kind Hnone).
Qed.

(** X24. The placeholders listed for an uploaded document hold no value
    twice and no brace; and a name without braces that the text of the
    document shows between the first opening brace and a closing brace is
    among them. *)
Theorem placeholders_listed (u : Templates.upload) (pre name post : jsstring) :
  Templates.fullText u
    = Some (pre ++ [123%N] ++ name ++ [125%N] ++ post) ->
  forallb (fun c => negb (c =? 123)%N) pre = true ->
  forallb (fun c => negb (Templates.is_brace c)) name = true ->
  name <> [] ->
  name ∈ Templates.scan u
  /\ NoDup (Templates.scan u)
  /\ forall p c, p ∈ Templates.scan u -> c ∈ p -> Templates.is_brace c = false.
Proof.
  intros Htext Hpre Hname Hne. unfold Templates.scan. rewrite Htext.
  destruct (unique_spec
              (map Templates.strip_braces
                 (Str.match_all Templates.match_placeholder 0
                    (pre ++ [123%N] ++ name ++ [125%N] ++ post))) [])
    as [Hnd Hin].
  split; [|split; [done|]].
  - apply Hin. split; [|by intros ?%elem_of_nil].
    rewrite match_all_no_brace by done.
    change ([123%N] ++ name ++ [125%N] ++ post)
      with (123%N :: name ++ 125%N :: post).
    cbn [Str.match_all]. unfold Templates.match_placeholder at 1.
    rewrite span_name by done.
    destruct name as [|c inner]; [done|]. cbn [map].
    apply elem_of_cons. left.
    change (123%N :: c :: inner ++ [125%N])
      with ([123%N] ++ (c :: inner) ++ [125%N]).
    rewrite !strip_braces_app, (strip_braces_id (c :: inner)) by done.
    cbn. by rewrite app_nil_r.
  - intros p c [Hp _]%Hin Hc. apply list_elem_of_In, in_map_iff in Hp.
    destruct Hp as (hit & <- & _). by apply strip_braces_clean in Hc.
Qed.

(* ------------------------------------------------------------------------ *)
(** ** Downloads *)
(* ------------------------------------------------------------------------ *)

Section DownloadFacts.

Lemma dashed_plain (s : jsstring) : Download.plain (Download.dashed s).
Proof.
  induction s as [|c s IH]; [constructor|]. cbn. constructor; [|done].
  destruct (Download.is_alphanumeric c) eqn:Hc; auto.
Qed.

Lemma dashed_length (s : jsstring) : length (Download.dashed s) = length s.
Proof. apply length_map. Qed.

Lemma download_find (id : jsstring) (entries : list obj) (entry : obj) :
  Download.find id entries = Some entry ->
  entry ∈ entries /\ Js.member (VObj entry) (js "id") = VStr id.
Proof.
  unfold Download.find.
  destruct (list_find _ entries) as [[i x]|] eqn:Hfind; [|done].
  intros [= <-]. apply list_find_Some in Hfind as (Hi & Hx & _).
  split; [by eapply list_elem_of_lookup_2|].
  unfold Js.is_str in Hx. destruct (Js.member _ _); try done.
  by apply bool_decide_unpack in Hx as ->.
Qed.

Lemma downloadName_plain {R : Type} (docType : jsstring) (entry : obj)
  (name : jsstring) :
  Download.plain docType ->
  Download.downloadName (R := R) docType entry = Ok name ->
  Download.plain name.
Proof.
  intros Hd. unfold Download.downloadName.
  destruct (Js.or_else _ _) as [| | | |company| |]; try done.
  intros H. assert (name = docType ++ [45%N] ++ Download.dashed company
                            ++ js ".docx") as ->.
  { unfold mret, res_ret in H. by injection H as <-. }
  repeat (apply Forall_app; split); [done| |apply dashed_plain|].
  - constructor; [by right; left|constructor].
  - repeat (constructor; [auto|]). constructor.
Qed.

End DownloadFacts.

(** X25. What a download sends is a file that exists under the stored
    docxPath of an entry with the requested id, a resume entry before a
    cover letter entry; the name offered to the browser is made of letters,
    digits, hyphens and full stops only, whatever the company is called. *)
Theorem download_name_plain (on_disk : jsstring -> bool) (id : jsstring)
  (w : world) (status : nat) (a : Download.attachment) :
  Download.download on_disk id w = Success status a ->
  status = 200
  /\ on_disk (Download.docxPath a) = true
  /\ Download.plain (Download.name a)
  /\ exists entry,
       (Download.find id (resumes w) = Some entry
        \/ Download.find id (resumes w) = None
           /\ Download.find id (coverLetters w) = Some entry)
       /\ Js.member (VObj entry) (js "id") = VStr id
       /\ Js.member (VObj entry) (js "docxPath") = VStr (Download.docxPath a).
Proof.
  unfold Download.download.
  assert (Download.plain (js "resume")) as Hr
    by (repeat (constructor; [auto|]); constructor).
  assert (Download.plain (js "cover-letter")) as Hc
    by (repeat (constructor; [auto|]); constructor).
  assert (forall docType entry,
            Download.plain docType ->
            match
              (if negb (Js.truthy (Js.member (VObj entry) (js "docxPath")))
               then Return (Failure 404 (js "No generated document found")
                                    None)
               else
                 match Js.member (VObj entry) (js "docxPath") with
                 | VStr path =>
                     if negb (on_disk path) then
                       Return (Failure 404
                                 (js "Document file not found on disk") None)
                     else
                       name ← Download.downloadName docType entry;
                       mret (Success 200
                               {| Download.docxPath := path;
                                  Download.name := name |})
                 | _ => Throw
                 end)
            with
            | Ok r | Return r => r
            | Throw => Failure 500 (js "Failed to download document") None
            end = Success status a ->
            status = 200 /\ on_disk (Download.docxPath a) = true
            /\ Download.plain (Download.name a)
            /\ Js.member (VObj entry) (js "docxPath")
               = VStr (Download.docxPath a)) as Hsend.
  { intros docType entry Hd.
    destruct (negb (Js.truthy _)); [done|].
    destruct (Js.member (VObj entry) (js "docxPath")); try done.
    destruct (on_disk s) eqn:Hs; [|done]. cbn [negb].
    destruct (Download.downloadName docType entry) as [name| |] eqn:Hn;
      try done.
    - cbn. intros [= <- <-]. cbn. split; [done|]. split; [done|].
      split; [|done]. by eapply downloadName_plain.
    - unfold Download.downloadName in Hn.
      by destruct (Js.or_else _ _). }
  destruct (Download.find id (resumes w)) as [entry|] eqn:Hres.
  - intros (-> & Hd & Hn & Hp)%Hsend; [|done].
    split; [done|]. split; [done|]. split; [done|]. exists entry.
    split; [by left|]. split; [|done]. by eapply download_find.
  - destruct (Download.find id (coverLetters w)) as [entry|] eqn:Hcov;
      [|done].
    intros (-> & Hd & Hn & Hp)%Hsend; [|done].
    split; [done|]. split; [done|]. split; [done|]. exists entry.
    split; [by right|]. split; [|done]. by eapply download_find.
Qed.

(* ------------------------------------------------------------------------ *)
(** ** Instances *)
(* ------------------------------------------------------------------------ *)

(** The document of three paragraphs: the line of separators goes. *)
Lemma repair_takes_out_exactly_witness :
  Layout.well_formed Cases.lead Cases.segments = true
  /\ Docx.paragraphs (Layout.text Cases.lead Cases.segments)
     = map fst Cases.segments
  /\ Docx.repair (Layout.text Cases.lead Cases.segments)
     = Layout.text Cases.lead (Layout.kept Cases.segments).
Proof.
  assert (Layout.well_formed Cases.lead Cases.segments = true) as H
    by (vm_compute; reflexivity).
  split; [exact H|]. exact (repair_takes_out_exactly _ _ H).
Defined.

Lemma repair_idempotent_witness :
  let d := Layout.text Cases.lead Cases.segments in
  Layout.well_formed Cases.lead Cases.segments = true
  /\ Docx.repair (Docx.repair d) = Docx.repair d.
Proof.
  intros d.
  assert (Layout.well_formed Cases.lead Cases.segments = true) as H
    by (vm_compute; reflexivity).
  split; [exact H|]. exact (repair_idempotent _ _ H).
Defined.

(** The job of the sample has no star. *)
Lemma star_twice_witness :
  let e := Sample.outside [] in
  let w := Sample.stored_data in
  Jobs.find_index (js "job-1") (jobs w) = Some (0, Sample.job)
  /\ exists job1 job2 w1,
       Jobs.star e (js "job-1") w
       = (Success 200 job1, {| stored := w1; model_calls := 0 |})
       /\ Jobs.star e (js "job-1") w1
          = (Success 200 job2,
             {| stored := set_jobs (<[0 := job2]> (jobs w)) w;
                model_calls := 0 |})
       /\ Js.member (VObj job1) (js "starred") = VBool true
       /\ Js.member (VObj job2) (js "starred") = VBool false.
Proof.
  intros e w.
  assert (Jobs.find_index (js "job-1") (jobs w) = Some (0, Sample.job)) as H
    by (vm_compute; reflexivity).
  split; [exact H|].
  destruct (star_twice e e (js "job-1") w 0 Sample.job H)
    as (job1 & job2 & w1 & H1 & H2 & H3 & H4 & _).
  exists job1, job2, w1.
  split; [exact H1|]. split; [exact H2|].
  split; (etransitivity; [eassumption|vm_compute; reflexivity]).
Defined.

(** A reply with a score. *)
Lemma match_score_persisted_witness :
  let reply := jq "{'matchScore': 82, 'summary': 'Strong'}" in
  let e := Sample.outside reply in
  let w := Sample.stored_data in
  let parsed :=
    VObj {[ js "matchScore" := VNum 82 0;
            js "summary" := Sample.text "Strong" ]} in
  (Jobs.find_index (js "job-1") (jobs w) = Some (0, Sample.job)
   /\ model_reply e = Some reply
   /\ Extractor.extract reply = Extractor.Parsed parsed)
  /\ exists job',
       Jobs.match_analysis e (js "job-1") w
       = (Success 200 parsed,
          {| stored := set_jobs (<[0 := job']> (jobs w)) w;
             model_calls := 1 |})
       /\ Js.member (Wire.written (VObj job')) (js "matchScore") = VNum 82 0.
Proof.
  intros reply e w parsed.
  assert (Jobs.find_index (js "job-1") (jobs w) = Some (0, Sample.job)) as H1
    by (vm_compute; reflexivity).
  assert (Extractor.extract reply = Extractor.Parsed parsed) as H3
    by (vm_compute; reflexivity).
  split; [by repeat split|].
  pose proof (match_score_persisted e (js "job-1") w 0 Sample.job reply parsed
                H1 eq_refl H3) as H.
  cbv zeta in H.
  assert (Jobs.coalesce (Js.member parsed (js "matchScore"))
                        (Js.member parsed (js "score")) = VNum 82 0) as Hs
    by (vm_compute; reflexivity).
  rewrite Hs in H. change (Js.nullish parsed) with false in H.
  change (Js.nullish (VNum 82 0)) with false in H. cbv iota in H.
  destruct H as (job' & Hrun & Hscore & _).
  exists job'. split; [exact Hrun|].
  etransitivity; [exact Hscore|vm_compute; reflexivity].
Defined.

(** A score beyond the range of doubles: the client and the file read
    [null]. *)
Example match_score_beyond_doubles :
  let reply := jq "{'matchScore': 1e999}" in
  let out :=
    Jobs.match_analysis (Sample.outside reply) (js "job-1")
      Sample.stored_data in
  Extractor.extract reply
  = Extractor.Parsed (VObj {[ js "matchScore" := VNum 1 999 ]})
  /\ match out.1 with
     | Success 200 parsed =>
         Js.member (Wire.written parsed) (js "matchScore") = VNull
     | _ => False
     end
  /\ map (fun j => Js.member (Wire.written (VObj j)) (js "matchScore"))
         (jobs (stored out.2)) = [VNull].
Proof. vm_compute. repeat split; reflexivity. Qed.

(** A body with a number beyond the range of doubles. *)
Example job_created_as_written :
  let body :=
    VObj {[ js "title" := Sample.text "Designer";
            js "salary" := VNum 1 999 ]} in
  let out := Jobs.create (Sample.outside []) body Sample.stored_data in
  match out.1 with
  | Success 201 job =>
      Js.member (Wire.written (VObj job)) (js "title")
      = Sample.text "Designer"
      /\ Js.member (Wire.written (VObj job)) (js "salary") = VNull
  | _ => False
  end.
Proof. vm_compute. split; reflexivity. Qed.


Lemma one_artifact_per_job_witness :
  let e := Sample.outside (jq "{'resume': 'new'}") in
  let out := Artifacts.tailor e (js "job-1") Sample.stored_data in
  let a := match out.1 with Success _ a => a | Failure _ _ _ => ∅ end in
  (Js.member (VObj a) (js "jobId") = VStr (js "job-1")
   /\ out = (Success 200 a, out.2)
   /\ Shelf.one_per_job (resumes Sample.stored_data))
  /\ Shelf.one_per_job (resumes (stored out.2)).
Proof.
  intros e out a.
  assert (Js.member (VObj a) (js "jobId") = VStr (js "job-1")) as Ha
    by (vm_compute; reflexivity).
  assert (out = (Success 200 a, out.2)) as Hout by (vm_compute; reflexivity).
  assert (Shelf.one_per_job (resumes Sample.stored_data)) as Hone.
  { intros jobId i i' r r' Hi Hi' _ _.
    apply lookup_lt_Some in Hi, Hi'. cbn in Hi, Hi'. lia. }
  split; [by repeat split|].
  exact (proj1 (one_artifact_per_job e (js "job-1") Sample.stored_data a out.2
                  Ha) Hout Hone).
Defined.

(** Data with a quote in a text and with properties that are not written. *)
Lemma stringify_then_parse_witness :
  let text := Stringify.text [] Cases.data in
  (Stringify.safe Cases.data = true
   /\ Stringify.stringify Cases.data = Some text)
  /\ Json.parse text = Some (Stringify.to_value Cases.data).
Proof.
  intros text.
  assert (Stringify.safe Cases.data = true) as Hs by (vm_compute; reflexivity).
  split; [by split|].
  exact (stringify_then_parse Cases.data text Hs eq_refl).
Defined.

Lemma save_then_load_witness :
  let d' :=
    <[Storage.file_name Storage.JobsFile := Stringify.text [] Cases.data]>
      (∅ : Storage.disk) in
  (Stringify.safe Cases.data = true
   /\ Storage.saveData ∅ Storage.JobsFile Cases.data = Some d')
  /\ Storage.loadData d' Storage.JobsFile
     = Some (Stringify.to_value Cases.data)
  /\ Storage.loadData d' Storage.Profile = Storage.loadData ∅ Storage.Profile.
Proof.
  intros d'.
  assert (Stringify.safe Cases.data = true) as Hs by (vm_compute; reflexivity).
  split; [by split|].
  destruct (save_then_load ∅ d' Storage.JobsFile Cases.data Hs eq_refl)
    as [Hload Hrest].
  split; [exact Hload|]. by apply Hrest.
Defined.

(** A body with notes and an id of its own, and with a number beyond the
    range of doubles. *)
Lemma contact_update_keeps_notes_witness :
  let e := Sample.outside [] in
  (Contacts.find (js "contact-1") [Cases.contact] = Some (0, Cases.contact)
   /\ Js.nullish Cases.contact_update = false)
  /\ exists updated,
       Contacts.update e (js "contact-1") Cases.contact_update [Cases.contact]
       = (Success 200 updated, [updated])
       /\ Js.member (Wire.written (VObj updated)) (js "id")
          = Sample.text "contact-1"
       /\ Js.member (Wire.written (VObj updated)) (js "notes")
          = Js.member (VObj Cases.contact) (js "notes")
       /\ Js.member (Wire.written (VObj updated)) (js "name")
          = Sample.text "Ada L."
       /\ Js.member (Wire.written (VObj updated)) (js "rank") = VNull.
Proof.
  intros e.
  assert (Contacts.find (js "contact-1") [Cases.contact]
          = Some (0, Cases.contact)) as Hfind by (vm_compute; reflexivity).
  split; [by split|].
  destruct (contact_update_keeps_notes e (js "contact-1") Cases.contact_update
              [Cases.contact] 0 Cases.contact Hfind eq_refl)
    as (updated & Hrun & Hid & Hnotes & _ & Hrest).
  exists updated. split; [exact Hrun|]. split; [exact Hid|].
  split; [etransitivity; [exact Hnotes|vm_compute; reflexivity]|].
  split; (etransitivity;
    [apply Hrest; by apply key_ne|vm_compute; reflexivity]).
Defined.

Lemma note_added_then_removed_witness :
  let e := Sample.outside [] in
  let body := VObj {[ js "text" := Sample.text "Call on Monday" ]} in
  let notes :=
    match Js.member (VObj Cases.contact) (js "notes") with
    | VArr notes => notes
    | _ => []
    end in
  (Contacts.find (js "contact-1") [Cases.contact] = Some (0, Cases.contact)
   /\ Js.member (VObj Cases.contact) (js "notes") = VArr notes
   /\ forallb (fun n => negb (Js.nullish n)) notes = true
   /\ forallb (fun n => negb (Js.is_str (Js.member n (js "id"))
                                        (uuid_record e))) notes = true
   /\ Js.nullish body = false)
  /\ exists note contacts1 contact2,
       Contacts.add_note e (js "contact-1") body [Cases.contact]
       = (Success 201 note, contacts1)
       /\ Contacts.remove_note e (js "contact-1") (js "uuid-1") contacts1
          = (Success 200 (), [contact2])
       /\ Js.member (VObj contact2) (js "notes") = VArr notes.
Proof.
  intros e body notes.
  assert (Contacts.find (js "contact-1") [Cases.contact]
          = Some (0, Cases.contact)) as Hfind by (vm_compute; reflexivity).
  assert (Js.member (VObj Cases.contact) (js "notes") = VArr notes) as Hnotes
    by (vm_compute; reflexivity).
  assert (forallb (fun n => negb (Js.nullish n)) notes = true) as Hobj
    by (vm_compute; reflexivity).
  assert (forallb (fun n => negb (Js.is_str (Js.member n (js "id"))
                                            (uuid_record e))) notes = true)
    as Hfresh by (vm_compute; reflexivity).
  split; [by repeat split|].
  destruct (note_added_then_removed e e (js "contact-1") body [Cases.contact]
              0 Cases.contact notes Hfind Hnotes Hobj Hfresh eq_refl)
    as (note & contacts1 & contacts2 & contact2 & Hadd & _ & Hdel & -> & Hn & _).
  exists note, contacts1, contact2. by repeat split.
Defined.

(** A name and a URL with white space around them. *)
Lemma board_stored_trimmed_witness :
  let e := Sample.outside [] in
  let name := js "  Design Jobs " in
  let url := js "https://example.org/jobs " in
  (Js.member Cases.board (js "name") = VStr name
   /\ Js.member Cases.board (js "url") = VStr url
   /\ Js.truthy (Js.member Cases.board (js "description")) = false
   /\ name <> [] /\ url <> [])
  /\ exists board,
       Boards.create e Cases.board [] = Ok (Success 201 board, [board])
       /\ Js.member (VObj board) (js "name") = Sample.text "Design Jobs"
       /\ Js.member (VObj board) (js "url")
          = Sample.text "https://example.org/jobs".
Proof.
  intros e name url.
  assert (Js.member Cases.board (js "name") = VStr name) as Hn
    by (vm_compute; reflexivity).
  assert (Js.member Cases.board (js "url") = VStr url) as Hu
    by (vm_compute; reflexivity).
  assert (Js.truthy (Js.member Cases.board (js "description")) = false) as Hd
    by (vm_compute; reflexivity).
  assert (name <> []) as Hne by discriminate.
  assert (url <> []) as Hue by discriminate.
  split; [by repeat split|].
  destruct (board_stored_trimmed e Cases.board [] name url Hn Hu Hd Hne Hue)
    as (board & Hrun & Hname & Hurl & _).
  exists board. split; [exact Hrun|].
  split; (etransitivity; [eassumption|vm_compute; reflexivity]).
Defined.

(** The file defines the key already. *)
Lemma api_key_survives_restart_witness :
  let key := js " sk-ant-123 " in
  (Js.member Cases.key_body (js "key") = VStr key
   /\ Str.trim key <> []
   /\ DotEnv.one_line (Str.trim key) = true
   /\ Stringify.well_formed (Str.trim key) = true
   /\ Stringify.well_formed Cases.dotenv = true
   /\ forallb (fun line => implb (DotEnv.names_key line)
                                 (DotEnv.defines_key line))
              (DotEnv.split Cases.dotenv) = true)
  /\ exists contents,
       DotEnv.set_api_key Cases.key_body (Some Cases.dotenv) None
       = (Success 200 (), Some contents, Some (js "sk-ant-123"))
       /\ DotEnv.load contents ∅ !! DotEnv.name = Some (js "sk-ant-123")
       /\ DotEnv.load contents ∅ !! js "PORT" = Some (js "3000").
Proof.
  intros key.
  assert (Js.member Cases.key_body (js "key") = VStr key) as Hk
    by (vm_compute; reflexivity).
  assert (Str.trim key <> []) as Ht by (vm_compute; discriminate).
  assert (DotEnv.one_line (Str.trim key) = true) as Hl
    by (vm_compute; reflexivity).
  assert (Stringify.well_formed (Str.trim key) = true) as Hw
    by (vm_compute; reflexivity).
  assert (Stringify.well_formed Cases.dotenv = true) as Hw'
    by (vm_compute; reflexivity).
  assert (forallb (fun line => implb (DotEnv.names_key line)
                                     (DotEnv.defines_key line))
                  (DotEnv.split Cases.dotenv) = true) as Hf
    by (vm_compute; reflexivity).
  assert ((∅ : gmap jsstring jsstring) !! DotEnv.name = None
          \/ (∅ : gmap jsstring jsstring) !! DotEnv.name = Some []) as He
    by (left; apply lookup_empty).
  split; [by repeat split|].
  destruct (api_key_survives_restart Cases.key_body (Some Cases.dotenv) None
              key ∅ Hk Ht Hl Hw Hw' He Hf)
    as (contents & Hrun & Hkey & Hrest).
  exists contents.
  split; [etransitivity; [exact Hrun|vm_compute; reflexivity]|].
  split; [etransitivity; [exact Hkey|vm_compute; reflexivity]|].
  etransitivity; [apply Hrest; by vm_compute|vm_compute; reflexivity].
Defined.

(** A new resume template over the two registered ones; then the same
    upload when the file cannot be written. *)
Lemma upload_replaces_kind_witness :
  let e := Cases.rendering in
  Templates.upload_template e true (Some Cases.uploaded)
    (Sample.text "resume") Cases.registered
  = (Success 201 Cases.stored_entry, Cases.replaced)
  /\ List.filter
       (fun t => bool_decide (Templates.entry_type t = js "resume"))
       Cases.replaced = [Cases.stored_entry]
  /\ Templates.upload_template e false (Some Cases.uploaded)
       (Sample.text "resume") Cases.registered
     = (Failure 500 (js "Failed to upload template") None, Cases.registered).
Proof.
  intros e.
  destruct (proj1 (upload_replaces_kind e true (Some Cases.uploaded)
                     (Sample.text "resume") Cases.registered)
              Cases.uploaded (js "resume") eq_refl eq_refl eq_refl
              (or_introl eq_refl))
    as (entry & entries' & Hrun & _ & _ & _ & _ & _ & Hone & _).
  assert (Templates.upload_template e true (Some Cases.uploaded)
            (Sample.text "resume") Cases.registered
          = (Success 201 Cases.stored_entry, Cases.replaced)) as Hup
    by (vm_compute; reflexivity).
  rewrite Hup in Hrun. injection Hrun as <- <-.
  split; [exact Hup|]. split; [exact Hone|].
  exact (proj2 (proj2 (proj2 (upload_replaces_kind e false
                                (Some Cases.uploaded) (Sample.text "resume")
                                Cases.registered)))
           Cases.uploaded (js "resume") eq_refl eq_refl (or_introl eq_refl)
           eq_refl).
Defined.

(** A new resume template over the registered one. *)
Lemma uploaded_template_is_used_witness :
  let e := Cases.rendering in
  let st := {| stored := Cases.after_upload; model_calls := 0 |} in
  let name := js "resume-uuid-4.docx" in
  (Templates.upload_template e true (Some Cases.uploaded)
     (Sample.text "resume") Cases.registered
   = (Success 201 Cases.stored_entry, Cases.replaced)
   /\ templates (stored st) = Templates.registered Cases.replaced)
  /\ Docx.generateDocx (R := ()) e (js "resume") ∅ st
     = (Ok (Some name),
        {| stored :=
             add_generated name
               (Docx.repair (Layout.text Cases.lead Cases.segments))
               Cases.after_upload;
           model_calls := 0 |}).
Proof.
  intros e st name.
  assert (Templates.upload_template e true (Some Cases.uploaded)
            (Sample.text "resume") Cases.registered
          = (Success 201 Cases.stored_entry, Cases.replaced)) as Hup
    by (vm_compute; reflexivity).
  split; [by split|].
  exact (uploaded_template_is_used (R := ()) e e Cases.uploaded
           (Sample.text "resume") Cases.registered Cases.replaced
           Cases.stored_entry ∅ st Hup eq_refl).
Defined.

Lemma upload_then_delete_witness :
  let e := Cases.rendering in
  Templates.upload_template e true (Some Cases.uploaded)
    (Sample.text "resume") Cases.registered
  = (Success 201 Cases.stored_entry, Cases.replaced)
  /\ exists entries'',
       Templates.delete_template (js "uuid-3") Cases.replaced
       = (Success 200 (), entries'')
       /\ List.filter
            (fun t => bool_decide (Templates.entry_type t = js "resume"))
            entries'' = [].
Proof.
  intros e.
  assert (Templates.upload_template e true (Some Cases.uploaded)
            (Sample.text "resume") Cases.registered
          = (Success 201 Cases.stored_entry, Cases.replaced)) as Hup
    by (vm_compute; reflexivity).
  split; [exact Hup|].
  destruct (upload_then_delete (R := ()) e e Cases.uploaded
              (Sample.text "resume") Cases.registered Cases.replaced
              Cases.stored_entry ∅
              {| stored := Cases.after_upload; model_calls := 0 |} Hup)
    as (entries'' & Hdel & Hnone & _).
  exists entries''. by split.
Defined.

(** The text of the uploaded template names two placeholders, one of them
    twice. *)
Lemma placeholders_listed_witness :
  let pre := js "Name: " in
  let name := js "name" in
  let post := js " Skills: {skills} {name}" in
  (Templates.fullText Cases.uploaded
   = Some (pre ++ [123%N] ++ name ++ [125%N] ++ post)
   /\ forallb (fun c => negb (c =? 123)%N) pre = true
   /\ forallb (fun c => negb (Templates.is_brace c)) name = true
   /\ name <> [])
  /\ name ∈ Templates.scan Cases.uploaded
  /\ NoDup (Templates.scan Cases.uploaded).
Proof.
  intros pre name post.
  assert (Templates.fullText Cases.uploaded
          = Some (pre ++ [123%N] ++ name ++ [125%N] ++ post)) as Ht
    by (vm_compute; reflexivity).
  assert (forallb (fun c => negb (c =? 123)%N) pre = true) as Hp
    by (vm_compute; reflexivity).
  assert (forallb (fun c => negb (Templates.is_brace c)) name = true) as Hn
    by (vm_compute; reflexivity).
  assert (name <> []) as Hne by discriminate.
  split; [by repeat split|].
  destruct (placeholders_listed Cases.uploaded pre name post Ht Hp Hn Hne)
    as (Hin & Hnd & _).
  by split.
Defined.

(** The ampersand and the spaces of the company are not in the name. *)
Lemma download_name_plain_witness :
  let a := {| Download.docxPath := js "resume-uuid-2.docx";
              Download.name := js "resume-Acme---Sons.docx" |} in
  Download.download (fun _ => true) (js "resume-1") Cases.with_document
  = Success 200 a
  /\ Download.plain (Download.name a).
Proof.
  intros a.
  assert (Download.download (fun _ => true) (js "resume-1")
            Cases.with_document = Success 200 a) as H
    by (vm_compute; reflexivity).
  split; [exact H|].
  exact (proj1 (proj2 (proj2 (download_name_plain _ _ _ _ _ H)))).
Defined.
